(** * VineHelper: the notification-monitor catalog and the service-worker pipeline

    A shallow embedding of
      - [scripts/notification_monitor/ItemsMgr.js] (class [ItemsMgr]),
      - the service worker that feeds it ([dataBuffering],
        [connectWebSocket], [resetReloadTimer], [isTimeWithinRange],
        [setReloadTimer], [processBroadcastMessage],
        [processLast100Items]),
      - [scripts/SettingsMgr.js] (the [get] accessor over the nested
        settings objects),
    followed by the properties established about them.

    JavaScript values are modelled by the primitives the code handles
    (undefined, null, booleans, numbers, strings) and by [Date] objects.
    Numbers are exact rationals extended with NaN and the two infinities:
    the code only compares numbers, tests them for truthiness and takes the
    sign of a difference, and on these operations exact rationals and IEEE
    doubles agree (rounding of literals and the sign of zero are not
    modelled).  [isTimeWithinRange] also divides a difference of time
    values, which are whole numbers of milliseconds, by the length of an
    hour and compares the quotient with 8, which no rounding changes.  The
    jittered delay of [setReloadTimer] is a floating-point product and sum
    of a random number; it is not computed here and stays a parameter. *)

From Stdlib Require Import QArith Qabs Lqa Ascii String List Sorting.Sorted Permutation.
From stdpp Require Import gmap strings list.

Local Open Scope string_scope.
Local Open Scope list_scope.

(* ===================================================================== *)
(** ** The JavaScript operators used by the code *)
(* ===================================================================== *)

Module JS.

Inductive number : Type :=
| NaN
| PosInf
| NegInf
| Fin (q : Q).

Inductive value : Type :=
| JUndefined
| JNull
| JBool (b : bool)
| JNum (n : number)
| JStr (s : string)
| JDate (t : number).   (* a Date object, held by its time value *)

Definition num (z : Z) : value := JNum (Fin (inject_Z z)).

(** *** Numbers *)

Definition Qzero (q : Q) : bool := (Qnum q =? 0)%Z.
Definition Qltb (a b : Q) : bool :=
  match (a ?= b)%Q with Lt => true | _ => false end.

Definition num_neg (a : number) : number :=
  match a with
  | NaN => NaN | PosInf => NegInf | NegInf => PosInf
  | Fin q => Fin (- q)%Q
  end.

(** [a - b] on numbers. *)
Definition num_sub (a b : number) : number :=
  match a, b with
  | NaN, _ | _, NaN => NaN
  | PosInf, PosInf | NegInf, NegInf => NaN
  | PosInf, _ => PosInf
  | NegInf, _ => NegInf
  | Fin _, PosInf => NegInf
  | Fin _, NegInf => PosInf
  | Fin x, Fin y => Fin (x - y)%Q
  end.

(** [a < b] on numbers; an undefined comparison (NaN) counts as false. *)
Definition num_lt (a b : number) : bool :=
  match a, b with
  | NaN, _ | _, NaN => false
  | PosInf, _ => false
  | _, NegInf => false
  | NegInf, _ => true
  | Fin _, PosInf => true
  | Fin x, Fin y => Qltb x y
  end.

Definition num_eq (a b : number) : bool :=
  match a, b with
  | PosInf, PosInf | NegInf, NegInf => true
  | Fin x, Fin y => Qeq_bool x y
  | _, _ => false
  end.

Definition num_pos (a : number) : bool := num_lt (Fin 0) a.

(** [Math.abs(a)] *)
Definition num_abs (a : number) : number :=
  match a with
  | NaN => NaN
  | PosInf | NegInf => PosInf
  | Fin q => Fin (Qabs q)
  end.

(** [a / b] on numbers. *)
Definition num_div (a b : number) : number :=
  match a, b with
  | NaN, _ | _, NaN => NaN
  | (PosInf | NegInf), (PosInf | NegInf) => NaN
  | PosInf, Fin q => if Qltb q 0 then NegInf else PosInf
  | NegInf, Fin q => if Qltb q 0 then PosInf else NegInf
  | Fin _, (PosInf | NegInf) => Fin 0
  | Fin p, Fin q =>
      if Qzero q
      then if Qzero p then NaN else if Qltb p 0 then NegInf else PosInf
      else Fin (p / q)%Q
  end.

(** *** Parsing numeric strings *)

Definition is_ws (c : ascii) : bool :=
  let n := nat_of_ascii c in
  (n =? 32)%nat || (n =? 9)%nat || (n =? 10)%nat || (n =? 11)%nat
  || (n =? 12)%nat || (n =? 13)%nat.

Fixpoint skip_ws (l : list ascii) : list ascii :=
  match l with
  | c :: r => if is_ws c then skip_ws r else l
  | [] => []
  end.

Definition trim (l : list ascii) : list ascii :=
  rev (skip_ws (rev (skip_ws l))).

Definition digit_val (radix : Z) (c : ascii) : option Z :=
  let n := Z.of_nat (nat_of_ascii c) in
  let d := (if (48 <=? n) && (n <=? 57) then n - 48
            else if (97 <=? n) && (n <=? 102) then n - 87
            else if (65 <=? n) && (n <=? 70) then n - 55
            else radix)%Z in
  if (d <? radix)%Z then Some d%Z else None.

(** Longest run of digits: its value, its length, and what follows. *)
Fixpoint read_digits (radix : Z) (l : list ascii) (acc : Z) (cnt : nat)
  : Z * nat * list ascii :=
  match l with
  | c :: r =>
      match digit_val radix c with
      | Some d => read_digits radix r (radix * acc + d)%Z (S cnt)
      | None => (acc, cnt, l)
      end
  | [] => (acc, cnt, [])
  end.

Definition pow10 (e : Z) : Q := Qpower (inject_Z 10) e.

(** ExponentPart, taken only when digits follow the [e]. *)
Definition read_exponent (m : Q) (l : list ascii) : Q * list ascii :=
  match l with
  | c :: r =>
      if (nat_of_ascii c =? 101)%nat || (nat_of_ascii c =? 69)%nat then
        let '(neg, r') :=
          match r with
          | s :: r1 =>
              if (nat_of_ascii s =? 45)%nat then (true, r1)
              else if (nat_of_ascii s =? 43)%nat then (false, r1)
              else (false, r)
          | [] => (false, r)
          end in
        let '(e, n, rest) := read_digits 10 r' 0 0 in
        match n with
        | O => (m, l)
        | _ => ((m * pow10 (if neg then - e else e))%Q, rest)
        end
      else (m, l)
  | [] => (m, l)
  end.

Definition Infinity_chars : list ascii := list_ascii_of_string "Infinity".

Fixpoint strip_prefix (p l : list ascii) : option (list ascii) :=
  match p, l with
  | [], _ => Some l
  | a :: p', b :: l' => if Ascii.eqb a b then strip_prefix p' l' else None
  | _ :: _, [] => None
  end.

(** StrUnsignedDecimalLiteral as a prefix of [l]. *)
Definition read_unsigned (l : list ascii) : option (number * list ascii) :=
  match strip_prefix Infinity_chars l with
  | Some rest => Some (PosInf, rest)
  | None =>
      let '(ip, ni, r1) := read_digits 10 l 0 0 in
      let dot :=
        match r1 with
        | c :: r2 => if (nat_of_ascii c =? 46)%nat then Some r2 else None
        | [] => None
        end in
      match dot with
      | Some r2 =>
          let '(fp, nf, r3) := read_digits 10 r2 0 0 in
          match ni, nf with
          | O, O => None
          | _, _ =>
              let m := (inject_Z (ip * 10 ^ Z.of_nat nf + fp)
                        * pow10 (- Z.of_nat nf))%Q in
              let '(v, rest) := read_exponent m r3 in
              Some (Fin v, rest)
          end
      | None =>
          match ni with
          | O => None
          | _ => let '(v, rest) := read_exponent (inject_Z ip) r1 in
                 Some (Fin v, rest)
          end
      end
  end.

Definition read_signed (l : list ascii) : option (number * list ascii) :=
  match l with
  | c :: r =>
      if (nat_of_ascii c =? 45)%nat then
        match read_unsigned r with
        | Some (n, rest) => Some (num_neg n, rest)
        | None => None
        end
      else if (nat_of_ascii c =? 43)%nat then read_unsigned r
      else read_unsigned l
  | [] => None
  end.

(** [parseFloat] applied to a string: leading white space is skipped and the
    longest decimal prefix is read. *)
Definition parseFloat_string (s : string) : number :=
  match read_signed (skip_ws (list_ascii_of_string s)) with
  | Some (n, _) => n
  | None => NaN
  end.

Definition read_radix_literal (l : list ascii) : option number :=
  match l with
  | z :: x :: r =>
      if (nat_of_ascii z =? 48)%nat then
        let n := nat_of_ascii x in
        let radix :=
          if (n =? 120)%nat || (n =? 88)%nat then Some 16%Z
          else if (n =? 111)%nat || (n =? 79)%nat then Some 8%Z
          else if (n =? 98)%nat || (n =? 66)%nat then Some 2%Z
          else None in
        match radix with
        | Some b =>
            match read_digits b r 0 0 with
            | (_, O, _) => Some NaN
            | (v, _, []) => Some (Fin (inject_Z v))
            | (_, _, _ :: _) => Some NaN
            end
        | None => None
        end
      else None
  | _ => None
  end.

(** ToNumber on a string (StringToNumber): the whole trimmed string has to be
    a numeric literal; the empty string is 0. *)
Definition StringToNumber (s : string) : number :=
  let l := trim (list_ascii_of_string s) in
  match l with
  | [] => Fin 0
  | _ =>
      match read_radix_literal l with
      | Some n => n
      | None =>
          match read_signed l with
          | Some (n, []) => n
          | _ => NaN
          end
      end
  end.

(** *** Conversions and operators on values *)

Definition ToBoolean (v : value) : bool :=
  match v with
  | JUndefined | JNull => false
  | JBool b => b
  | JNum NaN => false
  | JNum (Fin q) => negb (Qzero q)
  | JNum _ => true
  | JStr s => negb (String.eqb s "")
  | JDate _ => true
  end.

Definition ToNumber (v : value) : number :=
  match v with
  | JUndefined => NaN
  | JNull => Fin 0
  | JBool true => Fin 1
  | JBool false => Fin 0
  | JNum n => n
  | JStr s => StringToNumber s
  | JDate t => t
  end.

(** [a || b] *)
Definition logical_or (a b : value) : value := if ToBoolean a then a else b.

(** [!a] *)
Definition logical_not (a : value) : bool := negb (ToBoolean a).

(** [a - b] *)
Definition sub (a b : value) : number := num_sub (ToNumber a) (ToNumber b).

(** [a < b]: two strings are compared by code units, anything else as
    numbers. *)
Definition less (a b : value) : bool :=
  match a, b with
  | JStr s, JStr t => String.ltb s t
  | _, _ => num_lt (ToNumber a) (ToNumber b)
  end.

(** [a > b] *)
Definition greater (a b : value) : bool := less b a.

(** [parseFloat(v)]: the argument is converted to a string first; a number
    reads back as itself, the other non-string values render as text that
    does not start with a numeral. *)
Definition parseFloat (v : value) : number :=
  match v with
  | JNum n => n
  | JStr s => parseFloat_string s
  | _ => NaN
  end.

(** [a === b]. A Date is an object: it is never identical to a primitive,
    and the code never compares two Dates. *)
Definition strict_eq (a b : value) : bool :=
  match a, b with
  | JUndefined, JUndefined => true
  | JNull, JNull => true
  | JBool x, JBool y => Bool.eqb x y
  | JNum x, JNum y => num_eq x y
  | JStr s, JStr t => String.eqb s t
  | _, _ => false
  end.

(** [a == b]. A Date compared with a primitive is first rendered as text;
    that text is a date (or "Invalid Date"), which none of the strings the
    code compares against is, and which is not a numeral. *)
Definition loose_eq (a b : value) : bool :=
  match a, b with
  | JDate _, _ | _, JDate _ => false
  | (JUndefined | JNull), (JUndefined | JNull) => true
  | (JUndefined | JNull), _ | _, (JUndefined | JNull) => false
  | JStr s, JStr t => String.eqb s t
  | _, _ => num_eq (ToNumber a) (ToNumber b)
  end.

(** SameValueZero, the equality of [Set] and [Map] keys. *)
Definition same_value_zero (a b : value) : bool :=
  match a, b with
  | JNum NaN, JNum NaN => true
  | _, _ => strict_eq a b
  end.

(** ToIntegerOrInfinity followed by the range check of TimeClip. *)
Definition TimeClip (n : number) : number :=
  match n with
  | Fin q =>
      let t := Z.quot (Qnum q) (Zpos (Qden q)) in
      if (Z.abs t <=? 8640000000000000)%Z then Fin (inject_Z t) else NaN
  | _ => NaN
  end.

(** Property read [o.k]: a missing property reads as undefined. *)
Definition prop (o : gmap string value) (k : string) : value :=
  default JUndefined (o !! k).

(** A [Map] with string keys, in insertion order: [set] on a key that is
    present keeps its place, a new key goes last. *)
Section Map.
Context {V : Type}.

Fixpoint Map_get (k : string) (m : list (string * V)) : option V :=
  match m with
  | [] => None
  | (k', v) :: r => if String.eqb k k' then Some v else Map_get k r
  end.

Definition Map_has (k : string) (m : list (string * V)) : bool :=
  match Map_get k m with Some _ => true | None => false end.

Fixpoint Map_set (k : string) (v : V) (m : list (string * V))
  : list (string * V) :=
  match m with
  | [] => [(k, v)]
  | (k', v') :: r =>
      if String.eqb k k' then (k', v) :: r else (k', v') :: Map_set k v r
  end.

Fixpoint Map_delete (k : string) (m : list (string * V))
  : list (string * V) :=
  match m with
  | [] => []
  | (k', v') :: r =>
      if String.eqb k k' then r else (k', v') :: Map_delete k r
  end.

(** Place of a key in iteration order. *)
Fixpoint Map_index (k : string) (m : list (string * V)) : option nat :=
  match m with
  | [] => None
  | (k', _) :: r =>
      if String.eqb k k' then Some O else S <$> Map_index k r
  end.
End Map.

(** [Set.prototype.add] on a set of values kept in insertion order. *)
Definition Set_add (v : value) (s : list value) : list value :=
  if existsb (same_value_zero v) s then s else s ++ [v].

(** Array.prototype.sort with a comparator: stable; [x] goes after [y]
    exactly when the comparator gives a positive number, a NaN result counts
    as 0.  Written as an insertion sort; any stable sort returns the same
    array when the comparator is consistent. *)
Section Sort.
Context {A : Type} (cmp : A -> A -> number).

Fixpoint sort_insert (x : A) (l : list A) : list A :=
  match l with
  | [] => [x]
  | y :: r => if num_pos (cmp x y) then y :: sort_insert x r else x :: l
  end.

Fixpoint Array_sort (l : list A) : list A :=
  match l with
  | [] => []
  | x :: r => sort_insert x (Array_sort r)
  end.
End Sort.

(** [s.split(sep)] for a separator of one character. *)
Fixpoint split (sep : ascii) (s : string) : list string :=
  match s with
  | EmptyString => [EmptyString]
  | String c r =>
      if Ascii.eqb c sep then EmptyString :: split sep r
      else match split sep r with
           | w :: ws => String c w :: ws
           | [] => [String c EmptyString]
           end
  end.

End JS.

(* ===================================================================== *)
(** ** scripts/SettingsMgr.js *)
(* ===================================================================== *)

Module SettingsMgr.
Import JS.

(** What a property of a settings object holds: a primitive value, or an
    inner object with properties of its own. *)
Local Unset Elimination Schemes.
Inductive setting : Type :=
| Primitive (v : value)
| Object (properties : gmap string setting).
Local Set Elimination Schemes.

(** The two settings objects, [#settings] and [#defaultSettings]. *)
Record t : Type := {
  settings : gmap string setting;
  defaultSettings : gmap string setting;
}.

(** Truthiness of [prev]: an object is truthy. *)
Definition truthy (prev : setting) : bool :=
  match prev with
  | Primitive v => ToBoolean v
  | Object _ => true
  end.

(** [prev[curr]] on a truthy [prev]: a property that an object does not
    have reads as undefined.  The members a primitive has by itself (the
    length and the characters of a string, the methods of the prototypes)
    are not settings and are not modelled: they read as undefined. *)
Definition property (prev : setting) (curr : string) : setting :=
  match prev with
  | Object properties => default (Primitive JUndefined) (properties !! curr)
  | Primitive _ => Primitive JUndefined
  end.

(** [#getFromObject(obj, settingPath)]:
    [pathArray.reduce((prev, curr) => prev && prev[curr], obj)]. *)
Definition getFromObject (obj : gmap string setting) (settingPath : string)
  : setting :=
  let pathArray := split "." settingPath in
  fold_left (fun prev curr => if truthy prev then property prev curr else prev)
            pathArray (Object obj).

(** [answer == undefined] *)
Definition is_undefined (answer : setting) : bool :=
  match answer with
  | Primitive v => loose_eq v JUndefined
  | Object _ => false
  end.

(** [get(settingPath, undefinedReturnDefault = true)].  The paths the code
    reads are those of primitive settings; where a path stops on an inner
    object the code hands out that object, which is no value of this
    model, and the answer here is undefined. *)
Definition get (s : t) (settingPath : string) (undefinedReturnDefault : bool)
  : value :=
  let answer := getFromObject (settings s) settingPath in
  let answer :=
    if is_undefined answer && undefinedReturnDefault
    then getFromObject (defaultSettings s) settingPath
    else answer in
  match answer with
  | Primitive v => v
  | Object _ => JUndefined
  end.

End SettingsMgr.

(* ===================================================================== *)
(** ** scripts/notification_monitor/ItemsMgr.js *)
(* ===================================================================== *)

Module ItemsMgr.
Import JS.

Definition TYPE_DATE_ASC : string := "date_asc".
Definition TYPE_DATE_DESC : string := "date_desc".
Definition TYPE_PRICE_DESC : string := "price_desc".
Definition TYPE_PRICE_ASC : string := "price_asc".

(** A DOM element is an opaque handle. *)
Definition Element : Type := nat.

(** A value of the [items] map: [{data, element}] and, once
    [storeItemDOMElement] ran, a [tile] built on the element. *)
Record Item : Type := {
  data : gmap string value;
  element : option Element;      (* null until the element is stored *)
  tile : option Element;         (* absent, or [new Tile(element, null)] *)
}.

(** An entry of the array [sortItems] works on: [{asin, data, element}]. *)
Record Entry : Type := {
  e_asin : string;
  e_data : gmap string value;
  e_element : option Element;
}.

Record ItemsMgr : Type := {
  imageUrls : list value;
  items : list (string * Item);
}.

Definition with_items (m : ItemsMgr) (l : list (string * Item)) : ItemsMgr :=
  {| imageUrls := imageUrls m; items := l |}.

Definition with_data (it : Item) (d : gmap string value) : Item :=
  {| data := d; element := element it; tile := tile it |}.

Inductive result (A : Type) : Type :=
| Return (a : A)
| Throw (message : string).
Arguments Return {A} a.
Arguments Throw {A} message.

Section WithSettings.
Variable _settings : SettingsMgr.t.

(** The comparator given to [itemsArray.sort]. *)
Definition compareEntries (a b : Entry) : number :=
  let sortType :=
    SettingsMgr.get _settings "notification.monitor.sortType" true in
  if strict_eq sortType (JStr TYPE_DATE_ASC) then
    sub (prop (e_data a) "date") (prop (e_data b) "date")
  else if strict_eq sortType (JStr TYPE_DATE_DESC) then
    sub (prop (e_data b) "date") (prop (e_data a) "date")
  else if strict_eq sortType (JStr TYPE_PRICE_ASC) then
    let aPrice := parseFloat (logical_or (prop (e_data a) "etv_min") (num 99999999)) in
    let bPrice := parseFloat (logical_or (prop (e_data b) "etv_min") (num 99999999)) in
    num_sub aPrice bPrice
  else
    let aPrice := parseFloat (logical_or (prop (e_data a) "etv_min") (num (-1))) in
    let bPrice := parseFloat (logical_or (prop (e_data b) "etv_min") (num (-1))) in
    num_sub bPrice aPrice.

Definition toEntry (kv : string * Item) : Entry :=
  {| e_asin := fst kv; e_data := data (snd kv);
     e_element := element (snd kv) |}.

(** The rebuilt map value is [{data, element}]: a [tile] is not carried
    over. *)
Definition ofEntry (e : Entry) : string * Item :=
  (e_asin e, {| data := e_data e; element := e_element e; tile := None |}).

(** [sortItems()]: the new state and the returned array (nothing is
    returned, and nothing changes, on an empty map). *)
Definition sortItems (m : ItemsMgr) : ItemsMgr * option (list Entry) :=
  match items m with
  | [] => (m, None)
  | _ =>
      let itemsArray := Array_sort compareEntries (map toEntry (items m)) in
      (with_items m (map ofEntry itemsArray), Some itemsArray)
  end.

(** [updateItemETV(asin, etv)] *)
Definition updateItemETV (asin : string) (etv : value) (m : ItemsMgr)
  : ItemsMgr * bool :=
  match Map_get asin (items m) with
  | None => (m, false)
  | Some item =>
      let d := data item in
      let d1 :=
        if logical_not (prop d "etv_min") || less etv (prop d "etv_min")
        then <["etv_min" := etv]> d else d in
      let d2 :=
        if logical_not (prop d1 "etv_max") || greater etv (prop d1 "etv_max")
        then <["etv_max" := etv]> d1 else d1 in
      let m1 := with_items m (Map_set asin (with_data item d2) (items m)) in
      (fst (sortItems m1), true)
  end.

(** [updateItemTier(asin, tier)] *)
Definition updateItemTier (asin : string) (tier : value) (m : ItemsMgr)
  : ItemsMgr * bool :=
  match Map_get asin (items m) with
  | None => (m, false)
  | Some item =>
      let item' := with_data item (<["tier" := tier]> (data item)) in
      let m1 := with_items m (Map_set asin item' (items m)) in
      (fst (sortItems m1), true)
  end.

(** The two statements that turn an empty-string [etv_min] / [etv_max] of
    the stored record back into null. *)
Definition emptyToNull (k : string) (d : gmap string value)
  : gmap string value :=
  if strict_eq (prop d k) (JStr "") then <[k := JNull]> d else d.

(** [addItemData(asin, itemData)]; [now] is what [new Date()] gives.
    In [{...existing.data, ...itemData}] the later spread wins: the union
    is biased to [itemData].  A spread copies a null as it is, so the two
    statements after the merge act on bounds that arrive as empty
    strings. *)
Definition addItemData (now : number) (asin : string)
    (itemData : gmap string value) (m : ItemsMgr) : ItemsMgr * bool :=
  let '(items1, addedStatus) :=
    match Map_get asin (items m) with
    | None =>
        (Map_set asin
           {| data := <["dateAdded" := JDate now]> itemData;
              element := None; tile := None |} (items m), true)
    | Some existing =>
        (Map_set asin
           {| data := itemData ∪ data existing;
              element := element existing; tile := None |} (items m), false)
    end in
  let items2 :=
    match Map_get asin items1 with
    | Some it =>
        Map_set asin
          (with_data it (emptyToNull "etv_max" (emptyToNull "etv_min" (data it))))
          items1
    | None => items1
    end in
  let urls :=
    if ToBoolean (prop itemData "img_url")
       && ToBoolean (SettingsMgr.get _settings
                       "notification.monitor.hideDuplicateThumbnail" true)
    then Set_add (prop itemData "img_url") (imageUrls m)
    else imageUrls m in
  (fst (sortItems {| imageUrls := urls; items := items2 |}), addedStatus).

(** [storeItemDOMElement(asin, element)] *)
Definition storeItemDOMElement (asin : string) (el : Element) (m : ItemsMgr)
  : result (ItemsMgr * bool) :=
  match Map_get asin (items m) with
  | Some item =>
      let item' :=
        {| data := data item; element := Some el; tile := Some el |} in
      Return (with_items m (Map_set asin item' (items m)),
              strict_eq (prop (data item) "unavailable") (JBool true))
  | None =>
      Throw ("Item " ++ asin ++ " not found in items map")%string
  end.

(** [markItemUnavailable(asin)] *)
Definition markItemUnavailable (asin : string) (m : ItemsMgr) : ItemsMgr :=
  match Map_get asin (items m) with
  | Some item =>
      let item' := with_data item (<["unavailable" := JBool true]> (data item)) in
      with_items m (Map_set asin item' (items m))
  | None => m
  end.

(** [getItemDOMElement(asin)]: undefined for an unknown asin, else the
    element, which may still be null. *)
Definition getItemDOMElement (asin : string) (m : ItemsMgr)
  : option (option Element) :=
  element <$> Map_get asin (items m).

Definition getItemTile (asin : string) (m : ItemsMgr)
  : option (option Element) :=
  tile <$> Map_get asin (items m).

Definition removeAsin (asin : string) (m : ItemsMgr) : ItemsMgr :=
  with_items m (Map_delete asin (items m)).

End WithSettings.

End ItemsMgr.

(* ===================================================================== *)
(** ** The service worker *)
(* ===================================================================== *)

Module ServiceWorker.
Import JS.

Definition DEBUG_MODE : bool := false.

(** What is handed to [sendMessageToAllTabs]: a flat object, or the batch
    [{type: "fetch100", data: dataBuffer}]. *)
Inductive Message : Type :=
| Obj (o : gmap string value)
| Fetch100 (data : list (gmap string value)).

(** Calls that leave the worker. *)
Inductive Effect : Type :=
| SendMessageToAllTabs (m : Message)
| StreamInput (o : gmap string value)          (* myStream.input(o) *)
| IoConnect (query : gmap string value)        (* io.connect(url, {query}) *)
| SocketEmit (event : string) (o : gmap string value).

(** The callbacks the worker gives to [setTimeout]. *)
Inductive Callback : Type :=
| CooldownOver                (* the arrow function of resetReloadTimer *)
| DisplayLog (timer : Z)      (* the log line of setReloadTimer *)
| NextReload.                 (* the arrow function calling setReloadTimer *)

Record Socket : Type := { connected : bool }.

(** The worker's globals, and the platform's table of pending timers
    (id, delay in ms, callback); timer ids start at 1.  The class behind
    [i13n] ([Internationalization.js]) is not among the sources: [i13n] is
    taken to hold the country code that [setCountryCode] gave it last, null
    at first, and [getCountryCode] to hand it back. *)
Record State : Type := {
  fetch100 : bool;
  dataBuffer : list (gmap string value);
  countryCode : value;                 (* i13n.getCountryCode() *)
  socket : option Socket;
  socket_connecting : bool;
  displayTimer : option nat;
  reloadTimer : option nat;
  timers : list (nat * (Z * Callback));
  nextTimerId : nat;
}.

Definition initial : State :=
  {| fetch100 := false; dataBuffer := []; countryCode := JNull;
     socket := None; socket_connecting := false;
     displayTimer := None; reloadTimer := None;
     timers := []; nextTimerId := 1 |}.

Definition set_buffer (b : bool) (buf : list (gmap string value)) (st : State)
  : State :=
  {| fetch100 := b; dataBuffer := buf; countryCode := countryCode st;
     socket := socket st; socket_connecting := socket_connecting st;
     displayTimer := displayTimer st; reloadTimer := reloadTimer st;
     timers := timers st; nextTimerId := nextTimerId st |}.

Definition set_countryCode (c : value) (st : State) : State :=
  {| fetch100 := fetch100 st; dataBuffer := dataBuffer st; countryCode := c;
     socket := socket st; socket_connecting := socket_connecting st;
     displayTimer := displayTimer st; reloadTimer := reloadTimer st;
     timers := timers st; nextTimerId := nextTimerId st |}.

Definition set_socket (s : option Socket) (connecting : bool) (st : State)
  : State :=
  {| fetch100 := fetch100 st; dataBuffer := dataBuffer st;
     countryCode := countryCode st;
     socket := s; socket_connecting := connecting;
     displayTimer := displayTimer st; reloadTimer := reloadTimer st;
     timers := timers st; nextTimerId := nextTimerId st |}.

Definition set_displayTimer (t : option nat) (st : State) : State :=
  {| fetch100 := fetch100 st; dataBuffer := dataBuffer st;
     countryCode := countryCode st;
     socket := socket st; socket_connecting := socket_connecting st;
     displayTimer := t; reloadTimer := reloadTimer st;
     timers := timers st; nextTimerId := nextTimerId st |}.

Definition set_reloadTimer (t : option nat) (st : State) : State :=
  {| fetch100 := fetch100 st; dataBuffer := dataBuffer st;
     countryCode := countryCode st;
     socket := socket st; socket_connecting := socket_connecting st;
     displayTimer := displayTimer st; reloadTimer := t;
     timers := timers st; nextTimerId := nextTimerId st |}.

Definition set_timers (l : list (nat * (Z * Callback))) (next : nat)
    (st : State) : State :=
  {| fetch100 := fetch100 st; dataBuffer := dataBuffer st;
     countryCode := countryCode st;
     socket := socket st; socket_connecting := socket_connecting st;
     displayTimer := displayTimer st; reloadTimer := reloadTimer st;
     timers := l; nextTimerId := next |}.

(** A piece of code that updates the globals and makes outside calls. *)
Definition Step : Type := State -> State * list Effect.

Definition skip : Step := fun st => (st, []).

Definition seq (f g : Step) : Step :=
  fun st =>
    let '(st1, out1) := f st in
    let '(st2, out2) := g st1 in
    (st2, out1 ++ out2).

Definition when (b : bool) (f : Step) : Step := if b then f else skip.

Definition update (f : State -> State) : Step := fun st => (f st, []).

Definition emit (e : Effect) : Step := fun st => (st, [e]).

Notation "f ;;; g" := (seq f g) (at level 100, right associativity).

(** [socket?.connected] *)
Definition socket_connected (st : State) : bool :=
  match socket st with
  | Some s => connected s
  | None => false
  end.

(** *** The bulk buffer *)

Definition typed (t : string) : gmap string value := {[ "type" := JStr t ]}.

(** [dataBuffering(data)] *)
Definition dataBuffering (data : gmap string value) : Step :=
  fun st =>
    if negb (fetch100 st) then (st, [SendMessageToAllTabs (Obj data)])
    else
      let buffer := dataBuffer st ++ [data] in
      if loose_eq (prop data "type") (JStr "fetchRecentItemsEnd") then
        (set_buffer false [] st, [SendMessageToAllTabs (Fetch100 buffer)])
      else (set_buffer true buffer st, []).

(** *** Timers *)

(** [setTimeout(cb, delay)]: the new state and the timer's id. *)
Definition setTimeout (cb : Callback) (delay : Z) (st : State) : State * nat :=
  let id := nextTimerId st in
  (set_timers (timers st ++ [(id, (delay, cb))]) (S id) st, id).

(** [clearTimeout(id)] *)
Definition clearTimeout (id : nat) (st : State) : State :=
  set_timers (filter (fun t => fst t ≠ id) (timers st)) (nextTimerId st) st.

Definition pending (id : nat) (st : State) : option (Z * Callback) :=
  snd <$> find (fun t => Nat.eqb (fst t) id) (timers st).

(** [resetReloadTimer(interval)] *)
Definition resetReloadTimer (interval : Z) : Step :=
  fun st =>
    let '(st1, id) := setTimeout CooldownOver interval st in
    (set_reloadTimer (Some id) st1, []).

Section WithEnvironment.
Variable Settings : SettingsMgr.t.
Variable app_version : value.      (* chrome.runtime.getManifest().version *)
Variable chrome_windows : bool.    (* whether chrome.windows exists *)
(* Settings.isPremiumUser(2) && Settings.get("general.displayVariantButton") *)
Variable request_variants : value.

Definition identity : gmap string value :=
  {[ "uuid" := SettingsMgr.get Settings "general.uuid" false;
     "fid" := SettingsMgr.get Settings "general.fingerprint.id" false ]}.

(** [setReloadTimer()].  [inRange] is what [isTimeWithinRange()] answers,
    [monitorTab] whether [findMonitorTab] finds a window, [timer] the
    jittered delay drawn with [Math.random()].  The function is run in one
    piece: nothing is interleaved at its [await]. *)
Definition setReloadTimer (inRange monitorTab : bool) (timer : Z) : Step :=
  (fun st =>
     match displayTimer st with
     | Some id => (set_displayTimer None (clearTimeout id st), [])
     | None => (st, [])
     end) ;;;
  (fun st =>
     match reloadTimer st with
     | Some id => (set_reloadTimer None (clearTimeout id st), [])
     | None => (st, [])
     end) ;;;
  if negb inRange then resetReloadTimer (1000 * 60 * 15)
  else
    (fun st =>
       when (socket_connected st
             && ToBoolean (countryCode st)
             && logical_not (SettingsMgr.get Settings "thorvarium.mobileandroid" true)
             && logical_not (SettingsMgr.get Settings "thorvarium.mobileios" true)
             && chrome_windows)
         (when monitorTab
            (emit (SocketEmit "reloadRequest"
                     (<["countryCode" := countryCode st]> identity))))
         st) ;;;
    (fun st =>
       let '(st1, id) := setTimeout (DisplayLog timer) 500 st in
       (set_displayTimer (Some id) st1, [])) ;;;
    (fun st =>
       let '(st1, id) := setTimeout NextReload timer st in
       (set_reloadTimer (Some id) st1, [])).

(** The platform fires the pending timer [id]: it leaves the table and
    its callback runs. *)
Definition fire (id : nat) (inRange monitorTab : bool) (timer : Z) : Step :=
  fun st =>
    match pending id st with
    | None => (st, [])
    | Some (_, cb) =>
        let st1 := clearTimeout id st in
        match cb with
        | CooldownOver =>
            ((fun s =>
                match reloadTimer s with
                | Some r => (clearTimeout r s, [])
                | None => (s, [])
                end) ;;;
             update (set_reloadTimer None) ;;;
             setReloadTimer inRange monitorTab timer) st1
        | DisplayLog _ => (st1, [])
        | NextReload => setReloadTimer inRange monitorTab timer st1
        end
    end.

(** *** The connection *)

(** [connectWebSocket()], up to the registration of the handlers, which
    are the [on_...] steps below.  [io.connect] returns a socket that is
    not connected yet. *)
Definition connectWebSocket : Step :=
  fun st =>
    if logical_not (SettingsMgr.get Settings "notification.active" true) then (st, [])
    else if socket_connected st then (st, [])
    else if strict_eq (countryCode st) JNull then (st, [])
    else if socket_connecting st then (st, [])
    else
      (set_socket (Some {| connected := false |}) true st,
       [IoConnect
          (<["countryCode" :=
               if DEBUG_MODE then JStr "com" else countryCode st]>
             (<["app_version" := app_version]> identity))]).

(** The handler of "connect"; the socket library has set
    [socket.connected] before it runs. *)
Definition on_connect : Step :=
  fun st =>
    (set_socket (Some {| connected := true |}) false st,
     [SendMessageToAllTabs (Obj (typed "wsOpen"))]).

(** The handler of "disconnect"; [socket.connected] is false by then. *)
Definition on_disconnect : Step :=
  fun st =>
    (set_socket (Some {| connected := false |}) false st,
     [SendMessageToAllTabs (Obj (typed "wsClosed"))]).

(** The handler of "connect_error". *)
Definition on_connect_error : Step :=
  update (fun st => set_socket (socket st) false st).

(** *** Messages from the tabs *)

(** [processBroadcastMessage(data)], without the usage counter kept in
    the settings store and without the closing of the auto-refresh tab,
    neither of which touches the state held here. *)
Definition processBroadcastMessage (data : gmap string value) : Step :=
  let typ t := loose_eq (prop data "type") (JStr t) in
  if loose_eq (prop data "type") JUndefined then skip
  else
    when (typ "ping") (emit (SendMessageToAllTabs (Obj (typed "pong")))) ;;;
    when (typ "fetchLatestItems")
      (fun st =>
         when (socket_connected st)
           (emit (SocketEmit "getLast100"
              (<["app_version" := app_version]>
               (<["countryCode" := countryCode st]>
               (<["limit" := logical_or (prop data "limit") (num 100)]>
               (<["request_variants" := request_variants]>
                identity)))))) st) ;;;
    when (typ "setCountryCode")
      (update (set_countryCode (prop data "countryCode"))) ;;;
    when (typ "wsStatus")
      (fun st =>
         emit (SendMessageToAllTabs
                 (Obj (typed (if socket_connected st
                              then "wsOpen" else "wsClosed")))) st) ;;;
    when (typ "dogpage") (resetReloadTimer (1000 * 60 * 60 * 24)) ;;;
    when (typ "captchapage") (resetReloadTimer (1000 * 60 * 60)) ;;;
    when (typ "loginpage") (resetReloadTimer (1000 * 60 * 60)).

(** *** The bulk snapshot *)

(** [Date.parse] on strings is the platform's. *)
Variable Date_parse : string -> number.

(** Time value of [new Date(v)]. *)
Definition new_Date (v : value) : number :=
  match v with
  | JStr s => Date_parse s
  | JDate t => t
  | _ => TimeClip (ToNumber v)
  end.

(** The comparator given to [arrProducts.sort]: [dateB - dateA]. *)
Definition compareProducts (a b : gmap string value) : number :=
  let dateA := new_Date (prop a "date") in
  let dateB := new_Date (prop b "date") in
  num_sub dateB dateA.

(** The object given to [myStream.input] for the product at index [i]. *)
Definition newItem (i : nat) (p : gmap string value) : gmap string value :=
  list_to_map
    [ ("index", num (Z.of_nat i));
      ("type", JStr "newItem");
      ("domain", SettingsMgr.get Settings "general.country" true);
      ("date", prop p "date");
      ("date_added", prop p "date_added");
      ("asin", prop p "asin");
      ("title", prop p "title");
      ("img_url", prop p "img_url");
      ("etv_min", prop p "etv_min");
      ("etv_max", prop p "etv_max");
      ("queue", prop p "queue");
      ("tier", prop p "tier");
      ("reason", JStr "Fetch latest new items");
      ("is_parent_asin", prop p "is_parent_asin");
      ("is_pre_release", prop p "is_pre_release");
      ("enrollment_guid", prop p "enrollment_guid");
      ("unavailable", prop p "unavailable");
      ("variants", prop p "variants") ].

(** One turn of the loop, for index [i]. *)
Definition replayProduct (ip : nat * gmap string value) : list Effect :=
  let '(i, p) := ip in
  if loose_eq (prop p "img_url") (JStr "")
     || loose_eq (prop p "title") (JStr "")
  then []
  else [StreamInput (newItem i p)].

(** [processLast100Items(arrProducts)]: the array is sorted, then walked
    from its last index down to 0. *)
Definition processLast100Items (arrProducts : list (gmap string value))
  : Step :=
  fun st =>
    let sorted := Array_sort compareProducts arrProducts in
    (set_buffer true (dataBuffer st) st,
     flat_map replayProduct (rev (imap pair sorted))
     ++ [StreamInput (typed "fetchRecentItemsEnd")]).
End WithEnvironment.

(** *** The auto-load window *)

Local Open Scope Z_scope.

(** A [Date] object is held by its time value: a whole number of
    milliseconds since the epoch, or nothing for an invalid date. *)
Definition Date : Type := option Z.

Definition msPerSecond : Z := 1000.
Definition msPerMinute : Z := 60000.
Definition msPerHour : Z := 3600000.
Definition msPerDay : Z := 86400000.

Definition Day (t : Z) : Z := t / msPerDay.
Definition TimeWithinDay (t : Z) : Z := t mod msPerDay.
Definition HourFromTime (t : Z) : Z := (t / msPerHour) mod 24.
Definition MinFromTime (t : Z) : Z := (t / msPerMinute) mod 60.
Definition SecFromTime (t : Z) : Z := (t / msPerSecond) mod 60.
Definition msFromTime (t : Z) : Z := t mod msPerSecond.

(** ToIntegerOrInfinity of an argument of [MakeTime], which answers NaN
    when an argument is not finite. *)
Definition integral (n : number) : option Z :=
  match n with
  | Fin q => Some (Z.quot (Qnum q) (Zpos (Qden q)))
  | _ => None
  end.

Definition MakeTime (hour min sec ms : Z) : Z :=
  hour * msPerHour + min * msPerMinute + sec * msPerSecond + ms.

Definition MakeDate (day time : Z) : Z := day * msPerDay + time.

Definition TimeClipped (t : Z) : Date :=
  if Z.abs t <=? 8640000000000000 then Some t else None.

(** [d.getTime()] *)
Definition getTime (d : Date) : number :=
  match d with
  | Some t => Fin (inject_Z t)
  | None => NaN
  end.

(** [a < b] on two dates, which compares their time values. *)
Definition Date_lt (a b : Date) : bool := num_lt (getTime a) (getTime b).

(** [a >= b] on two dates. *)
Definition Date_ge (a b : Date) : bool :=
  match a, b with
  | Some x, Some y => y <=? x
  | _, _ => false
  end.

(** [const [a, b] = s.split(":").map(Number)]: a missing element reads as
    undefined. *)
Definition hour_minute (s : string) : value * value :=
  let parts := map (fun w => JNum (StringToNumber w)) (split ":" s) in
  (nth 0 parts JUndefined, nth 1 parts JUndefined).

Section AutoLoadWindow.
Variable Settings : SettingsMgr.t.
(** The offset of local time from UTC in milliseconds, taken to be the same
    on the days the function touches. *)
Variable LocalTZA : Z.

Definition LocalTime (t : Z) : Z := t + LocalTZA.
Definition UTC (t : Z) : Z := t - LocalTZA.

(** [d.setHours(hour)] *)
Definition setHours (hour : value) (d : Date) : Date :=
  match d, integral (ToNumber hour) with
  | Some t, Some h =>
      let t := LocalTime t in
      TimeClipped
        (UTC (MakeDate (Day t)
                (MakeTime h (MinFromTime t) (SecFromTime t) (msFromTime t))))
  | _, _ => None
  end.

(** [d.setMinutes(min)] *)
Definition setMinutes (min : value) (d : Date) : Date :=
  match d, integral (ToNumber min) with
  | Some t, Some m =>
      let t := LocalTime t in
      TimeClipped
        (UTC (MakeDate (Day t)
                (MakeTime (HourFromTime t) m (SecFromTime t) (msFromTime t))))
  | _, _ => None
  end.

(** [d.setSeconds(sec)] *)
Definition setSeconds (sec : value) (d : Date) : Date :=
  match d, integral (ToNumber sec) with
  | Some t, Some s =>
      let t := LocalTime t in
      TimeClipped
        (UTC (MakeDate (Day t)
                (MakeTime (HourFromTime t) (MinFromTime t) s (msFromTime t))))
  | _, _ => None
  end.

(** [d.setDate(d.getDate() + k)]: the day of the month moved by [k] is the
    day number moved by [k], the time within the day is kept. *)
Definition moveDate (k : Z) (d : Date) : Date :=
  match d with
  | Some t =>
      let t := LocalTime t in
      TimeClipped (UTC (MakeDate (Day t + k) (TimeWithinDay t)))
  | None => None
  end.

(** [isTimeWithinRange()].  The three arguments are what the clock reads at
    the three [new Date()]; a setting that is not a string has no [split]
    and the call throws. *)
Definition isTimeWithinRange (clock_now clock_start clock_end : Z)
  : ItemsMgr.result bool :=
  let now : Date := Some clock_now in
  let start : Date := Some clock_start in
  match SettingsMgr.get Settings "notification.autoload.hourStart" true with
  | JStr startTime =>
      let '(startHour, startMinute) := hour_minute startTime in
      let startHour :=
        if less startHour (num 0) || greater startHour (num 24)
        then num 3 else startHour in
      let startMinute :=
        if less startMinute (num 0) || greater startMinute (num 59)
        then num 0 else startMinute in
      let start :=
        setSeconds (num 0) (setMinutes startMinute (setHours startHour start))
      in
      let end_ : Date := Some clock_end in
      match SettingsMgr.get Settings "notification.autoload.hourEnd" true with
      | JStr endTime =>
          let '(endHour, endMinute) := hour_minute endTime in
          let endHour :=
            if less endHour (num 0) || greater endHour (num 24)
            then num 17 else endHour in
          let endMinute :=
            if less endMinute (num 0) || greater endMinute (num 59)
            then num 0 else endMinute in
          let end_ :=
            setSeconds (num 0) (setMinutes endMinute (setHours endHour end_))
          in
          let hoursBetween := num_sub (getTime end_) (getTime start) in
          let hours :=
            num_abs (num_div hoursBetween (Fin (inject_Z (1000 * 60 * 60))))
          in
          let '(start, end_) :=
            if num_lt hours (Fin (inject_Z 8))
            then (setHours (num 3) start, setHours (num 17) end_)
            else (start, end_) in
          let '(start, end_) :=
            if Date_lt end_ start then
              if Date_lt now end_ then (moveDate (-1) start, end_)
              else if Date_ge now start then (start, moveDate 1 end_)
              else (start, end_)
            else (start, end_) in
          if Date_lt now start || Date_lt end_ now
          then ItemsMgr.Return false
          else ItemsMgr.Return true
      | _ => ItemsMgr.Throw "TypeError"
      end
  | _ => ItemsMgr.Throw "TypeError"
  end.
End AutoLoadWindow.

Local Close Scope Z_scope.

End ServiceWorker.

(* ===================================================================== *)
(** ** Vocabulary of the statements *)
(* ===================================================================== *)

Import JS.

(** The comparator [cmp] orders the elements of [l] by the rational key
    [f]: it is positive exactly when the first argument has the larger
    key. *)
Definition ranks_by {A : Type} (cmp : A -> A -> number) (f : A -> Q)
    (l : list A) : Prop :=
  forall x y, In x l -> In y l -> num_pos (cmp x y) = Qltb (f y) (f x).

Definition keys {V : Type} (m : list (string * V)) : list string := map fst m.

Import ItemsMgr.

(** The keys of the [items] map are distinct, as in any [Map]. *)
Definition wf (m : ItemsMgr) : Prop := List.NoDup (keys (items m)).

(** The [data] object of the record kept under [asin]. *)
Definition record (asin : string) (m : ItemsMgr)
  : option (gmap string value) :=
  data <$> Map_get asin (items m).

(** An item as [sortItems] rebuilds it. *)
Definition rebuilt (it : Item) : Item :=
  {| data := data it; element := element it; tile := None |}.

(** What [addItemData] keeps for a field holding [v]: the empty string
    becomes null on the two ETV bounds, any other value stays. *)
Definition stored (k : string) (v : value) : value :=
  if (String.eqb k "etv_min" || String.eqb k "etv_max")
     && strict_eq v (JStr "")
  then JNull else v.

(** A bound that is not known yet: null, or absent from the record. *)
Definition unset (v : value) : bool :=
  match v with
  | JNull | JUndefined => true
  | _ => false
  end.

(** The narrowing rule as the specification words it: the bound becomes the
    observed value when it is not known yet or when the observed value lies
    beyond it, and stays otherwise. *)
Definition spec_narrow_min (current observed : value) : value :=
  if unset current || less observed current then observed else current.

Definition spec_narrow_max (current observed : value) : value :=
  if unset current || greater observed current then observed else current.

(** A bound on which [!bound] and "not known yet" agree. *)
Definition unset_or_truthy (v : value) : Prop :=
  unset v = true \/ ToBoolean v = true.

(** The observations of a list applied one after the other. *)
Definition observe (s : SettingsMgr.t) (asin : string) (obs : list value)
    (m : ItemsMgr) : ItemsMgr :=
  fold_left (fun m etv => fst (updateItemETV s asin etv m)) obs m.

(** Settings that only choose the sort order, and a catalog built from
    data objects whose elements are not stored yet. *)
Definition settings_sorted_by (t : string) : SettingsMgr.t :=
  {| SettingsMgr.settings :=
       {[ "notification" :=
            SettingsMgr.Object
              {[ "monitor" :=
                   SettingsMgr.Object
                     {[ "sortType" := SettingsMgr.Primitive (JStr t) ]} ]} ]};
     SettingsMgr.defaultSettings := ∅ |}.

Definition catalog_of (l : list (string * gmap string value)) : ItemsMgr :=
  {| imageUrls := [];
     items := map (fun kd => (fst kd,
                     {| data := snd kd; element := None; tile := None |})) l |}.

Definition bounds (lo hi : value) : gmap string value :=
  {[ "etv_min" := lo; "etv_max" := hi ]}.

(** The invariant on a record: two finite bounds are in order. *)
Definition etv_ordered (d : gmap string value) : Prop :=
  forall a b,
    prop d "etv_min" = JNum (Fin a) -> prop d "etv_max" = JNum (Fin b) ->
    (a <= b)%Q.

Definition bounds_ordered (m : ItemsMgr) : Prop :=
  Forall (fun kv => etv_ordered (data (snd kv))) (items m).

Import ServiceWorker.

(** The events of a list given to [dataBuffering] one after the other. *)
Definition feed (events : list (gmap string value)) : Step :=
  fold_right (fun e k => dataBuffering e ;;; k) skip events.

(** The worker right after a bulk snapshot was requested. *)
Definition buffering : State := set_buffer true [] initial.

Definition is_sentinel (e : gmap string value) : bool :=
  loose_eq (prop e "type") (JStr "fetchRecentItemsEnd").

(** The transport-level connection attempts among the outside calls. *)
Definition attempts (out : list Effect) : nat :=
  length (List.filter
            (fun e => match e with IoConnect _ => true | _ => false end) out).

Definition event (asin : string) : gmap string value :=
  {[ "type" := JStr "newItem"; "asin" := JStr asin ]}.

(** The price [sortItems] reads off a record, [sentinel] standing in for a
    falsy [etv_min]. *)
Definition price (sentinel : Z) (d : gmap string value) : number :=
  parseFloat (logical_or (prop d "etv_min") (num sentinel)).

Definition finite (n : number) : Q :=
  match n with Fin q => q | _ => 0%Q end.

(** A nullable numeric bound: null, undefined or a finite number. *)
Definition numeric_or_null (v : value) : Prop :=
  v = JNull \/ v = JUndefined \/ exists q, v = JNum (Fin q).

Definition priced (m : ItemsMgr) : Prop :=
  Forall (fun kv => numeric_or_null (prop (data (snd kv)) "etv_min")) (items m).

(** [A] comes after [B] in the iteration order of the catalog. *)
Definition below (m : ItemsMgr) (A B : string) : Prop :=
  exists i j, Map_index B (items m) = Some i
              /\ Map_index A (items m) = Some j /\ (i < j)%nat.

Definition sorted_by (s : SettingsMgr.t) (t : string) : Prop :=
  SettingsMgr.get s "notification.monitor.sortType" true = JStr t.

(** The time value [processLast100Items] sorts a product by. *)
Definition date_of (Date_parse : string -> number) (p : gmap string value)
  : number :=
  new_Date Date_parse (prop p "date").

Definition valid_dates (Date_parse : string -> number)
    (l : list (gmap string value)) : Prop :=
  Forall (fun p => exists q, date_of Date_parse p = Fin q) l.

(** The loop passes over a product: its image url or its title is loosely
    equal to the empty string. *)
Definition skipped (p : gmap string value) : bool :=
  loose_eq (prop p "img_url") (JStr "") || loose_eq (prop p "title") (JStr "").

(** [p1] is not dated after [p2]. *)
Definition not_later (Date_parse : string -> number)
    (p1 p2 : gmap string value) : Prop :=
  num_lt (date_of Date_parse p2) (date_of Date_parse p1) = false.

Definition product (asin title img : string) (date : Z) : gmap string value :=
  {[ "asin" := JStr asin; "title" := JStr title; "img_url" := JStr img;
     "date" := num date ]}.

(** A product that carries no date. *)
Definition undated (asin title img : string) : gmap string value :=
  {[ "asin" := JStr asin; "title" := JStr title; "img_url" := JStr img ]}.

(** The fields that a replayed event takes over from its product. *)
Definition copied_fields : list string :=
  ["date"; "date_added"; "asin"; "title"; "img_url"; "etv_min"; "etv_max";
   "queue"; "tier"; "is_parent_asin"; "is_pre_release"; "enrollment_guid";
   "unavailable"; "variants"].

(** The stream input [e] is the newItem event of the product [p]. *)
Definition event_of (Settings : SettingsMgr.t) (e p : gmap string value)
  : Prop :=
  prop e "type" = JStr "newItem"
  /\ prop e "reason" = JStr "Fetch latest new items"
  /\ prop e "domain" = SettingsMgr.get Settings "general.country" true
  /\ Forall (fun k => prop e k = prop p k) copied_fields.

(** The objects given to the stream, in order. *)
Definition stream_inputs (out : list Effect) : list (gmap string value) :=
  flat_map (fun e => match e with StreamInput o => [o] | _ => [] end) out.

(** The replay goes from the oldest to the newest: no stream input is dated
    after one that follows it. *)
Definition oldest_first (Date_parse : string -> number) (out : list Effect)
  : Prop :=
  StronglySorted (not_later Date_parse) (stream_inputs out).

(** *** Further vocabulary: the catalog *)

(** The number the date sorts read off a record. *)
Definition date_number (d : gmap string value) : number :=
  ToNumber (prop d "date").

(** Every record has a date that reads as a finite number. *)
Definition dated (m : ItemsMgr) : Prop :=
  Forall (fun kv => exists q, date_number (data (snd kv)) = Fin q) (items m).

(** The data objects of the catalog, in iteration order. *)
Definition order_of (m : ItemsMgr) : list (gmap string value) :=
  map (fun kv => data (snd kv)) (items m).

(** The asins of the catalog, in iteration order. *)
Definition asins (m : ItemsMgr) : list string := keys (items m).

(** The record of [asin] carries the unavailable flag. *)
Definition flagged (asin : string) (m : ItemsMgr) : Prop :=
  exists d, record asin m = Some d /\ d !! "unavailable" = Some (JBool true).

(** The sort type is none of the three that [sortItems] tests for. *)
Definition sorted_by_default (s : SettingsMgr.t) : Prop :=
  let t := SettingsMgr.get s "notification.monitor.sortType" true in
  strict_eq t (JStr TYPE_DATE_ASC) = false
  /\ strict_eq t (JStr TYPE_DATE_DESC) = false
  /\ strict_eq t (JStr TYPE_PRICE_ASC) = false.

(** Whether [addItemData] records the image url of [itemData]. *)
Definition records_image (s : SettingsMgr.t) (itemData : gmap string value)
  : bool :=
  ToBoolean (prop itemData "img_url")
  && ToBoolean (SettingsMgr.get s
                  "notification.monitor.hideDuplicateThumbnail" true).

(** A data object with a date and the two bounds, and a small catalog. *)
Definition listing (date : Z) (lo hi : value) : gmap string value :=
  {[ "date" := num date; "etv_min" := lo; "etv_max" := hi ]}.

Definition sample : ItemsMgr :=
  catalog_of [("B01", listing 300 (num 12) (num 30));
              ("B02", listing 100 JNull JNull);
              ("B03", listing 200 (num 5) (num 5))].

(** *** Further vocabulary: the service worker *)

(** An event as [dataBuffering] forwards it when it is not buffering. *)
Definition forwarded (e : gmap string value) : Effect :=
  SendMessageToAllTabs (Obj e).

(** Every pending timer is the one [displayTimer] or [reloadTimer] names. *)
Definition tracked (st : State) : Prop :=
  forall t, In t (timers st) ->
            displayTimer st = Some (fst t) \/ reloadTimer st = Some (fst t).

(** The pending timers whose callback arms the reload timer again. *)
Definition rearming (st : State) : list (nat * (Z * Callback)) :=
  List.filter (fun t => match snd (snd t) with
                        | DisplayLog _ => false
                        | _ => true
                        end) (timers st).

(** The condition under which [setReloadTimer] asks the server. *)
Definition may_ask (Settings : SettingsMgr.t) (chrome_windows : bool)
    (st : State) : bool :=
  socket_connected st
  && ToBoolean (countryCode st)
  && logical_not (SettingsMgr.get Settings "thorvarium.mobileandroid" true)
  && logical_not (SettingsMgr.get Settings "thorvarium.mobileios" true)
  && chrome_windows.

(** Settings with notifications switched on. *)
Definition notifying : SettingsMgr.t :=
  {| SettingsMgr.settings :=
       {[ "notification" :=
            SettingsMgr.Object
              {[ "active" := SettingsMgr.Primitive (JBool true) ]} ]};
     SettingsMgr.defaultSettings := ∅ |}.

(** A value loosely equal to the empty string. *)
Definition loosely_empty (v : value) : Prop :=
  v = JStr "" \/ v = JBool false \/ exists q, v = JNum (Fin q) /\ (q == 0)%Q.

(** What the first two statements of [setReloadTimer] leave. *)
Definition timers_cleared (st : State) : State :=
  let st1 := match displayTimer st with
             | Some id => set_displayTimer None (clearTimeout id st)
             | None => st
             end in
  match reloadTimer st1 with
  | Some id => set_reloadTimer None (clearTimeout id st1)
  | None => st1
  end.

(** The timers [setReloadTimer] installs, [n] being the next timer id:
    inside the window the log line and the next reload, outside it the
    quarter-hour wait. *)
Definition installed (inRange : bool) (timer : Z) (n : nat)
  : list (nat * (Z * Callback)) :=
  if inRange
  then [(n, (500%Z, DisplayLog timer)); (S n, (timer, NextReload))]
  else [(n, (900000%Z, CooldownOver))].

(** The message types [processBroadcastMessage] reacts to. *)
Definition handled_types : list string :=
  ["ping"; "fetchLatestItems"; "setCountryCode"; "wsStatus"; "closeARTab";
   "dogpage"; "captchapage"; "loginpage"].

Definition sentinel : gmap string value := typed "fetchRecentItemsEnd".

(** *** Further vocabulary: the auto-load window *)

(** The setting [v] is a string that reads as the clock time [h]:[m], an
    hour and a minute of the day. *)
Definition reads (v : value) (h m : Z) : Prop :=
  exists s qh qm,
    v = JStr s
    /\ hour_minute s = (JNum (Fin qh), JNum (Fin qm))
    /\ (qh == inject_Z h)%Q /\ (qm == inject_Z m)%Q
    /\ (0 <= h <= 23)%Z /\ (0 <= m <= 59)%Z.

(** The setting [v] is a string whose hour or minute is not a number. *)
Definition unreadable (v : value) : Prop :=
  exists s,
    v = JStr s
    /\ (ToNumber (fst (hour_minute s)) = NaN
        \/ ToNumber (snd (hour_minute s)) = NaN).

(** Milliseconds from midnight to the clock time [h]:[m]. *)
Definition clock (h m : Z) : Z := MakeTime h m 0 0.

(** The instant of the local day of [t] that lies [c] milliseconds after
    midnight, with the milliseconds of [t]. *)
Definition instant (LocalTZA t c : Z) : Z :=
  UTC LocalTZA
    (MakeDate (Day (LocalTime LocalTZA t))
       (c + msFromTime (LocalTime LocalTZA t))).

(** The local time of day at the instant [t], in milliseconds from midnight
    and cut to the whole second. *)
Definition second_of_day (LocalTZA t : Z) : Z :=
  (TimeWithinDay (LocalTime LocalTZA t) / msPerSecond * msPerSecond)%Z.

(** A clock within a quarter of a million years of 1970, in a zone at most
    a day away from UTC. *)
Definition ordinary (LocalTZA t : Z) : Prop :=
  (Z.abs LocalTZA <= msPerDay /\ Z.abs t <= 8000000000000000)%Z.

(** [isTimeWithinRange()] when its three readings of the clock agree. *)
Definition within_range (Settings : SettingsMgr.t) (LocalTZA t : Z)
  : result bool :=
  isTimeWithinRange Settings LocalTZA t t t.

(** Settings with the given auto-load window. *)
Definition autoload_window (hourStart hourEnd : string) : SettingsMgr.t :=
  {| SettingsMgr.settings :=
       {[ "notification" :=
            SettingsMgr.Object
              {[ "autoload" :=
                   SettingsMgr.Object
                     {[ "hourStart" := SettingsMgr.Primitive (JStr hourStart);
                        "hourEnd" := SettingsMgr.Primitive (JStr hourEnd)
                     ]} ]} ]};
     SettingsMgr.defaultSettings := ∅ |}.

(** Noon and some seconds, on a day of 2024. *)
Definition noon : Z := (19800 * msPerDay + 12 * msPerHour + 34567)%Z.

(* ===================================================================== *)
(** ** Facts about the operators *)
(* ===================================================================== *)

Section MapFacts.
Context {V : Type}.
Implicit Types (m : list (string * V)) (k : string) (v : V).

Lemma Map_get_set_eq k v m : Map_get k (Map_set k v m) = Some v.
Proof.
  induction m as [|[k' v'] r IH]; simpl.
  - now rewrite String.eqb_refl.
  - destruct (String.eqb_spec k k') as [->|Hne]; simpl.
    + now rewrite String.eqb_refl.
    + destruct (String.eqb_spec k k'); [contradiction | exact IH].
Qed.

Lemma Map_get_set_ne k k' v m :
  k ≠ k' -> Map_get k' (Map_set k v m) = Map_get k' m.
Proof.
  intros Hne. induction m as [|[k0 v0] r IH]; simpl.
  - destruct (String.eqb_spec k' k); [congruence | reflexivity].
  - destruct (String.eqb_spec k k0) as [->|Hk]; simpl.
    + destruct (String.eqb_spec k' k0); [congruence | reflexivity].
    + destruct (String.eqb_spec k' k0); [reflexivity | exact IH].
Qed.

Lemma Map_get_In k v m : Map_get k m = Some v -> In (k, v) m.
Proof.
  induction m as [|[k' v'] r IH]; simpl; [discriminate|].
  destruct (String.eqb_spec k k') as [->|Hne].
  - intros [= ->]. now left.
  - intros H. right. now apply IH.
Qed.

Lemma Map_get_None k m : Map_get k m = None -> ~ In k (map fst m).
Proof.
  induction m as [|[k' v'] r IH]; simpl; [tauto|].
  destruct (String.eqb_spec k k') as [->|Hne]; [discriminate|].
  intros H [Heq|Hin]; [congruence | now apply IH].
Qed.

Lemma In_Map_get k v m :
  List.NoDup (map fst m) -> In (k, v) m -> Map_get k m = Some v.
Proof.
  induction m as [|[k' v'] r IH]; simpl; [tauto|].
  intros Hnd [Heq|Hin].
  - injection Heq as -> ->. now rewrite String.eqb_refl.
  - apply List.NoDup_cons_iff in Hnd as [Hk Hnd].
    destruct (String.eqb_spec k k') as [->|Hne].
    + exfalso. apply Hk. change k' with (fst (k', v)). now apply in_map.
    + now apply IH.
Qed.

(** A [Map] that holds the same entries in another order answers [get]
    alike. *)
Lemma Map_get_Permutation k m m' :
  List.NoDup (map fst m) -> Permutation m m' -> Map_get k m = Map_get k m'.
Proof.
  intros Hnd Hp.
  assert (Hnd' : List.NoDup (map fst m')).
  { eapply Permutation_NoDup; [|exact Hnd]. now apply Permutation_map. }
  destruct (Map_get k m) as [v|] eqn:E.
  - symmetry. apply In_Map_get; [exact Hnd'|].
    eapply Permutation_in; [exact Hp|]. now apply Map_get_In.
  - destruct (Map_get k m') as [v'|] eqn:E'; [|reflexivity].
    exfalso. apply (Map_get_None _ _ E).
    change k with (fst (k, v')). apply in_map.
    eapply Permutation_in; [symmetry; exact Hp|]. now apply Map_get_In.
Qed.

Lemma Map_set_keys_present k v m :
  Map_has k m = true -> map fst (Map_set k v m) = map fst m.
Proof.
  unfold Map_has. induction m as [|[k' v'] r IH]; simpl; [discriminate|].
  destruct (String.eqb_spec k k') as [->|Hne]; simpl; [reflexivity|].
  intros H. f_equal. now apply IH.
Qed.

Lemma Map_set_keys_absent k v m :
  Map_has k m = false -> map fst (Map_set k v m) = map fst m ++ [k].
Proof.
  unfold Map_has. induction m as [|[k' v'] r IH]; simpl; [reflexivity|].
  destruct (String.eqb_spec k k') as [->|Hne]; simpl; [discriminate|].
  intros H. f_equal. now apply IH.
Qed.

Lemma Map_set_NoDup k v m :
  List.NoDup (map fst m) -> List.NoDup (map fst (Map_set k v m)).
Proof.
  intros Hnd. destruct (Map_has k m) eqn:E.
  - now rewrite Map_set_keys_present.
  - rewrite Map_set_keys_absent by exact E.
    apply List.NoDup_app; [exact Hnd|repeat constructor; simpl; tauto|].
    intros x Hx [<-|[]].
    unfold Map_has in E. destruct (Map_get k m) eqn:G; [discriminate|].
    now apply (Map_get_None _ _ G).
Qed.

(** Entries of a map after [set]. *)
Lemma Map_set_In k v m k' v' :
  In (k', v') (Map_set k v m) -> (k' = k /\ v' = v) \/ In (k', v') m.
Proof.
  induction m as [|[k0 v0] r IH]; simpl.
  - intros [[= <- <-]|[]]. now left.
  - destruct (String.eqb_spec k k0) as [->|Hne]; simpl.
    + intros [[= <- <-]|H]; [now left | right; now right].
    + intros [H|H]; [right; now left|].
      destruct (IH H) as [?|?]; [now left | right; now right].
Qed.
End MapFacts.

Section MapIndexFacts.
Context {V : Type}.
Implicit Types (m : list (string * V)) (k : string).

Lemma Map_index_app_r k m1 m2 :
  ~ In k (keys m1) ->
  Map_index k (m1 ++ m2) = (fun i => length m1 + i)%nat <$> Map_index k m2.
Proof.
  induction m1 as [|[k' v'] r IH]; simpl; intros Hk.
  - now destruct (Map_index k m2).
  - destruct (String.eqb_spec k k') as [->|Hne]; [tauto|].
    rewrite IH by tauto. now destruct (Map_index k m2).
Qed.

Lemma Map_index_In k m : In k (keys m) -> exists i, Map_index k m = Some i.
Proof.
  induction m as [|[k' v'] r IH]; simpl; [tauto|].
  destruct (String.eqb_spec k k') as [->|Hne]; [eauto|].
  intros [H|H]; [congruence|].
  destruct (IH H) as [i ->]. simpl. eauto.
Qed.

(** In a map with distinct keys, an entry found after another one has the
    larger index. *)
Lemma Map_index_before kA kB (vA vB : V) m1 m2 :
  List.NoDup (keys (m1 ++ (kB, vB) :: m2)) ->
  In (kA, vA) m2 ->
  exists i j,
    Map_index kB (m1 ++ (kB, vB) :: m2) = Some i
    /\ Map_index kA (m1 ++ (kB, vB) :: m2) = Some j
    /\ (i < j)%nat.
Proof.
  unfold keys. rewrite map_app. simpl. intros Hnd HA.
  assert (HkA : In kA (map fst m2)).
  { change kA with (fst (kA, vA)). now apply in_map. }
  pose proof (NoDup_remove_2 _ _ _ Hnd) as HB.
  apply NoDup_remove_1 in Hnd as Hnd'.
  assert (HB1 : ~ In kB (keys m1)).
  { intros H. apply HB. apply in_or_app. now left. }
  assert (HB2 : ~ In kB (map fst m2)).
  { intros H. apply HB. apply in_or_app. now right. }
  assert (HA1 : ~ In kA (keys m1)).
  { intros H. apply List.NoDup_app_remove_r in Hnd as Hl.
    clear -Hnd' H HkA. unfold keys in H.
    induction (map fst m1) as [|x l IH]; simpl in *; [tauto|].
    apply List.NoDup_cons_iff in Hnd' as [Hx Hnd'].
    destruct H as [->|H]; [|now apply IH].
    apply Hx. apply in_or_app. now right. }
  assert (Hne : kA <> kB) by (intros ->; tauto).
  destruct (Map_index_In kA m2 HkA) as [j Hj].
  exists (length m1 + 0)%nat, (length m1 + S j)%nat.
  rewrite !Map_index_app_r by assumption. simpl.
  rewrite String.eqb_refl.
  destruct (String.eqb_spec kA kB); [contradiction|].
  rewrite Hj. simpl. repeat split. lia.
Qed.
End MapIndexFacts.

Section SortFacts.
Context {A : Type} (cmp : A -> A -> number).

Lemma sort_insert_Permutation x l : Permutation (sort_insert cmp x l) (x :: l).
Proof.
  induction l as [|y r IH]; simpl; [reflexivity|].
  destruct (num_pos (cmp x y)); [|reflexivity].
  rewrite IH. apply perm_swap.
Qed.

Lemma Array_sort_Permutation l : Permutation (Array_sort cmp l) l.
Proof.
  induction l as [|x r IH]; simpl; [reflexivity|].
  rewrite sort_insert_Permutation. now apply perm_skip.
Qed.

Lemma Array_sort_In x l : In x (Array_sort cmp l) <-> In x l.
Proof.
  split; apply Permutation_in;
    [|symmetry]; apply Array_sort_Permutation.
Qed.

Variable f : A -> Q.

Lemma Qltb_lt a b : Qltb a b = true <-> (a < b)%Q.
Proof.
  unfold Qltb. rewrite Qlt_alt. destruct (a ?= b)%Q; split; congruence.
Qed.

Lemma Qltb_ge a b : Qltb a b = false <-> (b <= a)%Q.
Proof.
  rewrite <- Bool.not_true_iff_false, Qltb_lt. split.
  - apply Qnot_lt_le.
  - apply Qle_not_lt.
Qed.

Lemma sort_insert_sorted x l :
  ranks_by cmp f (x :: l) ->
  StronglySorted (fun a b => (f a <= f b)%Q) l ->
  StronglySorted (fun a b => (f a <= f b)%Q) (sort_insert cmp x l).
Proof.
  intros Hr Hs. induction Hs as [|y r Hs IH Hy]; simpl.
  - repeat constructor.
  - rewrite (Hr x y) by (simpl; tauto).
    destruct (Qltb (f y) (f x)) eqn:E.
    + apply Qltb_lt in E. constructor.
      * apply IH. intros a b Ha Hb. apply Hr; simpl in *; tauto.
      * apply List.Forall_forall. intros z Hz.
        apply (Permutation_in _ (sort_insert_Permutation x r)) in Hz.
        destruct Hz as [<-|Hz]; [now apply Qlt_le_weak|].
        rewrite List.Forall_forall in Hy. now apply Hy.
    + apply Qltb_ge in E. constructor; [now constructor|].
      constructor; [exact E|].
      rewrite List.Forall_forall in Hy |- *. intros z Hz.
      eapply Qle_trans; [exact E | now apply Hy].
Qed.

(** With a consistent comparator the result is in ascending key order. *)
Lemma Array_sort_sorted l :
  ranks_by cmp f l ->
  StronglySorted (fun a b => (f a <= f b)%Q) (Array_sort cmp l).
Proof.
  induction l as [|x r IH]; simpl; intros Hr; [constructor|].
  apply sort_insert_sorted.
  - intros a b Ha Hb. apply Hr; simpl in *;
      rewrite ?Array_sort_In in *; tauto.
  - apply IH. intros a b Ha Hb. apply Hr; simpl; tauto.
Qed.

End SortFacts.

(** In a list in ascending key order, an element with a strictly larger
    key comes later. *)
Lemma sorted_split_later {A : Type} (f : A -> Q) (l : list A) (x y : A) :
  StronglySorted (fun a b => (f a <= f b)%Q) l ->
  In x l -> In y l -> (f y < f x)%Q ->
  exists l1 l2, l = l1 ++ y :: l2 /\ In x l2.
Proof.
  intros Hs Hx Hy Hlt.
  destruct (in_split _ _ Hy) as (l1 & l2 & ->).
  exists l1, l2. split; [reflexivity|].
  apply in_app_or in Hx as [Hx|[->|Hx]]; [|lra|exact Hx].
  exfalso. clear Hy. induction l1 as [|z r IH]; simpl in *; [tauto|].
  apply StronglySorted_inv in Hs as [Hs Hz].
  destruct Hx as [->|Hx]; [|now apply IH].
  rewrite List.Forall_forall in Hz.
  assert (Hy : In y (r ++ y :: l2)) by (apply in_or_app; right; now left).
  specialize (Hz y Hy). lra.
Qed.

(* ===================================================================== *)
(** ** Facts about the catalog *)
(* ===================================================================== *)

Section SortItemsFacts.
Variable s : SettingsMgr.t.

Lemma sortItems_items m :
  items (fst (sortItems s m))
  = map ofEntry (Array_sort (compareEntries s) (map toEntry (items m))).
Proof.
  unfold sortItems. destruct (items m) eqn:E; simpl; [exact E|reflexivity].
Qed.

Lemma sortItems_imageUrls m : imageUrls (fst (sortItems s m)) = imageUrls m.
Proof. unfold sortItems. now destruct (items m). Qed.

Lemma sortItems_Permutation m :
  Permutation (items (fst (sortItems s m)))
              (map (fun kv => (fst kv, rebuilt (snd kv))) (items m)).
Proof.
  rewrite sortItems_items, Array_sort_Permutation, map_map.
  apply Permutation_refl.
Qed.

Lemma sortItems_keys m :
  Permutation (keys (items (fst (sortItems s m)))) (keys (items m)).
Proof.
  unfold keys. rewrite sortItems_Permutation, map_map. simpl.
  apply Permutation_refl.
Qed.

Lemma sortItems_wf m : wf m -> wf (fst (sortItems s m)).
Proof.
  unfold wf. intros H.
  eapply Permutation_NoDup; [symmetry; apply sortItems_keys | exact H].
Qed.

Lemma Map_get_rebuilt k (l : list (string * Item)) :
  Map_get k (map (fun kv => (fst kv, rebuilt (snd kv))) l)
  = rebuilt <$> Map_get k l.
Proof.
  induction l as [|[k' v'] r IH]; simpl; [reflexivity|].
  now destruct (String.eqb k k').
Qed.

Lemma sortItems_get k m :
  wf m ->
  Map_get k (items (fst (sortItems s m))) = rebuilt <$> Map_get k (items m).
Proof.
  intros H. rewrite <- Map_get_rebuilt.
  apply Map_get_Permutation; [now apply sortItems_wf|].
  apply sortItems_Permutation.
Qed.

(** Sorting leaves every record's data as it is. *)
Lemma sortItems_record k m :
  wf m -> record k (fst (sortItems s m)) = record k m.
Proof.
  intros H. unfold record. rewrite sortItems_get by exact H.
  now destruct (Map_get k (items m)).
Qed.
End SortItemsFacts.

Lemma prop_lookup (d : gmap string value) k v : d !! k = Some v -> prop d k = v.
Proof. unfold prop. now intros ->. Qed.

Lemma emptyToNull_lookup k (d : gmap string value) k' :
  emptyToNull k d !! k'
  = if String.eqb k' k && strict_eq (prop d k) (JStr "")
    then Some JNull else d !! k'.
Proof.
  unfold emptyToNull.
  destruct (strict_eq (prop d k) (JStr "")); rewrite ?andb_false_r; [|reflexivity].
  rewrite andb_true_r. destruct (String.eqb_spec k' k) as [->|Hne].
  - apply lookup_insert_eq.
  - now apply lookup_insert_ne.
Qed.

(** The data [addItemData] leaves under [asin]. *)
Lemma normalised_lookup (d : gmap string value) k :
  emptyToNull "etv_max" (emptyToNull "etv_min" d) !! k = stored k <$> d !! k.
Proof.
  rewrite !emptyToNull_lookup. unfold stored, prop.
  rewrite emptyToNull_lookup.
  destruct (String.eqb_spec k "etv_max") as [->|Hmax]; simpl.
  - destruct (d !! "etv_max") as [v|]; simpl; [|reflexivity].
    now destruct (strict_eq v (JStr "")).
  - rewrite orb_false_r.
    destruct (String.eqb_spec k "etv_min") as [->|Hmin]; simpl.
    + destruct (d !! "etv_min") as [v|]; simpl; [|reflexivity].
      now destruct (strict_eq v (JStr "")).
    + now destruct (d !! k).
Qed.

Section CatalogFacts.
Variable s : SettingsMgr.t.

(** The data object [addItemData] builds before it normalises the two
    bounds. *)
Lemma addItemData_get now asin itemData m :
  wf m ->
  Map_get asin (items (fst (addItemData s now asin itemData m)))
  = Some {| data :=
              emptyToNull "etv_max" (emptyToNull "etv_min"
                (match Map_get asin (items m) with
                 | None => <["dateAdded" := JDate now]> itemData
                 | Some existing => itemData ∪ data existing
                 end));
            element :=
              match Map_get asin (items m) with
              | None => None
              | Some existing => element existing
              end;
            tile := None |}
  /\ snd (addItemData s now asin itemData m) = negb (Map_has asin (items m))
  /\ wf (fst (addItemData s now asin itemData m)).
Proof.
  intros Hwf. unfold addItemData, Map_has.
  destruct (Map_get asin (items m)) as [existing|] eqn:E; simpl;
    rewrite Map_get_set_eq; simpl;
    (split; [|split; [reflexivity|]]);
    try (rewrite sortItems_get; simpl;
         [now rewrite Map_get_set_eq|]);
    try apply sortItems_wf;
    unfold wf; simpl; now repeat apply Map_set_NoDup.
Qed.

Lemma addItemData_get_other now asin itemData m k :
  wf m -> k <> asin ->
  Map_get k (items (fst (addItemData s now asin itemData m)))
  = rebuilt <$> Map_get k (items m).
Proof.
  intros Hwf Hne. unfold addItemData.
  destruct (Map_get asin (items m)) as [existing|] eqn:E; simpl;
    rewrite Map_get_set_eq; simpl;
    (rewrite sortItems_get; simpl;
     [now rewrite !Map_get_set_ne by congruence|]);
    unfold wf; simpl; now repeat apply Map_set_NoDup.
Qed.

Lemma updateItemETV_absent asin etv m :
  Map_get asin (items m) = None -> updateItemETV s asin etv m = (m, false).
Proof. unfold updateItemETV. now intros ->. Qed.

Lemma updateItemETV_get asin etv m item :
  wf m ->
  Map_get asin (items m) = Some item ->
  let d := data item in
  let d1 := if logical_not (prop d "etv_min") || less etv (prop d "etv_min")
            then <["etv_min" := etv]> d else d in
  let d2 := if logical_not (prop d1 "etv_max") || greater etv (prop d1 "etv_max")
            then <["etv_max" := etv]> d1 else d1 in
  Map_get asin (items (fst (updateItemETV s asin etv m)))
  = Some {| data := d2; element := element item; tile := None |}
  /\ snd (updateItemETV s asin etv m) = true
  /\ wf (fst (updateItemETV s asin etv m)).
Proof.
  intros Hwf E. unfold updateItemETV. rewrite E. simpl.
  split; [|split; [reflexivity|]].
  - rewrite sortItems_get; simpl; [now rewrite Map_get_set_eq|].
    unfold wf; simpl. now apply Map_set_NoDup.
  - apply sortItems_wf. unfold wf; simpl. now apply Map_set_NoDup.
Qed.

Lemma updateItemETV_get_other asin etv m k :
  wf m -> k <> asin ->
  record k (fst (updateItemETV s asin etv m)) = record k m.
Proof.
  intros Hwf Hne. unfold updateItemETV.
  destruct (Map_get asin (items m)) as [item|] eqn:E; simpl; [|reflexivity].
  rewrite sortItems_record.
  - unfold record. simpl. now rewrite Map_get_set_ne by congruence.
  - unfold wf; simpl. now apply Map_set_NoDup.
Qed.
End CatalogFacts.

(* ===================================================================== *)
(** ** addItemData: merge and normalisation *)
(* ===================================================================== *)

(** C1 (as amended).  On an asin that is already in the catalog,
    [addItemData] reports an update, keeps the stored element, and every
    field present in [itemData] overwrites the old value, [etv_min] and
    [etv_max] included: there is no narrowing.  The one special treatment of
    the two bounds is that an empty string is kept as null.  Fields absent
    from [itemData] keep the old value. *)
Theorem C1_addItemData_overwrites_every_present_field
    (s : SettingsMgr.t) (now : number) (asin : string)
    (itemData : gmap string value) (m : ItemsMgr) (existing : Item) :
  wf m ->
  Map_get asin (items m) = Some existing ->
  snd (addItemData s now asin itemData m) = false
  /\ exists it,
      Map_get asin (items (fst (addItemData s now asin itemData m))) = Some it
      /\ element it = element existing
      /\ (forall k v, itemData !! k = Some v -> data it !! k = Some (stored k v))
      /\ (forall k, itemData !! k = None ->
                    data it !! k = stored k <$> data existing !! k).
Proof.
  intros Hwf E.
  destruct (addItemData_get s now asin itemData m Hwf) as (Hget & Hst & _).
  rewrite E in Hget. unfold Map_has in Hst. rewrite E in Hst.
  split; [exact Hst|].
  eexists. split; [exact Hget|]. simpl. split; [reflexivity|].
  split; intros k; [intros v Hk | intros Hk];
    rewrite normalised_lookup.
  - now rewrite (lookup_union_Some_l _ _ _ _ Hk).
  - now rewrite (lookup_union_r _ _ _ Hk).
Qed.

Lemma C1_witness :
  let m := catalog_of [("B01", bounds (num 5) (num 10))] in
  let r := addItemData (settings_sorted_by "price_desc") (Fin 0) "B01"
             (bounds (JStr "") (num 8)) m in
  snd r = false
  /\ record "B01" (fst r) = Some (bounds JNull (num 8)).
Proof.
  intros m r.
  assert (Hwf : wf m) by (repeat constructor; simpl; tauto).
  destruct (C1_addItemData_overwrites_every_present_field
              (settings_sorted_by "price_desc") (Fin 0) "B01"
              (bounds (JStr "") (num 8)) m
              {| data := bounds (num 5) (num 10); element := None; tile := None |}
              Hwf eq_refl) as (Hst & it & Hget & _ & Hin & _).
  split; [exact Hst|].
  unfold record, r. rewrite Hget. simpl. f_equal.
  apply map_eq. intros k.
  vm_compute in Hget. injection Hget as <-. reflexivity.
Defined.

(** C1, refuted as stated.  The record holds the bounds 5 and 10 and the
    incoming data carries 7 and 8: the narrowing rule would keep 5 and 10,
    the code stores 7 and 8. *)
Lemma C1_counterexample :
  let m := catalog_of [("B01", bounds (num 5) (num 10))] in
  let r := addItemData (settings_sorted_by "price_desc") (Fin 0) "B01"
             (bounds (num 7) (num 8)) m in
  record "B01" (fst r) = Some (bounds (num 7) (num 8))
  /\ spec_narrow_min (num 5) (num 7) = num 5
  /\ spec_narrow_max (num 10) (num 8) = num 10
  /\ record "B01" (fst r)
     <> Some (bounds (spec_narrow_min (num 5) (num 7))
                     (spec_narrow_max (num 10) (num 8))).
Proof.
  vm_compute. repeat split; try reflexivity. discriminate.
Qed.

(** C5.  For a fresh asin, [addItemData] with [etv_min = ""] and
    [etv_max = ""] creates a record whose two bounds are null, and
    [updateItemETV] with the value 5 then leaves both bounds at 5. *)
Theorem C5_empty_string_bounds_then_first_value
    (s : SettingsMgr.t) (now : number) (X : string)
    (itemData : gmap string value) (m : ItemsMgr) :
  wf m ->
  Map_has X (items m) = false ->
  itemData !! "etv_min" = Some (JStr "") ->
  itemData !! "etv_max" = Some (JStr "") ->
  let m1 := fst (addItemData s now X itemData m) in
  let m2 := fst (updateItemETV s X (num 5) m1) in
  snd (addItemData s now X itemData m) = true
  /\ (exists d, record X m1 = Some d
                /\ d !! "etv_min" = Some JNull /\ d !! "etv_max" = Some JNull)
  /\ snd (updateItemETV s X (num 5) m1) = true
  /\ (exists d, record X m2 = Some d
                /\ d !! "etv_min" = Some (num 5)
                /\ d !! "etv_max" = Some (num 5)).
Proof.
  intros Hwf Hfresh Hmin Hmax m1 m2.
  destruct (addItemData_get s now X itemData m Hwf) as (Hget & Hst & Hwf1).
  rewrite Hfresh in Hst.
  unfold Map_has in Hfresh.
  destruct (Map_get X (items m)) eqn:E; [discriminate|].
  fold m1 in Hget, Hwf1.
  set (d := emptyToNull "etv_max" (emptyToNull "etv_min"
              (<["dateAdded" := JDate now]> itemData))) in *.
  assert (Hdmin : d !! "etv_min" = Some JNull).
  { unfold d. rewrite normalised_lookup, lookup_insert_ne by discriminate.
    now rewrite Hmin. }
  assert (Hdmax : d !! "etv_max" = Some JNull).
  { unfold d. rewrite normalised_lookup, lookup_insert_ne by discriminate.
    now rewrite Hmax. }
  destruct (updateItemETV_get s X (num 5) m1 _ Hwf1 Hget) as (Hget2 & Hst2 & _).
  fold m2 in Hget2. simpl in Hget2.
  rewrite (prop_lookup _ _ _ Hdmin) in Hget2. simpl in Hget2.
  rewrite (prop_lookup (<["etv_min" := num 5]> d) "etv_max" JNull) in Hget2
    by (now rewrite lookup_insert_ne by discriminate).
  simpl in Hget2.
  split; [exact Hst|]. split.
  { exists d. unfold record. now rewrite Hget. }
  split; [exact Hst2|].
  eexists. unfold record. rewrite Hget2. simpl. split; [reflexivity|].
  split.
  - rewrite lookup_insert_ne by discriminate. apply lookup_insert_eq.
  - apply lookup_insert_eq.
Qed.

Lemma C5_witness :
  let m := catalog_of [("B01", bounds (num 5) (num 10))] in
  let itemData := <["title" := JStr "Lamp"]> (bounds (JStr "") (JStr "")) in
  let m1 := fst (addItemData (settings_sorted_by "price_desc") (Fin 0)
                   "B02" itemData m) in
  let m2 := fst (updateItemETV (settings_sorted_by "price_desc") "B02"
                   (num 5) m1) in
  exists d, record "B02" m2 = Some d
            /\ d !! "etv_min" = Some (num 5) /\ d !! "etv_max" = Some (num 5).
Proof.
  intros m itemData m1 m2.
  assert (Hwf : wf m) by (repeat constructor; simpl; tauto).
  exact (proj2 (proj2 (proj2
    (C5_empty_string_bounds_then_first_value
       (settings_sorted_by "price_desc") (Fin 0) "B02" itemData m
       Hwf eq_refl eq_refl eq_refl)))).
Defined.

(* ===================================================================== *)
(** ** updateItemETV: the envelope of the observed values *)
(* ===================================================================== *)

Lemma prop_insert_ne (d : gmap string value) k k' v :
  k <> k' -> prop (<[k := v]> d) k' = prop d k'.
Proof. intros H. unfold prop. now rewrite lookup_insert_ne. Qed.

Lemma prop_insert_eq (d : gmap string value) k v : prop (<[k := v]> d) k = v.
Proof. unfold prop. now rewrite lookup_insert_eq. Qed.

Lemma logical_not_unset v :
  unset_or_truthy v -> logical_not v = unset v.
Proof.
  unfold logical_not. intros [H|H].
  - destruct v; try discriminate H; reflexivity.
  - rewrite H. destruct v; try discriminate H; reflexivity.
Qed.

(** One observation follows the narrowing rule as long as the bounds it
    meets are unset or truthy. *)
Lemma updateItemETV_narrows_truthy_bounds
    (s : SettingsMgr.t) (asin : string) (etv : value) (m : ItemsMgr)
    (d : gmap string value) :
  wf m ->
  record asin m = Some d ->
  unset_or_truthy (prop d "etv_min") ->
  unset_or_truthy (prop d "etv_max") ->
  wf (fst (updateItemETV s asin etv m))
  /\ exists d', record asin (fst (updateItemETV s asin etv m)) = Some d'
    /\ prop d' "etv_min" = spec_narrow_min (prop d "etv_min") etv
    /\ prop d' "etv_max" = spec_narrow_max (prop d "etv_max") etv.
Proof.
  intros Hwf E Hmin Hmax. unfold record in E.
  destruct (Map_get asin (items m)) as [item|] eqn:G; [|discriminate].
  injection E as <-.
  destruct (updateItemETV_get s asin etv m item Hwf G) as (Hget & _ & Hwf').
  split; [exact Hwf'|].
  eexists. unfold record. rewrite Hget. simpl. split; [reflexivity|].
  rewrite (logical_not_unset _ Hmin). fold (spec_narrow_min (prop (data item) "etv_min") etv).
  set (c := unset (prop (data item) "etv_min")
            || less etv (prop (data item) "etv_min")).
  assert (Hmax1 : prop (if c then <["etv_min" := etv]> (data item)
                        else data item) "etv_max"
                  = prop (data item) "etv_max").
  { case c; [|reflexivity]. now rewrite prop_insert_ne by discriminate. }
  rewrite Hmax1, (logical_not_unset _ Hmax).
  unfold spec_narrow_min, spec_narrow_max. fold c.
  set (c' := unset (prop (data item) "etv_max")
             || greater etv (prop (data item) "etv_max")).
  split.
  - case c'; rewrite ?prop_insert_ne by discriminate;
      case c; now rewrite ?prop_insert_eq.
  - case c'; [now rewrite prop_insert_eq | exact Hmax1].
Qed.

Lemma spec_narrow_min_truthy cur etv :
  unset_or_truthy cur -> ToBoolean etv = true ->
  unset_or_truthy (spec_narrow_min cur etv).
Proof.
  intros Hc He. unfold spec_narrow_min.
  destruct (unset cur || less etv cur); [now right | exact Hc].
Qed.

Lemma spec_narrow_max_truthy cur etv :
  unset_or_truthy cur -> ToBoolean etv = true ->
  unset_or_truthy (spec_narrow_max cur etv).
Proof.
  intros Hc He. unfold spec_narrow_max.
  destruct (unset cur || greater etv cur); [now right | exact Hc].
Qed.

(** Any sequence of truthy observations (no 0 among them) on bounds that
    are unset or truthy follows the narrowing rule step by step. *)
Lemma observe_narrows_truthy_values
    (s : SettingsMgr.t) (asin : string) (obs : list value) (m : ItemsMgr)
    (d : gmap string value) :
  wf m ->
  record asin m = Some d ->
  unset_or_truthy (prop d "etv_min") ->
  unset_or_truthy (prop d "etv_max") ->
  Forall (fun etv => ToBoolean etv = true) obs ->
  exists d', record asin (observe s asin obs m) = Some d'
    /\ prop d' "etv_min" = fold_left spec_narrow_min obs (prop d "etv_min")
    /\ prop d' "etv_max" = fold_left spec_narrow_max obs (prop d "etv_max").
Proof.
  intros Hwf E Hmin Hmax Hobs. revert m d Hwf E Hmin Hmax.
  induction Hobs as [|etv r He Hr IH]; intros m d Hwf E Hmin Hmax; simpl.
  - eauto.
  - destruct (updateItemETV_narrows_truthy_bounds s asin etv m d
                Hwf E Hmin Hmax) as (Hwf' & d' & E' & Hmin' & Hmax').
    destruct (IH _ d' Hwf' E') as (d'' & E'' & Hmin'' & Hmax'').
    + rewrite Hmin'. now apply spec_narrow_min_truthy.
    + rewrite Hmax'. now apply spec_narrow_max_truthy.
    + exists d''. now rewrite <- Hmin', <- Hmax'.
Qed.

(** C2, at the input where the code leaves the claim.  A record with no
    bounds receives the observations 0 and 5.  After the first one both
    bounds are 0; the second one replaces the minimum 0 by 5, where the
    minimum of the observed values is 0. *)
Theorem C2_zero_minimum_is_replaced :
  let s := settings_sorted_by "price_desc" in
  let m0 := catalog_of [("B01", bounds JNull JNull)] in
  let m1 := fst (updateItemETV s "B01" (num 0) m0) in
  let m2 := fst (updateItemETV s "B01" (num 5) m1) in
  record "B01" m1 = Some (bounds (num 0) (num 0))
  /\ record "B01" m2 = Some (bounds (num 5) (num 5))
  /\ spec_narrow_min (num 0) (num 5) = num 0.
Proof. vm_compute. repeat split; reflexivity. Qed.

(* ===================================================================== *)
(** ** The order of the two bounds *)
(* ===================================================================== *)

Lemma bounds_ordered_In m :
  bounds_ordered m <-> forall k it, In (k, it) (items m) -> etv_ordered (data it).
Proof.
  unfold bounds_ordered. rewrite List.Forall_forall. split.
  - intros H k it Hin. exact (H (k, it) Hin).
  - intros H [k it] Hin. exact (H k it Hin).
Qed.

Lemma bounds_ordered_sortItems s m :
  bounds_ordered m -> bounds_ordered (fst (sortItems s m)).
Proof.
  rewrite !bounds_ordered_In. intros H k it Hin.
  apply (Permutation_in _ (sortItems_Permutation s m)) in Hin.
  apply in_map_iff in Hin as ([k0 it0] & [= <- <-] & Hin).
  exact (H k0 it0 Hin).
Qed.

Lemma bounds_ordered_set m asin it :
  bounds_ordered m -> etv_ordered (data it) ->
  bounds_ordered (with_items m (Map_set asin it (items m))).
Proof.
  rewrite !bounds_ordered_In. simpl. intros H Hit k it' Hin.
  apply Map_set_In in Hin as [[_ ->]|Hin]; [exact Hit | exact (H k it' Hin)].
Qed.

Lemma bounds_ordered_get m asin it :
  bounds_ordered m -> Map_get asin (items m) = Some it -> etv_ordered (data it).
Proof.
  rewrite bounds_ordered_In. intros H E. apply (H asin). now apply Map_get_In.
Qed.

Lemma etv_ordered_insert_other d k v :
  k <> "etv_min" -> k <> "etv_max" ->
  etv_ordered d -> etv_ordered (<[k := v]> d).
Proof.
  intros H1 H2 H a b. rewrite !prop_insert_ne by assumption. apply H.
Qed.

Lemma etv_ordered_emptyToNull k d : etv_ordered d -> etv_ordered (emptyToNull k d).
Proof.
  intros H a b. unfold prop. rewrite !emptyToNull_lookup.
  destruct (("etv_min" =? k)%string && _); [simpl; intros; discriminate|].
  intros Ha.
  destruct (("etv_max" =? k)%string && _); [simpl; intros; discriminate|].
  intros Hb. now apply H.
Qed.

(** What [updateItemETV] writes is ordered whenever what it found was,
    whatever the observed value. *)
Lemma etv_ordered_updateItemETV d etv :
  etv_ordered d ->
  let d1 := if logical_not (prop d "etv_min") || less etv (prop d "etv_min")
            then <["etv_min" := etv]> d else d in
  let d2 := if logical_not (prop d1 "etv_max") || greater etv (prop d1 "etv_max")
            then <["etv_max" := etv]> d1 else d1 in
  etv_ordered d2.
Proof.
  intros H d1 d2 a b.
  assert (Hmax1 : prop d1 "etv_max" = prop d "etv_max").
  { unfold d1. case (_ || _); [|reflexivity].
    now rewrite prop_insert_ne by discriminate. }
  assert (Hmin1 : prop d1 "etv_min"
                  = if logical_not (prop d "etv_min") || less etv (prop d "etv_min")
                    then etv else prop d "etv_min").
  { unfold d1. case (_ || _); [|reflexivity]. apply prop_insert_eq. }
  assert (Hmin2 : prop d2 "etv_min" = prop d1 "etv_min").
  { unfold d2. case (_ || _); [|reflexivity].
    now rewrite prop_insert_ne by discriminate. }
  assert (Hmax2 : prop d2 "etv_max"
                  = if logical_not (prop d "etv_max") || greater etv (prop d "etv_max")
                    then etv else prop d "etv_max").
  { unfold d2. rewrite Hmax1. case (_ || _); [|exact Hmax1].
    apply prop_insert_eq. }
  rewrite Hmin2, Hmin1, Hmax2. clear Hmin2 Hmin1 Hmax2 Hmax1 d1 d2.
  destruct (logical_not (prop d "etv_min") || less etv (prop d "etv_min")) eqn:Cmin;
    destruct (logical_not (prop d "etv_max") || greater etv (prop d "etv_max")) eqn:Cmax;
    intros Ha Hb.
  - rewrite Ha in Hb. injection Hb as ->. apply Qle_refl.
  - apply orb_false_iff in Cmax as [_ Cmax].
    rewrite Ha, Hb in Cmax. now apply Qltb_ge in Cmax.
  - apply orb_false_iff in Cmin as [_ Cmin].
    rewrite Ha, Hb in Cmin. now apply Qltb_ge in Cmin.
  - now apply H.
Qed.

Lemma Forall_Map_set {V : Type} (P : string * V -> Prop) k v (l : list (string * V)) :
  Forall P l -> P (k, v) -> Forall P (Map_set k v l).
Proof.
  intros Hl Hv. rewrite List.Forall_forall in *. intros [k' v'] Hin.
  apply Map_set_In in Hin as [[-> ->]|Hin]; [exact Hv | now apply Hl].
Qed.

Lemma etv_ordered_union_new itemData now :
  etv_ordered (itemData ∪ ∅) ->
  etv_ordered (<["dateAdded" := JDate now]> itemData).
Proof.
  rewrite (right_id_L ∅ (∪)). now apply etv_ordered_insert_other.
Qed.

(** C6 (as amended).  If every record has its finite bounds in order, it is
    still so after [updateItemETV], [updateItemTier], [markItemUnavailable]
    and [storeItemDOMElement], whatever their arguments.  [addItemData]
    stores the incoming bounds as they are: the order is kept when the
    bounds that the merge leaves on the record are in order. *)
Theorem C6_bounds_stay_ordered (s : SettingsMgr.t) (m : ItemsMgr) :
  bounds_ordered m ->
  (forall asin etv, bounds_ordered (fst (updateItemETV s asin etv m)))
  /\ (forall asin tier, bounds_ordered (fst (updateItemTier s asin tier m)))
  /\ (forall asin, bounds_ordered (markItemUnavailable asin m))
  /\ (forall asin el m' b,
        storeItemDOMElement asin el m = Return (m', b) -> bounds_ordered m')
  /\ (forall now asin itemData,
        etv_ordered (itemData ∪ default ∅ (record asin m)) ->
        bounds_ordered (fst (addItemData s now asin itemData m))).
Proof.
  intros H. repeat split.
  - intros asin etv. unfold updateItemETV.
    destruct (Map_get asin (items m)) as [item|] eqn:E; simpl; [|exact H].
    apply bounds_ordered_sortItems, bounds_ordered_set; [exact H|].
    simpl. apply etv_ordered_updateItemETV.
    exact (bounds_ordered_get _ _ _ H E).
  - intros asin tier. unfold updateItemTier.
    destruct (Map_get asin (items m)) as [item|] eqn:E; simpl; [|exact H].
    apply bounds_ordered_sortItems, bounds_ordered_set; [exact H|].
    simpl. apply etv_ordered_insert_other; try discriminate.
    exact (bounds_ordered_get _ _ _ H E).
  - intros asin. unfold markItemUnavailable.
    destruct (Map_get asin (items m)) as [item|] eqn:E; [|exact H].
    apply bounds_ordered_set; [exact H|].
    simpl. apply etv_ordered_insert_other; try discriminate.
    exact (bounds_ordered_get _ _ _ H E).
  - intros asin el m' b. unfold storeItemDOMElement.
    destruct (Map_get asin (items m)) as [item|] eqn:E; [|discriminate].
    intros [= <- _]. apply bounds_ordered_set; [exact H|].
    exact (bounds_ordered_get _ _ _ H E).
  - intros now asin itemData Hnew. unfold addItemData, record in *.
    destruct (Map_get asin (items m)) as [existing|] eqn:E; simpl in *;
      rewrite Map_get_set_eq; apply bounds_ordered_sortItems;
      unfold bounds_ordered; simpl;
      repeat apply Forall_Map_set; try exact H; simpl;
      repeat apply etv_ordered_emptyToNull;
      try exact Hnew; now apply etv_ordered_union_new.
Qed.

Lemma C6_witness :
  let m := catalog_of [("B01", bounds (num 3) (num 8))] in
  bounds_ordered m
  /\ bounds_ordered
       (fst (updateItemETV (settings_sorted_by "price_desc") "B01" (num 5) m)).
Proof.
  intros m.
  assert (H : bounds_ordered m).
  { repeat constructor. intros a b. vm_compute.
    intros [= <-] [= <-]. discriminate. }
  split; [exact H|].
  exact (proj1 (C6_bounds_stay_ordered (settings_sorted_by "price_desc") m H)
           "B01" (num 5)).
Defined.

(** C6, refuted as stated.  The record holds the bounds 3 and 8; an update
    that carries only [etv_min = 10] leaves it with 10 above 8. *)
Lemma C6_counterexample :
  let m := catalog_of [("B01", bounds (num 3) (num 8))] in
  let r := fst (addItemData (settings_sorted_by "price_desc") (Fin 0) "B01"
                  {[ "etv_min" := num 10 ]} m) in
  bounds_ordered m
  /\ record "B01" r = Some (bounds (num 10) (num 8))
  /\ ~ bounds_ordered r.
Proof.
  intros m r. split; [|split].
  - repeat constructor. intros a b. vm_compute.
    intros [= <-] [= <-]. discriminate.
  - vm_compute. reflexivity.
  - intros H.
    assert (G : Map_get "B01" (items r)
                = Some {| data := bounds (num 10) (num 8);
                          element := None; tile := None |})
      by (vm_compute; reflexivity).
    pose proof (bounds_ordered_get _ _ _ H G 10%Q 8%Q eq_refl eq_refl) as Hle.
    now apply Hle.
Qed.

(* ===================================================================== *)
(** ** Unavailability recorded before the element is stored *)
(* ===================================================================== *)

Lemma Map_set_set {V : Type} k (v v' : V) (l : list (string * V)) :
  Map_set k v (Map_set k v' l) = Map_set k v l.
Proof.
  induction l as [|[k0 v0] r IH]; simpl.
  - now rewrite String.eqb_refl.
  - destruct (String.eqb_spec k k0) as [->|Hne]; simpl.
    + now rewrite String.eqb_refl.
    + destruct (String.eqb_spec k k0); [contradiction|]. now rewrite IH.
Qed.

(** C7 (as amended).  [markItemUnavailable] leaves the catalog as it is
    when the asin is absent: nothing is recorded.  It raises the flag of an
    asin that is present, and doing it twice is the same as doing it once.
    [storeItemDOMElement] called right after it answers [true] exactly when
    the asin was in the catalog, and throws otherwise. *)
Theorem C7_unavailable_before_element (asin : string) (m : ItemsMgr) :
  (Map_has asin (items m) = false -> markItemUnavailable asin m = m)
  /\ markItemUnavailable asin (markItemUnavailable asin m)
     = markItemUnavailable asin m
  /\ (Map_has asin (items m) = true ->
      exists d, record asin (markItemUnavailable asin m) = Some d
                /\ d !! "unavailable" = Some (JBool true))
  /\ (forall el,
        match storeItemDOMElement asin el (markItemUnavailable asin m) with
        | Return (_, wasUnavailable) =>
            Map_has asin (items m) = true /\ wasUnavailable = true
        | Throw _ => Map_has asin (items m) = false
        end).
Proof.
  unfold markItemUnavailable, Map_has, record.
  destruct (Map_get asin (items m)) as [item|] eqn:E; simpl.
  - split; [discriminate|]. rewrite Map_get_set_eq. simpl.
    split; [|split].
    + unfold with_items, with_data. simpl.
      now rewrite Map_set_set, insert_insert_eq.
    + intros _. eexists. split; [reflexivity|]. apply lookup_insert_eq.
    + intros el. unfold storeItemDOMElement. simpl.
      rewrite Map_get_set_eq. simpl. now rewrite prop_insert_eq.
  - rewrite E. split; [reflexivity|]. split; [reflexivity|].
    split; [discriminate|].
    intros el. unfold storeItemDOMElement. now rewrite E.
Qed.

Lemma C7_witness :
  let m := catalog_of [("B01", bounds (num 3) (num 8))] in
  markItemUnavailable "B09" m = m
  /\ exists d, record "B01" (markItemUnavailable "B01" m) = Some d
               /\ d !! "unavailable" = Some (JBool true).
Proof.
  intros m. split.
  - exact (proj1 (C7_unavailable_before_element "B09" m) eq_refl).
  - exact (proj1 (proj2 (proj2 (C7_unavailable_before_element "B01" m)))
             eq_refl).
Defined.

(** C7, refuted as stated.  The asin is marked unavailable before its
    record exists: nothing is kept of it.  Storing the element right away
    throws, and once the record has been created storing the element
    answers [false]. *)
Lemma C7_counterexample :
  let s := settings_sorted_by "price_desc" in
  let m0 := catalog_of [] in
  let m1 := markItemUnavailable "B01" m0 in
  let m2 := fst (addItemData s (Fin 0) "B01" (bounds JNull JNull) m1) in
  m1 = m0
  /\ storeItemDOMElement "B01" 7 m1 = Throw "Item B01 not found in items map"
  /\ exists m3, storeItemDOMElement "B01" 7 m2 = Return (m3, false).
Proof.
  split; [reflexivity|]. split; [reflexivity|].
  eexists. vm_compute. reflexivity.
Qed.

(* ===================================================================== *)
(** ** The bulk buffer *)
(* ===================================================================== *)

(** While buffering, events that are not the sentinel pile up and nothing
    is sent. *)
Lemma feed_buffers (es : list (gmap string value)) (st : State) :
  fetch100 st = true ->
  Forall (fun e => is_sentinel e = false) es ->
  feed es st = (set_buffer true (dataBuffer st ++ es) st, []).
Proof.
  revert st. induction es as [|e r IH]; intros st Hb Hes; simpl.
  - rewrite app_nil_r. unfold skip. destruct st; simpl in *. now subst.
  - apply Forall_cons in Hes as [He Hr].
    unfold seq, dataBuffering at 1. rewrite Hb. simpl.
    unfold is_sentinel in He. rewrite He.
    rewrite IH by (simpl; auto). simpl.
    now rewrite <- app_assoc.
Qed.

Lemma feed_app (es1 es2 : list (gmap string value)) (st : State) :
  feed (es1 ++ es2) st
  = let '(st1, out1) := feed es1 st in
    let '(st2, out2) := feed es2 st1 in
    (st2, out1 ++ out2).
Proof.
  revert st. induction es1 as [|e r IH]; intros st; simpl.
  - unfold skip. now destruct (feed es2 st).
  - unfold seq. destruct (dataBuffering e st) as [st1 out1].
    rewrite IH. destruct (feed r st1) as [st2 out2].
    destruct (feed es2 st2) as [st3 out3]. now rewrite app_assoc.
Qed.

(** C3 (as amended).  While buffering with an empty buffer, the events
    [e1, e2, e3] followed by the sentinel produce exactly one message, the
    batch [e1, e2, e3, sentinel]: the sentinel is its last element.  The
    buffer is empty afterwards and the worker passes events through
    again. *)
Theorem C3_batch_ends_with_the_sentinel
    (st : State) (e1 e2 e3 sentinel : gmap string value) :
  fetch100 st = true ->
  dataBuffer st = [] ->
  is_sentinel e1 = false -> is_sentinel e2 = false -> is_sentinel e3 = false ->
  is_sentinel sentinel = true ->
  snd (feed [e1; e2; e3; sentinel] st)
  = [SendMessageToAllTabs (Fetch100 [e1; e2; e3; sentinel])]
  /\ fetch100 (fst (feed [e1; e2; e3; sentinel] st)) = false
  /\ dataBuffer (fst (feed [e1; e2; e3; sentinel] st)) = [].
Proof.
  intros Hb Hbuf H1 H2 H3 Hs.
  change [e1; e2; e3; sentinel] with ([e1; e2; e3] ++ [sentinel]).
  rewrite feed_app, feed_buffers by (auto using Forall_nil, Forall_cons).
  rewrite Hbuf. simpl. unfold seq, dataBuffering, skip. simpl.
  unfold is_sentinel in Hs. rewrite Hs. simpl. auto.
Qed.

Lemma C3_witness :
  snd (feed [event "B01"; event "B02"; event "B03";
             typed "fetchRecentItemsEnd"] buffering)
  = [SendMessageToAllTabs
       (Fetch100 [event "B01"; event "B02"; event "B03";
                  typed "fetchRecentItemsEnd"])].
Proof.
  exact (proj1 (C3_batch_ends_with_the_sentinel buffering
                  (event "B01") (event "B02") (event "B03")
                  (typed "fetchRecentItemsEnd")
                  eq_refl eq_refl eq_refl eq_refl eq_refl eq_refl)).
Defined.

(** C3, refuted as stated.  The batch sent for three events and the
    sentinel is not [e1, e2, e3]: it has four elements. *)
Lemma C3_counterexample :
  snd (feed [event "B01"; event "B02"; event "B03";
             typed "fetchRecentItemsEnd"] buffering)
  <> [SendMessageToAllTabs
        (Fetch100 [event "B01"; event "B02"; event "B03"])].
Proof.
  vm_compute. discriminate.
Qed.

(* ===================================================================== *)
(** ** The connection *)
(* ===================================================================== *)

Lemma connectWebSocket_busy Settings app_version st :
  socket_connected st = true \/ socket_connecting st = true ->
  connectWebSocket Settings app_version st = (st, []).
Proof.
  unfold connectWebSocket. intros H.
  destruct (logical_not _); [reflexivity|].
  destruct (socket_connected st); [reflexivity|].
  destruct (strict_eq _ _); [reflexivity|].
  destruct H as [H|H]; [discriminate|]. now rewrite H.
Qed.

Lemma connectWebSocket_cases Settings app_version st :
  connectWebSocket Settings app_version st = (st, [])
  \/ exists q,
      connectWebSocket Settings app_version st
      = (set_socket (Some {| connected := false |}) true st, [IoConnect q]).
Proof.
  unfold connectWebSocket.
  destruct (logical_not _); [now left|].
  destruct (socket_connected st); [now left|].
  destruct (strict_eq _ _); [now left|].
  destruct (socket_connecting st); [now left|].
  right. eauto.
Qed.

(** C9.  When the socket is connected or a connection is under way,
    [connectWebSocket] changes nothing and makes no outside call.  From any
    state, the second of two calls in a row makes no outside call, and the
    two calls together make at most one connection attempt. *)
Theorem C9_second_connect_makes_no_attempt
    (Settings : SettingsMgr.t) (app_version : value) (st : State) :
  (socket_connected st = true \/ socket_connecting st = true ->
   connectWebSocket Settings app_version st = (st, []))
  /\ snd (connectWebSocket Settings app_version
            (fst (connectWebSocket Settings app_version st))) = []
  /\ (attempts (snd (connectWebSocket Settings app_version st))
      + attempts (snd (connectWebSocket Settings app_version
                         (fst (connectWebSocket Settings app_version st))))
      <= 1)%nat.
Proof.
  split; [apply connectWebSocket_busy|].
  destruct (connectWebSocket_cases Settings app_version st) as [E|[q E]];
    rewrite E; simpl.
  - rewrite E. simpl. split; [reflexivity|]. unfold attempts. simpl. lia.
  - rewrite connectWebSocket_busy by (right; reflexivity).
    split; [reflexivity|]. unfold attempts. simpl. lia.
Qed.

(** After a close or a failed attempt the next call does try again, when
    notifications are on and the country is known. *)
Lemma connectWebSocket_after_close Settings app_version st :
  logical_not (SettingsMgr.get Settings "notification.active" true) = false ->
  strict_eq (countryCode st) JNull = false ->
  attempts (snd (connectWebSocket Settings app_version
                   (fst (on_disconnect st)))) = 1%nat
  /\ (socket_connected st = false ->
      attempts (snd (connectWebSocket Settings app_version
                       (fst (on_connect_error st)))) = 1%nat).
Proof.
  intros Ha Hc. unfold connectWebSocket, on_disconnect, on_connect_error,
    update, socket_connected. simpl. rewrite Ha, Hc. simpl.
  split; [reflexivity|]. intros Hs. unfold socket_connected in Hs.
  now rewrite Hs.
Qed.

Lemma C9_witness :
  let st := set_socket (Some {| connected := false |}) true
              (set_countryCode (JStr "ca") initial) in
  let Settings :=
    {| SettingsMgr.settings :=
         {[ "notification" :=
              SettingsMgr.Object
                {[ "active" := SettingsMgr.Primitive (JBool true) ]} ]};
       SettingsMgr.defaultSettings := ∅ |} in
  connectWebSocket Settings (JStr "3.5.5") st = (st, []).
Proof.
  intros st Settings.
  exact (proj1 (C9_second_connect_makes_no_attempt Settings (JStr "3.5.5") st)
           (or_intror eq_refl)).
Defined.

(* ===================================================================== *)
(** ** The reload timer *)
(* ===================================================================== *)

Lemma find_app_l {A : Type} (f : A -> bool) (l1 l2 : list A) x :
  find f l1 = Some x -> find f (l1 ++ l2) = Some x.
Proof.
  induction l1 as [|y r IH]; simpl; [discriminate|].
  destruct (f y); [trivial | exact IH].
Qed.

(** [resetReloadTimer] installs its timer next to the pending ones: every
    timer that was pending still is. *)
Lemma resetReloadTimer_keeps_pending (interval : Z) (id : nat)
    (t : Z * Callback) (st : State) :
  pending id st = Some t ->
  pending id (fst (resetReloadTimer interval st)) = Some t.
Proof.
  unfold pending, resetReloadTimer, setTimeout. simpl.
  destruct (find _ (timers st)) as [x|] eqn:E; simpl; [|discriminate].
  intros [= <-]. now rewrite (find_app_l _ _ _ _ E).
Qed.

(** C8, at the input where the code leaves the claim.  The reload timer is
    armed (timer 2, five minutes) when a "dogpage" message arrives.  The
    cooldown is installed as timer 3 and becomes [reloadTimer], while timer 2
    is still pending.  When timer 2 fires, [setReloadTimer] clears the
    cooldown (timer 3) and arms the usual cadence again (timer 5). *)
Theorem C8_pending_reload_timer_outlives_the_pause :
  let Settings := settings_sorted_by "price_desc" in
  let st1 := fst (setReloadTimer Settings true true false 300000 initial) in
  let st2 := fst (processBroadcastMessage Settings (JStr "3.5.5") (JBool false)
                    (typed "dogpage") st1) in
  let st3 := fst (fire Settings true 2 true false 420000 st2) in
  reloadTimer st1 = Some 2%nat
  /\ pending 2 st1 = Some (300000%Z, NextReload)
  /\ reloadTimer st2 = Some 3%nat
  /\ pending 3 st2 = Some (86400000%Z, CooldownOver)
  /\ pending 2 st2 = Some (300000%Z, NextReload)
  /\ pending 3 st3 = None
  /\ reloadTimer st3 = Some 5%nat
  /\ pending 5 st3 = Some (420000%Z, NextReload).
Proof. vm_compute. repeat split; reflexivity. Qed.

(* ===================================================================== *)
(** ** Sorting by price *)
(* ===================================================================== *)

Lemma Qltb_sub x y : Qltb 0 (x - y) = Qltb y x.
Proof.
  apply Bool.eq_iff_eq_true. rewrite !Qltb_lt. split; intros H; lra.
Qed.

Lemma Qltb_opp x y : Qltb (- x) (- y) = Qltb y x.
Proof.
  apply Bool.eq_iff_eq_true. rewrite !Qltb_lt. split; intros H; lra.
Qed.

Lemma Qzero_spec q : Qzero q = true <-> (q == 0)%Q.
Proof.
  unfold Qzero, Qeq. simpl. rewrite Z.eqb_eq. lia.
Qed.

(** The price of a nullable numeric bound is a finite number. *)
Lemma price_finite sentinel d :
  numeric_or_null (prop d "etv_min") ->
  price sentinel d = Fin (finite (price sentinel d)).
Proof.
  unfold price, logical_or. intros [-> | [-> | [q ->]]]; simpl; try reflexivity.
  now destruct (Qzero q).
Qed.

Lemma price_null sentinel d :
  prop d "etv_min" = JNull -> price sentinel d = Fin (inject_Z sentinel).
Proof. unfold price. now intros ->. Qed.

Lemma price_nonzero sentinel d q :
  prop d "etv_min" = JNum (Fin q) -> ~ (q == 0)%Q -> price sentinel d = Fin q.
Proof.
  unfold price, logical_or. intros -> Hq. simpl.
  destruct (Qzero q) eqn:E; [|reflexivity].
  now apply Qzero_spec in E.
Qed.

Section PriceOrder.
Variable s : SettingsMgr.t.

Lemma compareEntries_price_desc a b :
  sorted_by s "price_desc" ->
  compareEntries s a b
  = num_sub (price (-1) (e_data b)) (price (-1) (e_data a)).
Proof. unfold compareEntries, sorted_by. now intros ->. Qed.

Lemma compareEntries_price_asc a b :
  sorted_by s "price_asc" ->
  compareEntries s a b
  = num_sub (price 99999999 (e_data a)) (price 99999999 (e_data b)).
Proof. unfold compareEntries, sorted_by. now intros ->. Qed.

Lemma priced_entries m e :
  priced m -> In e (map toEntry (items m)) ->
  numeric_or_null (prop (e_data e) "etv_min").
Proof.
  unfold priced. rewrite List.Forall_forall. intros H Hin.
  apply in_map_iff in Hin as (kv & <- & Hin). exact (H kv Hin).
Qed.

Lemma ranks_price_desc m :
  sorted_by s "price_desc" -> priced m ->
  ranks_by (compareEntries s)
           (fun e => - finite (price (-1) (e_data e)))%Q
           (map toEntry (items m)).
Proof.
  intros Hs Hp x y Hx Hy. rewrite compareEntries_price_desc by exact Hs.
  rewrite (price_finite _ _ (priced_entries m x Hp Hx)).
  rewrite (price_finite _ _ (priced_entries m y Hp Hy)).
  simpl. unfold num_pos. simpl. now rewrite Qltb_sub, Qltb_opp.
Qed.

Lemma ranks_price_asc m :
  sorted_by s "price_asc" -> priced m ->
  ranks_by (compareEntries s)
           (fun e => finite (price 99999999 (e_data e)))
           (map toEntry (items m)).
Proof.
  intros Hs Hp x y Hx Hy. rewrite compareEntries_price_asc by exact Hs.
  rewrite (price_finite _ _ (priced_entries m x Hp Hx)).
  rewrite (price_finite _ _ (priced_entries m y Hp Hy)).
  simpl. unfold num_pos. simpl. now rewrite Qltb_sub.
Qed.

(** When the comparator ranks the entries by a key, a record with the
    larger key is found after a record with the smaller one. *)
Lemma sortItems_below (f : Entry -> Q) m A B itA itB :
  wf m ->
  ranks_by (compareEntries s) f (map toEntry (items m)) ->
  Map_get A (items m) = Some itA ->
  Map_get B (items m) = Some itB ->
  (f (toEntry (B, itB)) < f (toEntry (A, itA)))%Q ->
  below (fst (sortItems s m)) A B.
Proof.
  intros Hwf Hr HA HB Hlt.
  pose proof (Array_sort_sorted _ f _ Hr) as Hsorted.
  assert (HinA : In (toEntry (A, itA)) (map toEntry (items m)))
    by (apply in_map; now apply Map_get_In).
  assert (HinB : In (toEntry (B, itB)) (map toEntry (items m)))
    by (apply in_map; now apply Map_get_In).
  apply (Array_sort_In (compareEntries s)) in HinA, HinB.
  destruct (sorted_split_later f _ _ _ Hsorted HinA HinB Hlt)
    as (l1 & l2 & Hsplit & Hin2).
  pose proof (sortItems_wf s m Hwf) as Hwf'.
  unfold wf, below in *. rewrite sortItems_items in *.
  rewrite Hsplit, map_app in *. simpl in *.
  change (ofEntry (toEntry (B, itB))) with (B, rebuilt itB) in *.
  apply (Map_index_before A B (rebuilt itA) (rebuilt itB)); [exact Hwf'|].
  change (A, rebuilt itA) with (ofEntry (toEntry (A, itA))).
  apply in_map. exact Hin2.
Qed.
End PriceOrder.

(** Away from the number 0 the price sorts do rank a missing price last.
    In a catalog whose [etv_min] values are null or finite numbers, take a
    record A with [etv_min = null] and a record B whose [etv_min] is a
    number other than 0.  Sorted by [price_desc], A comes after B when B's
    value is above -1, so for every positive value; sorted by [price_asc],
    A comes after B when B's value is below 99999999. *)
Lemma unknown_price_sorts_below_nonzero_price
    (s : SettingsMgr.t) (m : ItemsMgr) (A B : string)
    (dA dB : gmap string value) (q : Q) :
  wf m -> priced m ->
  record A m = Some dA -> record B m = Some dB ->
  prop dA "etv_min" = JNull ->
  prop dB "etv_min" = JNum (Fin q) ->
  ~ (q == 0)%Q ->
  (sorted_by s "price_desc" -> (-1 < q)%Q -> below (fst (sortItems s m)) A B)
  /\ (sorted_by s "price_asc" -> (q < 99999999)%Q ->
      below (fst (sortItems s m)) A B).
Proof.
  intros Hwf Hp HA HB HnullA HqB Hq0.
  unfold record in HA, HB.
  destruct (Map_get A (items m)) as [itA|] eqn:EA; [|discriminate].
  destruct (Map_get B (items m)) as [itB|] eqn:EB; [|discriminate].
  injection HA as <-. injection HB as <-.
  split; intros Hs Hq.
  - eapply sortItems_below;
      [exact Hwf | now apply ranks_price_desc | exact EA | exact EB |].
    simpl. rewrite (price_null _ _ HnullA), (price_nonzero _ _ _ HqB Hq0).
    simpl. unfold inject_Z. lra.
  - eapply sortItems_below;
      [exact Hwf | now apply ranks_price_asc | exact EA | exact EB |].
    simpl. rewrite (price_null _ _ HnullA), (price_nonzero _ _ _ HqB Hq0).
    simpl. unfold inject_Z. lra.
Qed.

Lemma unknown_price_sorts_below_nonzero_price_example :
  let m := catalog_of [("A", bounds JNull JNull);
                       ("B", bounds (num 12) (num 30))] in
  below (fst (sortItems (settings_sorted_by "price_desc") m)) "A" "B"
  /\ below (fst (sortItems (settings_sorted_by "price_asc") m)) "A" "B".
Proof.
  intros m.
  assert (Hwf : wf m).
  { repeat constructor; simpl; intuition discriminate. }
  assert (Hp : priced m).
  { constructor; [now left|].
    constructor; [right; right; now exists (inject_Z 12) | constructor]. }
  assert (Hq : ~ (inject_Z 12 == 0)%Q) by discriminate.
  split.
  - exact (proj1 (unknown_price_sorts_below_nonzero_price
                    (settings_sorted_by "price_desc") m "A" "B"
                    (bounds JNull JNull) (bounds (num 12) (num 30))
                    (inject_Z 12) Hwf Hp eq_refl eq_refl eq_refl eq_refl Hq)
             eq_refl eq_refl).
  - exact (proj2 (unknown_price_sorts_below_nonzero_price
                    (settings_sorted_by "price_asc") m "A" "B"
                    (bounds JNull JNull) (bounds (num 12) (num 30))
                    (inject_Z 12) Hwf Hp eq_refl eq_refl eq_refl eq_refl Hq)
             eq_refl eq_refl).
Defined.

(** Sorted by [price_asc], the record A without a price stays before the
    record B whose finite price is 100000000: the stand-in for a missing
    price is the finite number 99999999. *)
Lemma price_asc_unknown_above_a_large_price :
  let s := settings_sorted_by "price_asc" in
  let m := catalog_of [("A", bounds JNull JNull);
                       ("B", bounds (num 100000000) (num 100000000))] in
  record "A" m = Some (bounds JNull JNull)
  /\ record "B" m = Some (bounds (num 100000000) (num 100000000))
  /\ Map_index "A" (items (fst (sortItems s m))) = Some 0%nat
  /\ Map_index "B" (items (fst (sortItems s m))) = Some 1%nat
  /\ ~ below (fst (sortItems s m)) "A" "B".
Proof.
  intros s m.
  assert (HA : Map_index "A" (items (fst (sortItems s m))) = Some 0%nat)
    by (vm_compute; reflexivity).
  assert (HB : Map_index "B" (items (fst (sortItems s m))) = Some 1%nat)
    by (vm_compute; reflexivity).
  repeat split; try assumption; try (vm_compute; reflexivity).
  intros (i & j & Hi & Hj & Hlt).
  rewrite HB in Hi. rewrite HA in Hj.
  injection Hi as <-. injection Hj as <-. lia.
Qed.

(** C4.  The failing input: a catalog that holds A without a price, then B
    with the price 0.  The number 0 is falsy, so [etv_min || -1] and
    [etv_min || 99999999] read it as a missing price: B ties with A, the
    stable sort keeps the insertion order, and A is not below B, neither
    sorted by [price_desc] nor sorted by [price_asc]. *)
Theorem C4_zero_price_ties_with_unknown_price :
  let m := catalog_of [("A", bounds JNull JNull);
                       ("B", bounds (num 0) (num 0))] in
  let desc := fst (sortItems (settings_sorted_by "price_desc") m) in
  let asc := fst (sortItems (settings_sorted_by "price_asc") m) in
  record "A" m = Some (bounds JNull JNull)
  /\ record "B" m = Some (bounds (num 0) (num 0))
  /\ price (-1) (bounds (num 0) (num 0)) = price (-1) (bounds JNull JNull)
  /\ price 99999999 (bounds (num 0) (num 0))
     = price 99999999 (bounds JNull JNull)
  /\ asins desc = ["A"; "B"] /\ ~ below desc "A" "B"
  /\ asins asc = ["A"; "B"] /\ ~ below asc "A" "B".
Proof.
  intros m desc asc.
  assert (Hnot : forall c, Map_index "A" (items c) = Some 0%nat ->
                           ~ below c "A" "B").
  { intros c HA (i & j & _ & Hj & Hlt). rewrite HA in Hj.
    injection Hj as <-. lia. }
  split; [reflexivity|]. split; [reflexivity|].
  split; [vm_compute; reflexivity|]. split; [vm_compute; reflexivity|].
  split; [vm_compute; reflexivity|].
  split; [apply Hnot; vm_compute; reflexivity|].
  split; [vm_compute; reflexivity|].
  apply Hnot; vm_compute; reflexivity.
Qed.

(** A zero held as the text "0.00" is truthy and is read by [parseFloat]:
    that record does rank above the one without a price. *)
Example sortItems_price_desc_text_zero :
  let s := settings_sorted_by "price_desc" in
  let m := catalog_of [("A", bounds JNull JNull);
                       ("B", bounds (JStr "0.00") (JStr "0.00"))] in
  Map_index "B" (items (fst (sortItems s m))) = Some 0%nat
  /\ Map_index "A" (items (fst (sortItems s m))) = Some 1%nat.
Proof. vm_compute. repeat split; reflexivity. Qed.

(* ===================================================================== *)
(** ** The replay of a bulk snapshot *)
(* ===================================================================== *)

Section ListFacts.
Context {A : Type}.

Lemma StronglySorted_snoc (R : A -> A -> Prop) l x :
  StronglySorted R l -> Forall (fun y => R y x) l ->
  StronglySorted R (l ++ [x]).
Proof.
  induction 1 as [|y r Hs IH Hy]; simpl; intros Hx.
  - repeat constructor.
  - apply Forall_cons in Hx as [Hyx Hx]. constructor; [now apply IH|].
    apply Forall_app. split; [exact Hy | now constructor].
Qed.

Lemma StronglySorted_rev (R : A -> A -> Prop) l :
  StronglySorted R l -> StronglySorted (fun a b => R b a) (rev l).
Proof.
  induction 1 as [|y r Hs IH Hy]; simpl; [constructor|].
  apply StronglySorted_snoc; [exact IH|].
  rewrite List.Forall_forall in *. intros z Hz.
  apply Hy. now apply in_rev.
Qed.

Lemma StronglySorted_filter (R : A -> A -> Prop) (g : A -> bool) l :
  StronglySorted R l -> StronglySorted R (List.filter g l).
Proof.
  induction 1 as [|y r Hs IH Hy]; simpl; [constructor|].
  destruct (g y); [|exact IH]. constructor; [exact IH|].
  rewrite List.Forall_forall in *. intros z Hz.
  apply Hy. now apply filter_In in Hz.
Qed.

Lemma StronglySorted_weaken (R R' : A -> A -> Prop) l :
  (forall x y, In x l -> In y l -> R x y -> R' x y) ->
  StronglySorted R l -> StronglySorted R' l.
Proof.
  intros HR Hs. induction Hs as [|y r Hs IH Hy]; [constructor|].
  constructor.
  - apply IH. intros a b Ha Hb. apply HR; now right.
  - rewrite List.Forall_forall in *. intros z Hz.
    apply HR; [now left | now right | now apply Hy].
Qed.

Lemma Permutation_filter_bool (g : A -> bool) l l' :
  Permutation l l' -> Permutation (List.filter g l) (List.filter g l').
Proof.
  induction 1 as [|x l l' Hp IH|x y l|l l' l'' H1 IH1 H2 IH2]; simpl.
  - constructor.
  - destruct (g x); [now constructor | exact IH].
  - destruct (g x), (g y); try reflexivity. apply perm_swap.
  - now transitivity (List.filter g l').
Qed.

Lemma map_snd_imap (f : nat -> nat) (l : list A) :
  map snd (imap (fun i x => (f i, x)) l) = l.
Proof.
  revert f. induction l as [|x r IH]; intros f; simpl; [reflexivity|].
  f_equal. exact (IH (f ∘ S)).
Qed.

Lemma map_snd_filter (g : A -> bool) (l : list (nat * A)) :
  map snd (List.filter (fun ip => g (snd ip)) l) = List.filter g (map snd l).
Proof.
  induction l as [|[i x] r IH]; simpl; [reflexivity|].
  destruct (g x); simpl; now rewrite IH.
Qed.
End ListFacts.

Section Replay.
Variable Settings : SettingsMgr.t.
Variable Date_parse : string -> number.

Lemma flat_map_replayProduct (l : list (nat * gmap string value)) :
  flat_map (replayProduct Settings) l
  = map (fun ip => StreamInput (newItem Settings (fst ip) (snd ip)))
        (List.filter (fun ip => negb (skipped (snd ip))) l).
Proof.
  induction l as [|[i p] r IH]; simpl; [reflexivity|].
  unfold skipped at 1. simpl.
  destruct (loose_eq (prop p "img_url") (JStr "")
            || loose_eq (prop p "title") (JStr "")); simpl; now rewrite IH.
Qed.

Lemma ranks_by_date arr :
  valid_dates Date_parse arr ->
  ranks_by (compareProducts Date_parse)
           (fun p => - finite (date_of Date_parse p))%Q arr.
Proof.
  unfold valid_dates. rewrite List.Forall_forall.
  intros Hv x y Hx Hy. unfold compareProducts.
  destruct (Hv x Hx) as [qx Ex]. destruct (Hv y Hy) as [qy Ey].
  unfold date_of in *. rewrite Ex, Ey. simpl. unfold num_pos. simpl.
  now rewrite Qltb_sub, Qltb_opp.
Qed.

(** What is replayed, in replay order: the products that are not passed
    over, from the last place of the sorted array to the first. *)
Lemma replayed_products arr :
  map snd (List.filter (fun ip => negb (skipped (snd ip)))
             (rev (imap pair (Array_sort (compareProducts Date_parse) arr))))
  = List.filter (fun p => negb (skipped p))
      (rev (Array_sort (compareProducts Date_parse) arr)).
Proof.
  rewrite (map_snd_filter (fun p => negb (skipped p))), map_rev.
  now rewrite (map_snd_imap (fun i => i)).
Qed.

Lemma replay_ascending arr :
  valid_dates Date_parse arr ->
  StronglySorted (not_later Date_parse)
    (List.filter (fun p => negb (skipped p))
       (rev (Array_sort (compareProducts Date_parse) arr))).
Proof.
  intros Hv. apply StronglySorted_filter.
  pose proof (Array_sort_sorted _ _ _ (ranks_by_date arr Hv)) as Hs.
  apply StronglySorted_rev in Hs.
  eapply StronglySorted_weaken; [|exact Hs].
  intros x y Hx Hy Hle. simpl in Hle.
  apply in_rev, Array_sort_In in Hx, Hy.
  unfold valid_dates in Hv. rewrite List.Forall_forall in Hv.
  destruct (Hv x Hx) as [qx Ex]. destruct (Hv y Hy) as [qy Ey].
  unfold not_later. rewrite Ex, Ey in *. simpl in *.
  apply Qltb_ge. lra.
Qed.
End Replay.

Lemma event_of_newItem Settings (i : nat) (p : gmap string value) :
  event_of Settings (newItem Settings i p) p.
Proof.
  unfold event_of, copied_fields.
  split; [reflexivity|]. split; [reflexivity|]. split; [reflexivity|].
  repeat (constructor; [reflexivity|]). constructor.
Qed.

Lemma events_of_products Settings (l : list (nat * gmap string value)) :
  Forall2 (event_of Settings)
    (map (fun ip => newItem Settings (fst ip) (snd ip)) l) (map snd l).
Proof.
  induction l as [|[i p] r IH]; simpl; constructor;
    [apply event_of_newItem | exact IH].
Qed.

Lemma stream_inputs_events (events : list (gmap string value)) :
  stream_inputs (map StreamInput events) = events.
Proof. induction events as [|e r IH]; simpl; [reflexivity|]. now f_equal. Qed.

Lemma StronglySorted_map {A B : Type} (R : B -> B -> Prop) (g : A -> B) l :
  StronglySorted (fun a b => R (g a) (g b)) l -> StronglySorted R (map g l).
Proof.
  induction 1 as [|x r Hs IH Hx]; simpl; constructor; [exact IH|].
  rewrite List.Forall_forall in *. intros y Hy.
  apply in_map_iff in Hy as (z & <- & Hz). now apply Hx.
Qed.

Lemma StronglySorted_unmap {A B : Type} (R : B -> B -> Prop) (g : A -> B) l :
  StronglySorted R (map g l) -> StronglySorted (fun a b => R (g a) (g b)) l.
Proof.
  induction l as [|x r IH]; simpl; intros Hs; [constructor|].
  apply StronglySorted_inv in Hs as [Hr Hx].
  constructor; [now apply IH|].
  rewrite List.Forall_forall in *. intros y Hy. apply Hx. now apply in_map.
Qed.

(** The events of a replay are dated as their products are, and the closing
    event, which has no date, is dated after none. *)
Lemma events_oldest_first Settings Date_parse
    (replayed : list (nat * gmap string value)) :
  StronglySorted (not_later Date_parse) (map snd replayed) ->
  StronglySorted (not_later Date_parse)
    (map (fun ip => newItem Settings (fst ip) (snd ip)) replayed
     ++ [typed "fetchRecentItemsEnd"]).
Proof.
  intros Hs. apply StronglySorted_snoc.
  - apply StronglySorted_unmap in Hs.
    apply (StronglySorted_map (not_later Date_parse)
             (fun ip => newItem Settings (fst ip) (snd ip))).
    exact Hs.
  - rewrite List.Forall_forall. intros e _. reflexivity.
Qed.

(** C10 (as amended).  [processLast100Items] turns buffering on and gives
    the stream nothing but newItem events followed by one
    fetchRecentItemsEnd event, which is always last.  Each newItem event is
    the event of one product, with the fields of that product, and the
    products replayed are exactly those whose image url and title are not
    loosely equal to the empty string: a product whose title or image url
    is the empty string is never replayed.  When every product of the
    response has a valid date, the replay goes from the oldest to the
    newest. *)
Theorem C10_dated_snapshot_replayed_oldest_first
    (Settings : SettingsMgr.t) (Date_parse : string -> number)
    (arrProducts : list (gmap string value)) (st : State) :
  exists events products : list (gmap string value),
    processLast100Items Settings Date_parse arrProducts st
    = (set_buffer true (dataBuffer st) st,
       map StreamInput events ++ [StreamInput (typed "fetchRecentItemsEnd")])
    /\ Forall2 (event_of Settings) events products
    /\ Permutation products
                   (List.filter (fun p => negb (skipped p)) arrProducts)
    /\ (forall p, prop p "title" = JStr "" \/ prop p "img_url" = JStr "" ->
                  ~ In p products)
    /\ (valid_dates Date_parse arrProducts ->
        oldest_first Date_parse
          (snd (processLast100Items Settings Date_parse arrProducts st))).
Proof.
  set (replayed := List.filter (fun ip => negb (skipped (snd ip)))
                     (rev (imap pair
                             (Array_sort (compareProducts Date_parse)
                                arrProducts)))).
  assert (Hout : processLast100Items Settings Date_parse arrProducts st
                 = (set_buffer true (dataBuffer st) st,
                    map StreamInput
                      (map (fun ip => newItem Settings (fst ip) (snd ip))
                         replayed)
                    ++ [StreamInput (typed "fetchRecentItemsEnd")])).
  { unfold processLast100Items. rewrite flat_map_replayProduct.
    now rewrite map_map. }
  assert (Hperm :
    Permutation
      (List.filter (fun p => negb (skipped p))
         (rev (Array_sort (compareProducts Date_parse) arrProducts)))
      (List.filter (fun p => negb (skipped p)) arrProducts)).
  { apply Permutation_filter_bool.
    rewrite <- Permutation_rev. apply Array_sort_Permutation. }
  exists (map (fun ip => newItem Settings (fst ip) (snd ip)) replayed),
         (map snd replayed).
  split; [exact Hout|]. split; [|split; [|split]].
  - apply events_of_products.
  - unfold replayed. rewrite replayed_products. exact Hperm.
  - unfold replayed. rewrite replayed_products.
    intros p Hp Hin. apply filter_In in Hin as [_ Hin].
    unfold skipped in Hin. destruct Hp as [Hp|Hp]; rewrite Hp in Hin;
      simpl in Hin; rewrite ?orb_true_r in Hin; discriminate.
  - intros Hv. unfold oldest_first. rewrite Hout. cbn [snd].
    change [StreamInput (typed "fetchRecentItemsEnd")]
      with (map StreamInput [typed "fetchRecentItemsEnd"]).
    rewrite <- map_app, stream_inputs_events.
    apply events_oldest_first.
    unfold replayed. rewrite replayed_products. now apply replay_ascending.
Qed.

Lemma C10_witness :
  let arr := [product "B02" "Lamp" "lamp.jpg" 200;
              product "B01" "" "box.jpg" 150;
              product "B03" "Desk" "desk.jpg" 100;
              product "B04" "Sofa" "sofa.jpg" 300] in
  valid_dates (fun _ => NaN) arr
  /\ oldest_first (fun _ => NaN)
       (snd (processLast100Items notifying (fun _ => NaN) arr initial))
  /\ map (fun e => prop e "asin")
         (stream_inputs
            (snd (processLast100Items notifying (fun _ => NaN) arr initial)))
     = [JStr "B03"; JStr "B02"; JStr "B04"; JUndefined].
Proof.
  intros arr.
  assert (Hv : valid_dates (fun _ => NaN) arr).
  { repeat constructor; eexists; vm_compute; reflexivity. }
  split; [exact Hv|]. split; [|vm_compute; reflexivity].
  destruct (C10_dated_snapshot_replayed_oldest_first
              notifying (fun _ => NaN) arr initial)
    as (events & products & _ & _ & _ & _ & Hsorted).
  exact (Hsorted Hv).
Defined.

(** C10, refuted as stated.  A response of three products, the second one
    without a date: the comparator answers NaN on it, the sort leaves the
    array as it came, and the product dated 1 is replayed before the product
    dated 0. *)
Lemma C10_counterexample :
  let arr := [product "P0" "Lamp" "lamp.jpg" 0;
              undated "P1" "Desk" "desk.jpg";
              product "P2" "Sofa" "sofa.jpg" 1] in
  let out := snd (processLast100Items notifying (fun _ => NaN) arr initial) in
  map (fun e => prop e "asin") (stream_inputs out)
  = [JStr "P2"; JStr "P1"; JStr "P0"; JUndefined]
  /\ map (fun e => prop e "date") (stream_inputs out)
     = [num 1; JUndefined; num 0; JUndefined]
  /\ ~ oldest_first (fun _ => NaN) out.
Proof.
  intros arr out.
  split; [vm_compute; reflexivity|]. split; [vm_compute; reflexivity|].
  assert (Hout : stream_inputs out
                 = [newItem notifying 2 (product "P2" "Sofa" "sofa.jpg" 1);
                    newItem notifying 1 (undated "P1" "Desk" "desk.jpg");
                    newItem notifying 0 (product "P0" "Lamp" "lamp.jpg" 0);
                    typed "fetchRecentItemsEnd"])
    by (vm_compute; reflexivity).
  unfold oldest_first. rewrite Hout. intros Hs.
  apply StronglySorted_inv in Hs as [_ Hs].
  apply Forall_cons in Hs as [_ Hs].
  apply Forall_cons in Hs as [Hs _].
  vm_compute in Hs. discriminate.
Qed.

(** The replay of three products, the middle one without a title: the
    oldest goes first with the index it has in the sorted array, the one
    without a title is passed over, the sentinel closes. *)
Example processLast100Items_three_products :
  let s := settings_sorted_by "price_desc" in
  let p1 := product "B02" "Lamp" "lamp.jpg" 200 in
  let p2 := product "B01" "" "box.jpg" 100 in
  let p3 := product "B03" "Desk" "desk.jpg" 50 in
  processLast100Items s (fun _ => NaN) [p1; p2; p3] initial
  = (buffering,
     [StreamInput (newItem s 2 p3); StreamInput (newItem s 0 p1);
      StreamInput (typed "fetchRecentItemsEnd")]).
Proof. vm_compute. reflexivity. Qed.

(** The replay of a response that does not come newest first: the sort
    puts it in order, and the events go out oldest first, each with the
    place of its product in the sorted array. *)
Example processLast100Items_unsorted_products :
  let s := notifying in
  let p1 := product "B02" "Lamp" "lamp.jpg" 200 in
  let p2 := product "B01" "" "box.jpg" 150 in
  let p3 := product "B03" "Desk" "desk.jpg" 100 in
  let p4 := product "B04" "Sofa" "sofa.jpg" 300 in
  processLast100Items s (fun _ => NaN) [p1; p2; p3; p4] initial
  = (buffering,
     [StreamInput (newItem s 3 p3); StreamInput (newItem s 1 p1);
      StreamInput (newItem s 0 p4);
      StreamInput (typed "fetchRecentItemsEnd")]).
Proof. vm_compute. reflexivity. Qed.


(* ===================================================================== *)
(** ** Further properties of the catalog *)
(* ===================================================================== *)

Lemma order_of_sortItems s m :
  order_of (fst (sortItems s m))
  = map e_data (Array_sort (compareEntries s) (map toEntry (items m))).
Proof.
  unfold order_of. rewrite sortItems_items, map_map. reflexivity.
Qed.

Lemma dated_entries m e :
  dated m -> In e (map toEntry (items m)) ->
  exists q, date_number (e_data e) = Fin q.
Proof.
  unfold dated. rewrite List.Forall_forall. intros H Hin.
  apply in_map_iff in Hin as (kv & <- & Hin). exact (H kv Hin).
Qed.

Lemma ranks_date_asc s m :
  sorted_by s "date_asc" -> dated m ->
  ranks_by (compareEntries s)
           (fun e => finite (date_number (e_data e)))
           (map toEntry (items m)).
Proof.
  intros Hs Hd x y Hx Hy. unfold compareEntries, sorted_by in *. rewrite Hs.
  simpl. unfold sub.
  destruct (dated_entries m x Hd Hx) as [qx Ex].
  destruct (dated_entries m y Hd Hy) as [qy Ey].
  unfold date_number in *. rewrite Ex, Ey. simpl. unfold num_pos. simpl.
  apply Qltb_sub.
Qed.

Lemma ranks_date_desc s m :
  sorted_by s "date_desc" -> dated m ->
  ranks_by (compareEntries s)
           (fun e => - finite (date_number (e_data e)))%Q
           (map toEntry (items m)).
Proof.
  intros Hs Hd x y Hx Hy. unfold compareEntries, sorted_by in *. rewrite Hs.
  simpl. unfold sub.
  destruct (dated_entries m x Hd Hx) as [qx Ex].
  destruct (dated_entries m y Hd Hy) as [qy Ey].
  unfold date_number in *. rewrite Ex, Ey. simpl. unfold num_pos. simpl.
  now rewrite Qltb_sub, Qltb_opp.
Qed.

Lemma ranks_price_default s m :
  sorted_by_default s -> priced m ->
  ranks_by (compareEntries s)
           (fun e => - finite (price (-1) (e_data e)))%Q
           (map toEntry (items m)).
Proof.
  intros (H1 & H2 & H3) Hp x y Hx Hy. unfold compareEntries.
  rewrite H1, H2, H3. fold (price (-1) (e_data x)) (price (-1) (e_data y)).
  rewrite (price_finite _ _ (priced_entries m x Hp Hx)).
  rewrite (price_finite _ _ (priced_entries m y Hp Hy)).
  simpl. unfold num_pos. simpl. now rewrite Qltb_sub, Qltb_opp.
Qed.

(** X1.  With dates that read as finite numbers, [sortItems] leaves the
    catalog oldest first under [date_asc] and newest first under
    [date_desc]. *)
Theorem X1_sortItems_orders_by_date (s : SettingsMgr.t) (m : ItemsMgr) :
  dated m ->
  (sorted_by s "date_asc" ->
   StronglySorted
     (fun d1 d2 => (finite (date_number d1) <= finite (date_number d2))%Q)
     (order_of (fst (sortItems s m))))
  /\ (sorted_by s "date_desc" ->
      StronglySorted
        (fun d1 d2 => (finite (date_number d2) <= finite (date_number d1))%Q)
        (order_of (fst (sortItems s m)))).
Proof.
  intros Hd. split; intros Hs; rewrite order_of_sortItems;
    apply StronglySorted_map.
  - exact (Array_sort_sorted _ _ _ (ranks_date_asc s m Hs Hd)).
  - pose proof (Array_sort_sorted _ _ _ (ranks_date_desc s m Hs Hd)) as H.
    eapply StronglySorted_weaken; [|exact H].
    intros x y _ _ Hle. simpl in Hle. lra.
Qed.

(** X2.  With [etv_min] values that are null or finite numbers, [sortItems]
    leaves the catalog in ascending price order under [price_asc], a falsy
    [etv_min] counting as 99999999, and in descending price order, a falsy
    [etv_min] counting as -1, under any sort type other than [date_asc],
    [date_desc] and [price_asc]. *)
Theorem X2_sortItems_orders_by_price (s : SettingsMgr.t) (m : ItemsMgr) :
  priced m ->
  (sorted_by s "price_asc" ->
   StronglySorted
     (fun d1 d2 => (finite (price 99999999 d1) <= finite (price 99999999 d2))%Q)
     (order_of (fst (sortItems s m))))
  /\ (sorted_by_default s ->
      StronglySorted
        (fun d1 d2 => (finite (price (-1) d2) <= finite (price (-1) d1))%Q)
        (order_of (fst (sortItems s m)))).
Proof.
  intros Hp. split; intros Hs; rewrite order_of_sortItems;
    apply StronglySorted_map.
  - exact (Array_sort_sorted _ _ _ (ranks_price_asc s m Hs Hp)).
  - pose proof (Array_sort_sorted _ _ _ (ranks_price_default s m Hs Hp)) as H.
    eapply StronglySorted_weaken; [|exact H].
    intros x y _ _ Hle. simpl in Hle. lra.
Qed.

Lemma sample_wf : wf sample.
Proof. repeat constructor; simpl; intuition discriminate. Qed.

Lemma sample_dated : dated sample.
Proof. repeat constructor; eexists; vm_compute; reflexivity. Qed.

Lemma sample_priced : priced sample.
Proof.
  constructor; [right; right; now exists (inject_Z 12)|].
  constructor; [now left|].
  constructor; [right; right; now exists (inject_Z 5) | constructor].
Qed.

Lemma X1_witness :
  StronglySorted
    (fun d1 d2 => (finite (date_number d1) <= finite (date_number d2))%Q)
    (order_of (fst (sortItems (settings_sorted_by "date_asc") sample))).
Proof.
  exact (proj1 (X1_sortItems_orders_by_date
                  (settings_sorted_by "date_asc") sample sample_dated)
           eq_refl).
Defined.

Lemma X2_witness :
  StronglySorted
    (fun d1 d2 => (finite (price (-1) d2) <= finite (price (-1) d1))%Q)
    (order_of (fst (sortItems (settings_sorted_by "newest") sample))).
Proof.
  exact (proj2 (X2_sortItems_orders_by_price
                  (settings_sorted_by "newest") sample sample_priced)
           (conj eq_refl (conj eq_refl eq_refl))).
Defined.

Lemma Array_sort_fixed {A : Type} (cmp : A -> A -> number) (f : A -> Q) l :
  ranks_by cmp f l ->
  StronglySorted (fun a b => (f a <= f b)%Q) l ->
  Array_sort cmp l = l.
Proof.
  intros Hr Hs. induction Hs as [|x r Hs IH Hx]; simpl; [reflexivity|].
  rewrite IH by (intros a b Ha Hb; apply Hr; now right).
  destruct r as [|y r']; simpl; [reflexivity|].
  rewrite (Hr x y) by (simpl; tauto).
  apply Forall_inv in Hx.
  now rewrite (proj2 (Qltb_ge (f y) (f x)) Hx).
Qed.

Lemma toEntry_ofEntry e : toEntry (ofEntry e) = e.
Proof. now destruct e. Qed.

Lemma sortItems_twice s (f : Entry -> Q) m :
  ranks_by (compareEntries s) f (map toEntry (items m)) ->
  fst (sortItems s (fst (sortItems s m))) = fst (sortItems s m).
Proof.
  intros Hr.
  assert (Hitems : items (fst (sortItems s (fst (sortItems s m))))
                   = items (fst (sortItems s m))).
  { rewrite (sortItems_items s (fst (sortItems s m))), sortItems_items.
    rewrite map_map.
    rewrite (map_ext _ (fun e => e) toEntry_ofEntry), map_id.
    f_equal. apply (Array_sort_fixed _ f).
    - intros a b Ha Hb. apply Hr; now apply (Array_sort_In (compareEntries s)).
    - now apply Array_sort_sorted. }
  unfold sortItems in *. destruct (items m) as [|kv r] eqn:E; simpl in *.
  - now rewrite E.
  - destruct (map ofEntry _) eqn:E'; simpl in *; [reflexivity|].
    unfold with_items. simpl. f_equal. exact Hitems.
Qed.

(** X3.  Sorting again without a change in between alters nothing: the
    catalog that [sortItems] leaves is a fixed point of [sortItems], under
    each of the sort types. *)
Theorem X3_sortItems_twice_is_once (s : SettingsMgr.t) (m : ItemsMgr) :
  (dated m -> sorted_by s "date_asc" \/ sorted_by s "date_desc" ->
   fst (sortItems s (fst (sortItems s m))) = fst (sortItems s m))
  /\ (priced m -> sorted_by s "price_asc" \/ sorted_by_default s ->
      fst (sortItems s (fst (sortItems s m))) = fst (sortItems s m)).
Proof.
  split.
  - intros Hd [Hs|Hs]; eapply sortItems_twice;
      [now apply ranks_date_asc | now apply ranks_date_desc].
  - intros Hp [Hs|Hs]; eapply sortItems_twice;
      [now apply ranks_price_asc | now apply ranks_price_default].
Qed.

Lemma X3_witness :
  fst (sortItems (settings_sorted_by "date_desc")
         (fst (sortItems (settings_sorted_by "date_desc") sample)))
  = fst (sortItems (settings_sorted_by "date_desc") sample).
Proof.
  exact (proj1 (X3_sortItems_twice_is_once
                  (settings_sorted_by "date_desc") sample)
           sample_dated (or_intror eq_refl)).
Defined.

(** What [get] answers after a record was written and the map sorted. *)
Lemma set_then_sort_get s m asin it k :
  wf m ->
  Map_get k (items (fst (sortItems s (with_items m (Map_set asin it (items m))))))
  = rebuilt <$> (if String.eqb k asin then Some it else Map_get k (items m)).
Proof.
  intros Hwf. rewrite sortItems_get by (now apply Map_set_NoDup). simpl.
  destruct (String.eqb_spec k asin) as [->|Hne].
  - now rewrite Map_get_set_eq.
  - now rewrite Map_get_set_ne by congruence.
Qed.

(** X4.  [storeItemDOMElement] attaches the element and a tile built on it.
    The next sort, here through [updateItemTier] or [sortItems] itself,
    keeps the element and drops the tile: [getItemTile] then finds the
    record without one. *)
Theorem X4_tile_is_lost_at_the_next_sort
    (s : SettingsMgr.t) (asin : string) (el : Element) (tier : value)
    (m : ItemsMgr) :
  wf m ->
  Map_has asin (items m) = true ->
  exists m1 b,
    storeItemDOMElement asin el m = Return (m1, b)
    /\ getItemDOMElement asin m1 = Some (Some el)
    /\ getItemTile asin m1 = Some (Some el)
    /\ getItemDOMElement asin (fst (updateItemTier s asin tier m1))
       = Some (Some el)
    /\ getItemTile asin (fst (updateItemTier s asin tier m1)) = Some None
    /\ getItemDOMElement asin (fst (sortItems s m1)) = Some (Some el)
    /\ getItemTile asin (fst (sortItems s m1)) = Some None.
Proof.
  intros Hwf Hhas. unfold Map_has in Hhas.
  destruct (Map_get asin (items m)) as [item|] eqn:E; [|discriminate].
  unfold storeItemDOMElement. rewrite E.
  eexists. eexists. split; [reflexivity|].
  assert (Hwf1 : wf (with_items m
                       (Map_set asin
                          {| data := data item; element := Some el;
                             tile := Some el |} (items m))))
    by (now apply Map_set_NoDup).
  unfold getItemDOMElement, getItemTile, updateItemTier. simpl.
  rewrite !Map_get_set_eq. simpl.
  rewrite !set_then_sort_get by exact Hwf1.
  rewrite !sortItems_get by exact Hwf1. simpl.
  rewrite !String.eqb_refl, !Map_get_set_eq. simpl. auto 10.
Qed.

Lemma X4_witness :
  exists m1 b,
    storeItemDOMElement "B02" 7 sample = Return (m1, b)
    /\ getItemTile "B02" m1 = Some (Some 7)
    /\ getItemTile "B02"
         (fst (sortItems (settings_sorted_by "date_asc") m1)) = Some None.
Proof.
  destruct (X4_tile_is_lost_at_the_next_sort
              (settings_sorted_by "date_asc") "B02" 7 (JStr "gold") sample
              sample_wf eq_refl)
    as (m1 & b & H1 & _ & H3 & _ & _ & _ & H7).
  exists m1, b. auto.
Defined.

Section MapDeleteFacts.
Context {V : Type}.
Implicit Types (m : list (string * V)) (k : string).

Lemma Map_delete_absent k m : Map_get k m = None -> Map_delete k m = m.
Proof.
  induction m as [|[k' v'] r IH]; simpl; [reflexivity|].
  destruct (String.eqb k k'); [discriminate|]. intros H. now rewrite IH.
Qed.

Lemma Map_get_delete_ne k k' m :
  k <> k' -> Map_get k' (Map_delete k m) = Map_get k' m.
Proof.
  intros Hne. induction m as [|[k0 v0] r IH]; simpl; [reflexivity|].
  destruct (String.eqb_spec k k0) as [->|Hk]; simpl.
  - destruct (String.eqb_spec k' k0); [congruence | reflexivity].
  - now rewrite IH.
Qed.

Lemma Map_delete_keys k m :
  List.NoDup (keys m) ->
  keys (Map_delete k m)
  = List.filter (fun k' => negb (String.eqb k' k)) (keys m).
Proof.
  unfold keys. induction m as [|[k0 v0] r IH]; simpl; [reflexivity|].
  intros Hnd. apply List.NoDup_cons_iff in Hnd as [Hk0 Hnd].
  destruct (String.eqb_spec k k0) as [->|Hk]; simpl.
  - rewrite String.eqb_refl. simpl. symmetry.
    apply forallb_filter_id, forallb_forall. intros x Hx.
    destruct (String.eqb_spec x k0) as [->|]; [contradiction | reflexivity].
  - destruct (String.eqb_spec k0 k); [congruence|]. simpl. now rewrite IH.
Qed.
End MapDeleteFacts.

(** X5.  [removeAsin] takes exactly the record of that asin out: the other
    asins keep their order and their records, the set of image urls is not
    touched, and removing an asin that is not there changes nothing. *)
Theorem X5_removeAsin_removes_that_record_only (asin : string) (m : ItemsMgr) :
  wf m ->
  asins (removeAsin asin m)
  = List.filter (fun k => negb (String.eqb k asin)) (asins m)
  /\ Map_has asin (items (removeAsin asin m)) = false
  /\ (forall k, k <> asin ->
        Map_get k (items (removeAsin asin m)) = Map_get k (items m))
  /\ imageUrls (removeAsin asin m) = imageUrls m
  /\ (Map_has asin (items m) = false -> removeAsin asin m = m).
Proof.
  intros Hwf. unfold asins, removeAsin. simpl.
  pose proof (Map_delete_keys asin (items m) Hwf) as Hk.
  split; [exact Hk|]. split; [|split; [|split]].
  - unfold Map_has.
    destruct (Map_get asin (Map_delete asin (items m))) as [v|] eqn:E;
      [|reflexivity].
    apply Map_get_In in E.
    apply (in_map fst) in E. fold (keys (Map_delete asin (items m))) in E.
    rewrite Hk in E. apply filter_In in E as [_ E]. simpl in E.
    now rewrite String.eqb_refl in E.
  - intros k Hne. apply Map_get_delete_ne. congruence.
  - reflexivity.
  - unfold Map_has. destruct (Map_get asin (items m)) eqn:E; [discriminate|].
    intros _. rewrite Map_delete_absent by exact E. now destruct m.
Qed.

Lemma X5_witness :
  asins (removeAsin "B02" sample) = ["B01"; "B03"]
  /\ Map_has "B02" (items (removeAsin "B02" sample)) = false.
Proof.
  destruct (X5_removeAsin_removes_that_record_only "B02" sample sample_wf)
    as (H1 & H2 & _).
  split; [rewrite H1; reflexivity | exact H2].
Defined.

(** X6.  [updateItemTier] on an asin of the catalog answers [true] and
    writes the tier, leaving the other fields of the record and the other
    records as they are; the last of two writes wins.  On an unknown asin
    it answers [false] and changes nothing. *)
Theorem X6_updateItemTier_last_write_wins
    (s : SettingsMgr.t) (asin : string) (t1 t2 : value) (m : ItemsMgr)
    (d : gmap string value) :
  wf m ->
  (record asin m = Some d ->
   let r1 := updateItemTier s asin t1 m in
   let r2 := updateItemTier s asin t2 (fst r1) in
   snd r1 = true /\ snd r2 = true
   /\ record asin (fst r1) = Some (<["tier" := t1]> d)
   /\ record asin (fst r2) = Some (<["tier" := t2]> d)
   /\ (forall k, k <> asin -> record k (fst r2) = record k m))
  /\ (record asin m = None -> updateItemTier s asin t1 m = (m, false)).
Proof.
  intros Hwf. unfold record. split.
  - destruct (Map_get asin (items m)) as [item|] eqn:E; [|discriminate].
    intros [= <-]. simpl.
    assert (H1 : forall k,
      Map_get k (items (fst (updateItemTier s asin t1 m)))
      = rebuilt <$> (if String.eqb k asin
                     then Some (with_data item (<["tier" := t1]> (data item)))
                     else Map_get k (items m))).
    { intros k. unfold updateItemTier. rewrite E. simpl.
      now apply set_then_sort_get. }
    assert (Hwf1 : wf (fst (updateItemTier s asin t1 m))).
    { unfold updateItemTier. rewrite E. simpl.
      apply sortItems_wf. now apply Map_set_NoDup. }
    assert (E1 := H1 asin). rewrite String.eqb_refl in E1. simpl in E1.
    assert (H2 : forall k,
      Map_get k (items (fst (updateItemTier s asin t2
                               (fst (updateItemTier s asin t1 m)))))
      = rebuilt <$> (if String.eqb k asin
                     then Some (with_data (rebuilt (with_data item
                                  (<["tier" := t1]> (data item))))
                                  (<["tier" := t2]> (<["tier" := t1]> (data item))))
                     else Map_get k (items (fst (updateItemTier s asin t1 m))))).
    { intros k. unfold updateItemTier at 1. rewrite E1. simpl.
      now apply set_then_sort_get. }
    split; [unfold updateItemTier; now rewrite E|].
    split; [unfold updateItemTier at 1; now rewrite E1|].
    split; [now rewrite E1|]. split.
    + rewrite H2, String.eqb_refl. simpl. now rewrite insert_insert_eq.
    + intros k Hne. rewrite H2, H1.
      destruct (String.eqb_spec k asin); [contradiction|].
      now destruct (Map_get k (items m)).
  - destruct (Map_get asin (items m)) as [item|] eqn:E; [discriminate|].
    intros _. unfold updateItemTier. now rewrite E.
Qed.

Lemma X6_witness :
  record "B03" (fst (updateItemTier (settings_sorted_by "date_asc") "B03"
                       (JStr "gold") sample))
  = Some (<["tier" := JStr "gold"]> (listing 200 (num 5) (num 5))).
Proof.
  exact (proj1 (proj2 (proj2
    (proj1 (X6_updateItemTier_last_write_wins
              (settings_sorted_by "date_asc") "B03" (JStr "gold")
              (JStr "silver") sample (listing 200 (num 5) (num 5)) sample_wf)
       eq_refl)))).
Defined.

Lemma Map_has_get {V : Type} k (m : list (string * V)) v :
  Map_get k m = Some v -> Map_has k m = true.
Proof. unfold Map_has. now intros ->. Qed.

(** X7.  No operation other than [removeAsin] loses an asin, and only
    [addItemData] on an unknown asin adds one: [updateItemETV],
    [updateItemTier], [markItemUnavailable] and [storeItemDOMElement] keep
    the asins of the catalog, [addItemData] keeps them when the asin is
    known and adds that one asin when it is not. *)
Theorem X7_asins_are_kept (s : SettingsMgr.t) (m : ItemsMgr) :
  (forall asin etv,
     Permutation (asins (fst (updateItemETV s asin etv m))) (asins m))
  /\ (forall asin tier,
        Permutation (asins (fst (updateItemTier s asin tier m))) (asins m))
  /\ (forall asin, asins (markItemUnavailable asin m) = asins m)
  /\ (forall asin el m' b,
        storeItemDOMElement asin el m = Return (m', b) -> asins m' = asins m)
  /\ (forall now asin itemData,
        Permutation (asins (fst (addItemData s now asin itemData m)))
                    (if Map_has asin (items m) then asins m
                     else asins m ++ [asin])).
Proof.
  unfold asins. repeat split.
  - intros asin etv. unfold updateItemETV.
    destruct (Map_get asin (items m)) as [item|] eqn:E; simpl; [|reflexivity].
    rewrite sortItems_keys. simpl. unfold keys.
    now rewrite (Map_set_keys_present _ _ _ (Map_has_get _ _ _ E)).
  - intros asin tier. unfold updateItemTier.
    destruct (Map_get asin (items m)) as [item|] eqn:E; simpl; [|reflexivity].
    rewrite sortItems_keys. simpl. unfold keys.
    now rewrite (Map_set_keys_present _ _ _ (Map_has_get _ _ _ E)).
  - intros asin. unfold markItemUnavailable.
    destruct (Map_get asin (items m)) as [item|] eqn:E; [|reflexivity].
    simpl. unfold keys.
    now rewrite (Map_set_keys_present _ _ _ (Map_has_get _ _ _ E)).
  - intros asin el m' b. unfold storeItemDOMElement.
    destruct (Map_get asin (items m)) as [item|] eqn:E; [|discriminate].
    intros [= <- _]. simpl. unfold keys.
    now rewrite (Map_set_keys_present _ _ _ (Map_has_get _ _ _ E)).
  - intros now asin itemData. unfold addItemData, Map_has.
    destruct (Map_get asin (items m)) as [existing|] eqn:E; simpl;
      rewrite Map_get_set_eq; rewrite sortItems_keys; simpl; unfold keys;
      rewrite Map_set_keys_present
        by (apply (Map_has_get asin _ _ (Map_get_set_eq _ _ _))).
    + now rewrite (Map_set_keys_present _ _ _ (Map_has_get _ _ _ E)).
    + rewrite Map_set_keys_absent; [reflexivity|].
      unfold Map_has. now rewrite E.
Qed.

Lemma X7_witness :
  exists m' b,
    storeItemDOMElement "B01" 3 sample = Return (m', b)
    /\ asins m' = ["B01"; "B02"; "B03"].
Proof.
  eexists. eexists. split; [reflexivity|].
  exact (proj1 (proj2 (proj2 (proj2
           (X7_asins_are_kept (settings_sorted_by "date_asc") sample))))
           "B01" 3 _ _ eq_refl).
Defined.

Lemma stored_other k v :
  k <> "etv_min" -> k <> "etv_max" -> stored k v = v.
Proof.
  intros H1 H2. unfold stored.
  destruct (String.eqb_spec k "etv_min"); [contradiction|].
  destruct (String.eqb_spec k "etv_max"); [contradiction|]. reflexivity.
Qed.

(** X8.  [addItemData] stamps [dateAdded] with the current date when it
    creates a record, whatever [itemData] carries under that name, and an
    update whose [itemData] has no [dateAdded] leaves the stamp as it
    is. *)
Theorem X8_dateAdded_is_stamped_at_creation
    (s : SettingsMgr.t) (now : number) (asin : string)
    (itemData : gmap string value) (m : ItemsMgr) :
  wf m ->
  (record asin m = None ->
   exists d', record asin (fst (addItemData s now asin itemData m)) = Some d'
              /\ d' !! "dateAdded" = Some (JDate now))
  /\ (forall d, record asin m = Some d ->
        itemData !! "dateAdded" = None ->
        exists d', record asin (fst (addItemData s now asin itemData m))
                   = Some d'
                   /\ d' !! "dateAdded" = d !! "dateAdded").
Proof.
  intros Hwf.
  destruct (addItemData_get s now asin itemData m Hwf) as (Hget & _ & _).
  unfold record. rewrite Hget. simpl.
  destruct (Map_get asin (items m)) as [existing|] eqn:E; simpl.
  - split; [discriminate|]. intros d [= <-] Hnone.
    eexists. split; [reflexivity|].
    rewrite normalised_lookup, (lookup_union_r _ _ _ Hnone).
    destruct (data existing !! "dateAdded"); simpl; [|reflexivity].
    now rewrite stored_other by discriminate.
  - split; [|discriminate]. intros _.
    eexists. split; [reflexivity|].
    rewrite normalised_lookup, lookup_insert_eq. simpl.
    now rewrite stored_other by discriminate.
Qed.

Lemma X8_witness :
  exists d', record "B09"
               (fst (addItemData (settings_sorted_by "date_asc") (Fin 42)
                       "B09" {[ "dateAdded" := JStr "1999" ]} sample))
             = Some d'
             /\ d' !! "dateAdded" = Some (JDate (Fin 42)).
Proof.
  exact (proj1 (X8_dateAdded_is_stamped_at_creation
                  (settings_sorted_by "date_asc") (Fin 42) "B09"
                  {[ "dateAdded" := JStr "1999" ]} sample sample_wf)
           eq_refl).
Defined.

Lemma same_value_zero_string u v :
  same_value_zero (JStr u) v = true <-> v = JStr u.
Proof.
  destruct v; simpl; split; try discriminate.
  - intros H. apply String.eqb_eq in H. now subst.
  - intros [= ->]. apply String.eqb_refl.
Qed.

Lemma existsb_same_string u l :
  existsb (same_value_zero (JStr u)) l = true <-> In (JStr u) l.
Proof.
  rewrite existsb_exists. split.
  - intros (v & Hin & Hv). apply same_value_zero_string in Hv. now subst.
  - intros Hin. exists (JStr u). split; [exact Hin|].
    now apply same_value_zero_string.
Qed.

Lemma addItemData_imageUrls s now asin itemData m :
  imageUrls (fst (addItemData s now asin itemData m))
  = if records_image s itemData
    then Set_add (prop itemData "img_url") (imageUrls m)
    else imageUrls m.
Proof.
  unfold addItemData, records_image.
  destruct (Map_get asin (items m)); simpl; rewrite Map_get_set_eq;
    now rewrite sortItems_imageUrls.
Qed.

(** X9.  The set of image urls only grows, and without repeats.  For an
    [itemData] whose [img_url] is a string, [addItemData] keeps every url
    already recorded and keeps the urls distinct; it records the url when it
    is not empty and the duplicate-thumbnail setting is on, and leaves the
    set as it is otherwise. *)
Theorem X9_imageUrls_grow_without_repeats
    (s : SettingsMgr.t) (now : number) (asin : string)
    (itemData : gmap string value) (m : ItemsMgr) (u : string) :
  prop itemData "img_url" = JStr u ->
  let m' := fst (addItemData s now asin itemData m) in
  incl (imageUrls m) (imageUrls m')
  /\ (List.NoDup (imageUrls m) -> List.NoDup (imageUrls m'))
  /\ (records_image s itemData = true -> In (JStr u) (imageUrls m'))
  /\ (records_image s itemData = false -> imageUrls m' = imageUrls m)
  /\ (u = "" -> imageUrls m' = imageUrls m).
Proof.
  intros Hu m'. unfold m'. rewrite addItemData_imageUrls, Hu.
  unfold Set_add.
  assert (Hempty : u = "" -> records_image s itemData = false).
  { intros ->. unfold records_image. now rewrite Hu. }
  destruct (records_image s itemData) eqn:R.
  - destruct (existsb (same_value_zero (JStr u)) (imageUrls m)) eqn:X;
      (split; [|split; [|split; [|split]]]).
    + apply incl_refl.
    + trivial.
    + intros _. now apply existsb_same_string.
    + discriminate.
    + intros Hu0. now apply Hempty in Hu0.
    + now apply incl_appl, incl_refl.
    + intros Hnd. apply List.NoDup_app;
        [exact Hnd | repeat constructor; simpl; tauto|].
      intros x Hx [<-|[]].
      apply existsb_same_string in Hx. congruence.
    + intros _. apply in_or_app. right. now left.
    + discriminate.
    + intros Hu0. now apply Hempty in Hu0.
  - split; [|split; [|split; [|split]]]; trivial; try discriminate.
    apply incl_refl.
Qed.

Lemma X9_witness :
  let s :=
    {| SettingsMgr.settings :=
         {[ "notification" :=
              SettingsMgr.Object
                {[ "monitor" :=
                     SettingsMgr.Object
                       {[ "hideDuplicateThumbnail" :=
                            SettingsMgr.Primitive (JBool true) ]} ]} ]};
       SettingsMgr.defaultSettings := ∅ |} in
  In (JStr "lamp.jpg")
     (imageUrls (fst (addItemData s (Fin 0) "B09"
                        {[ "img_url" := JStr "lamp.jpg" ]} sample))).
Proof.
  intros s.
  exact (proj1 (proj2 (proj2
    (X9_imageUrls_grow_without_repeats s (Fin 0) "B09"
       {[ "img_url" := JStr "lamp.jpg" ]} sample "lamp.jpg" eq_refl)))
    eq_refl).
Defined.

Lemma flagged_set m a it asin :
  flagged asin m ->
  (a = asin -> data it !! "unavailable" = Some (JBool true)) ->
  flagged asin (with_items m (Map_set a it (items m))).
Proof.
  intros (d & Hd & Hf) Hit. unfold flagged, record in *. simpl.
  destruct (String.eqb_spec a asin) as [->|Hne].
  - rewrite Map_get_set_eq. simpl. eauto.
  - rewrite Map_get_set_ne by exact Hne. eauto.
Qed.

Lemma flagged_sortItems s m asin :
  wf m -> flagged asin m -> flagged asin (fst (sortItems s m)).
Proof.
  intros Hwf (d & Hd & Hf). exists d. now rewrite sortItems_record.
Qed.

Lemma flagged_data m asin item :
  flagged asin m -> Map_get asin (items m) = Some item ->
  data item !! "unavailable" = Some (JBool true).
Proof.
  intros (d & Hd & Hf) E. unfold record in Hd. rewrite E in Hd.
  now injection Hd as ->.
Qed.

Lemma updated_bounds_other_field (d : gmap string value) etv k :
  k <> "etv_min" -> k <> "etv_max" ->
  let d1 := if logical_not (prop d "etv_min") || less etv (prop d "etv_min")
            then <["etv_min" := etv]> d else d in
  let d2 := if logical_not (prop d1 "etv_max") || greater etv (prop d1 "etv_max")
            then <["etv_max" := etv]> d1 else d1 in
  d2 !! k = d !! k.
Proof.
  intros H1 H2 d1 d2. unfold d2, d1.
  repeat match goal with
         | |- context [if ?c then _ else _] => destruct c
         end;
    now rewrite ?lookup_insert_ne by congruence.
Qed.

(** X10.  Once a record carries the unavailable flag, [storeItemDOMElement]
    on it answers [true], and the flag stays through [updateItemETV],
    [updateItemTier], [markItemUnavailable], [storeItemDOMElement], the
    removal of another asin, and through [addItemData] on another asin or
    with an [itemData] that has no [unavailable] field. *)
Theorem X10_unavailable_flag_stays
    (s : SettingsMgr.t) (asin : string) (m : ItemsMgr) :
  wf m -> flagged asin m ->
  (forall el, exists m', storeItemDOMElement asin el m = Return (m', true))
  /\ (forall a etv, flagged asin (fst (updateItemETV s a etv m)))
  /\ (forall a tier, flagged asin (fst (updateItemTier s a tier m)))
  /\ (forall a, flagged asin (markItemUnavailable a m))
  /\ (forall a el m' b,
        storeItemDOMElement a el m = Return (m', b) -> flagged asin m')
  /\ (forall a, a <> asin -> flagged asin (removeAsin a m))
  /\ (forall now a itemData,
        a <> asin \/ itemData !! "unavailable" = None ->
        flagged asin (fst (addItemData s now a itemData m))).
Proof.
  intros Hwf Hf. split; [|split; [|split; [|split; [|split; [|split]]]]].
  - intros el. unfold storeItemDOMElement.
    destruct Hf as (d & Hd & Hflag). unfold record in Hd.
    destruct (Map_get asin (items m)) as [item|] eqn:E; [|discriminate].
    injection Hd as <-. eexists.
    now rewrite (prop_lookup _ _ _ Hflag).
  - intros a etv. unfold updateItemETV.
    destruct (Map_get a (items m)) as [item|] eqn:E; simpl; [|exact Hf].
    apply flagged_sortItems; [now apply Map_set_NoDup|].
    apply flagged_set; [exact Hf|]. intros ->. simpl.
    rewrite updated_bounds_other_field by discriminate.
    now apply (flagged_data m asin).
  - intros a tier. unfold updateItemTier.
    destruct (Map_get a (items m)) as [item|] eqn:E; simpl; [|exact Hf].
    apply flagged_sortItems; [now apply Map_set_NoDup|].
    apply flagged_set; [exact Hf|]. intros ->. simpl.
    rewrite lookup_insert_ne by discriminate.
    now apply (flagged_data m asin).
  - intros a. unfold markItemUnavailable.
    destruct (Map_get a (items m)) as [item|] eqn:E; [|exact Hf].
    apply flagged_set; [exact Hf|]. intros _. simpl. apply lookup_insert_eq.
  - intros a el m' b. unfold storeItemDOMElement.
    destruct (Map_get a (items m)) as [item|] eqn:E; [|discriminate].
    intros [= <- _]. apply flagged_set; [exact Hf|]. intros ->. simpl.
    now apply (flagged_data m asin).
  - intros a Hne. destruct Hf as (d & Hd & Hflag). exists d.
    split; [|exact Hflag]. unfold record, removeAsin in *. simpl.
    now rewrite Map_get_delete_ne.
  - intros now a itemData Hcase.
    destruct Hf as (d & Hd & Hflag). unfold flagged, record in *.
    destruct (String.eqb_spec a asin) as [->|Hne].
    + destruct Hcase as [Hc|Hnone]; [contradiction|].
      destruct (addItemData_get s now asin itemData m Hwf) as (Hget & _ & _).
      rewrite Hget. simpl.
      destruct (Map_get asin (items m)) as [existing|] eqn:E; [|discriminate].
      injection Hd as <-. eexists. split; [reflexivity|].
      rewrite normalised_lookup, (lookup_union_r _ _ _ Hnone), Hflag.
      reflexivity.
    + rewrite addItemData_get_other by (exact Hwf || congruence).
      destruct (Map_get asin (items m)) as [it|]; [|discriminate].
      injection Hd as <-. simpl. eauto.
Qed.

Lemma X10_witness :
  let m := markItemUnavailable "B02" sample in
  flagged "B02"
    (fst (addItemData (settings_sorted_by "date_asc") (Fin 0) "B02"
            {[ "title" := JStr "Lamp" ]} m)).
Proof.
  intros m.
  assert (Hwf : wf m) by (repeat constructor; simpl; intuition discriminate).
  assert (Hf : flagged "B02" m).
  { eexists. split; [reflexivity|]. reflexivity. }
  exact (proj2 (proj2 (proj2 (proj2 (proj2 (proj2
    (X10_unavailable_flag_stays (settings_sorted_by "date_asc") "B02" m
       Hwf Hf))))))
    (Fin 0) "B02" {[ "title" := JStr "Lamp" ]} (or_intror eq_refl)).
Defined.

Lemma updated_bounds (d : gmap string value) etv :
  let d1 := if logical_not (prop d "etv_min") || less etv (prop d "etv_min")
            then <["etv_min" := etv]> d else d in
  let d2 := if logical_not (prop d1 "etv_max") || greater etv (prop d1 "etv_max")
            then <["etv_max" := etv]> d1 else d1 in
  prop d2 "etv_min"
  = (if logical_not (prop d "etv_min") || less etv (prop d "etv_min")
     then etv else prop d "etv_min")
  /\ prop d2 "etv_max"
     = (if logical_not (prop d "etv_max") || greater etv (prop d "etv_max")
        then etv else prop d "etv_max").
Proof.
  intros d1 d2.
  assert (Hmax1 : prop d1 "etv_max" = prop d "etv_max").
  { unfold d1. case (_ || _); [|reflexivity].
    now rewrite prop_insert_ne by discriminate. }
  split.
  - unfold d2. case (_ || _).
    + rewrite prop_insert_ne by discriminate. unfold d1.
      case (_ || _); [apply prop_insert_eq | reflexivity].
    + unfold d1. case (_ || _); [apply prop_insert_eq | reflexivity].
  - unfold d2. rewrite Hmax1. case (_ || _); [apply prop_insert_eq | exact Hmax1].
Qed.

(** X11.  After [updateItemETV] with a finite number on a record whose
    bounds are null or finite numbers, both bounds are finite numbers and
    the observed value lies between them. *)
Theorem X11_observed_value_lies_within_the_bounds
    (s : SettingsMgr.t) (asin : string) (q : Q) (m : ItemsMgr)
    (d : gmap string value) :
  wf m ->
  record asin m = Some d ->
  numeric_or_null (prop d "etv_min") ->
  numeric_or_null (prop d "etv_max") ->
  exists d' lo hi,
    record asin (fst (updateItemETV s asin (JNum (Fin q)) m)) = Some d'
    /\ prop d' "etv_min" = JNum (Fin lo)
    /\ prop d' "etv_max" = JNum (Fin hi)
    /\ (lo <= q)%Q /\ (q <= hi)%Q.
Proof.
  intros Hwf Hd Hmin Hmax. unfold record in Hd.
  destruct (Map_get asin (items m)) as [item|] eqn:E; [|discriminate].
  injection Hd as <-.
  destruct (updateItemETV_get s asin (JNum (Fin q)) m item Hwf E)
    as (Hget & _ & _).
  pose proof (updated_bounds (data item) (JNum (Fin q))) as Hb.
  cbv zeta in Hb, Hget.
  match type of Hb with
  | prop ?D _ = _ /\ _ => set (D0 := D) in *
  end.
  assert (Hrec : record asin (fst (updateItemETV s asin (JNum (Fin q)) m))
                 = Some D0) by (unfold record; now rewrite Hget).
  destruct Hb as (Hlo & Hhi). clearbody D0. clear Hget.
  exists D0.
  assert (Hcase : forall v : value, numeric_or_null v ->
            (logical_not v = true)
            \/ exists a, v = JNum (Fin a) /\ logical_not v = false).
  { intros v [->|[->|[a ->]]]; [now left | now left |].
    unfold logical_not. simpl. destruct (Qzero a); [now left | right; eauto]. }
  destruct (Hcase _ Hmin) as [Nmin|(a & Emin & Nmin)];
    destruct (Hcase _ Hmax) as [Nmax|(b & Emax & Nmax)];
    rewrite Nmin in Hlo; rewrite Nmax in Hhi; simpl in Hlo, Hhi.
  - exists q, q. repeat split; try assumption; apply Qle_refl.
  - rewrite Emax in Hhi. unfold greater in Hhi. simpl in Hhi.
    destruct (Qltb b q) eqn:L.
    + exists q, q. repeat split; try assumption; apply Qle_refl.
    + exists q, b. repeat split; try assumption; [apply Qle_refl|].
      now apply Qltb_ge.
  - rewrite Emin in Hlo. simpl in Hlo.
    destruct (Qltb q a) eqn:L.
    + exists q, q. repeat split; try assumption; apply Qle_refl.
    + exists a, q. repeat split; try assumption; [|apply Qle_refl].
      now apply Qltb_ge.
  - rewrite Emin in Hlo. rewrite Emax in Hhi.
    unfold greater in Hhi. simpl in Hlo, Hhi.
    destruct (Qltb q a) eqn:L; destruct (Qltb b q) eqn:L';
      eexists; eexists; (split; [exact Hrec|]);
      (split; [exact Hlo|]); (split; [exact Hhi|]);
      rewrite ?Qltb_ge in *; split; try apply Qle_refl; assumption.
Qed.

Lemma X11_witness :
  exists d' lo hi,
    record "B03" (fst (updateItemETV (settings_sorted_by "date_asc") "B03"
                         (JNum (Fin 9)) sample)) = Some d'
    /\ prop d' "etv_min" = JNum (Fin lo)
    /\ prop d' "etv_max" = JNum (Fin hi)
    /\ (lo <= 9)%Q /\ (9 <= hi)%Q.
Proof.
  apply (X11_observed_value_lies_within_the_bounds
           (settings_sorted_by "date_asc") "B03" 9%Q sample
           (listing 200 (num 5) (num 5)) sample_wf eq_refl).
  - right. right. now exists (inject_Z 5).
  - right. right. now exists (inject_Z 5).
Defined.


(* ===================================================================== *)
(** ** Further properties of the bulk buffer *)
(* ===================================================================== *)

Lemma feed_passthrough (es : list (gmap string value)) (st : State) :
  fetch100 st = false -> feed es st = (st, map forwarded es).
Proof.
  intros Hb. induction es as [|e r IH]; simpl; [reflexivity|].
  unfold seq, dataBuffering at 1. rewrite Hb. simpl. now rewrite IH.
Qed.

(** X12.  A whole resync cycle.  While buffering, the events that precede
    the first one of type [fetchRecentItemsEnd] are held back; that event
    sends one batch, made of what the buffer held, those events and the
    closing event, in arrival order; every event after it is forwarded on
    its own, in order, and the buffer stays empty. *)
Theorem X12_batch_precedes_the_live_events
    (st : State) (es live : list (gmap string value))
    (x : gmap string value) :
  fetch100 st = true ->
  Forall (fun e => is_sentinel e = false) es ->
  is_sentinel x = true ->
  feed (es ++ x :: live) st
  = (set_buffer false [] st,
     SendMessageToAllTabs (Fetch100 (dataBuffer st ++ es ++ [x]))
     :: map forwarded live).
Proof.
  intros Hb Hes Hx.
  rewrite feed_app, feed_buffers by assumption.
  simpl. unfold seq, dataBuffering at 1. simpl.
  unfold is_sentinel in Hx. rewrite Hx.
  rewrite feed_passthrough by reflexivity. simpl.
  now rewrite <- app_assoc.
Qed.

Lemma X12_witness :
  feed [event "B01"; event "B02"; typed "fetchRecentItemsEnd"; event "B03"]
       buffering
  = (initial,
     [SendMessageToAllTabs
        (Fetch100 [event "B01"; event "B02"; typed "fetchRecentItemsEnd"]);
      forwarded (event "B03")]).
Proof.
  exact (X12_batch_precedes_the_live_events buffering
           [event "B01"; event "B02"] [event "B03"]
           (typed "fetchRecentItemsEnd") eq_refl
           ltac:(repeat constructor) eq_refl).
Defined.

(* ===================================================================== *)
(** ** Further properties of the connection *)
(* ===================================================================== *)

Lemma connectWebSocket_ready Settings app_version st :
  logical_not (SettingsMgr.get Settings "notification.active" true) = false ->
  strict_eq (countryCode st) JNull = false ->
  socket_connected st = false ->
  socket_connecting st = false ->
  exists q,
    connectWebSocket Settings app_version st
    = (set_socket (Some {| connected := false |}) true st, [IoConnect q])
    /\ q !! "countryCode" = Some (countryCode st).
Proof.
  intros Ha Hc Hs Hg. unfold connectWebSocket. rewrite Ha, Hc, Hs, Hg.
  eexists. split; [reflexivity|]. apply lookup_insert_eq.
Qed.

(** X13.  The life of a connection.  With notifications on and the country
    known, a worker that is neither connected nor connecting makes one
    attempt and is then connecting.  Once the "connect" handler has run the
    tabs are told [wsOpen] and further calls do nothing.  Once the
    "disconnect" handler has run the tabs are told [wsClosed] and the next
    call makes one attempt again; so does the next call after the
    "connect_error" handler. *)
Theorem X13_connection_life_cycle
    (Settings : SettingsMgr.t) (app_version : value) (st : State) :
  logical_not (SettingsMgr.get Settings "notification.active" true) = false ->
  strict_eq (countryCode st) JNull = false ->
  socket_connected st = false ->
  socket_connecting st = false ->
  let connect := connectWebSocket Settings app_version in
  let st1 := fst (connect st) in
  let st2 := fst (on_connect st1) in
  let st3 := fst (on_disconnect st2) in
  attempts (snd (connect st)) = 1%nat
  /\ socket_connecting st1 = true /\ socket_connected st1 = false
  /\ snd (on_connect st1) = [forwarded (typed "wsOpen")]
  /\ socket_connected st2 = true
  /\ connect st2 = (st2, [])
  /\ snd (on_disconnect st2) = [forwarded (typed "wsClosed")]
  /\ attempts (snd (connect st3)) = 1%nat
  /\ attempts (snd (connect (fst (on_connect_error st1)))) = 1%nat.
Proof.
  intros Ha Hc Hs Hg connect st1 st2 st3.
  destruct (connectWebSocket_ready Settings app_version st Ha Hc Hs Hg)
    as (q & E & _).
  assert (Hready : forall x,
            countryCode x = countryCode st ->
            socket_connected x = false -> socket_connecting x = false ->
            attempts (snd (connectWebSocket Settings app_version x)) = 1%nat).
  { intros x Hx Hx1 Hx2.
    destruct (connectWebSocket_ready Settings app_version x)
      as (q' & E' & _); try assumption; [now rewrite Hx|]. now rewrite E'. }
  unfold st3, st2, st1, connect. rewrite E. cbn [fst snd].
  split; [reflexivity|]. split; [reflexivity|]. split; [reflexivity|].
  split; [reflexivity|]. split; [reflexivity|].
  split; [now apply connectWebSocket_busy; left|].
  split; [reflexivity|].
  split; apply Hready; reflexivity.
Qed.

Lemma X13_witness :
  let st := set_countryCode (JStr "ca") initial in
  attempts (snd (connectWebSocket notifying (JStr "3.5.5") st)) = 1%nat
  /\ connectWebSocket notifying (JStr "3.5.5")
       (fst (on_connect (fst (connectWebSocket notifying (JStr "3.5.5") st))))
     = (fst (on_connect (fst (connectWebSocket notifying (JStr "3.5.5") st))),
        []).
Proof.
  intros st.
  destruct (X13_connection_life_cycle notifying (JStr "3.5.5") st
              eq_refl eq_refl eq_refl eq_refl)
    as (H1 & _ & _ & _ & _ & H6 & _).
  split; [exact H1 | exact H6].
Defined.

(** X14.  No attempt without a country.  While the country code is null,
    [connectWebSocket] does nothing and does not raise the connecting flag.
    After a "setCountryCode" message with a country other than null, the
    next call makes the attempt, and the query of that attempt carries the
    country of the message. *)
Theorem X14_connection_waits_for_the_country
    (Settings : SettingsMgr.t) (app_version request_variants : value)
    (st : State) (data : gmap string value) :
  logical_not (SettingsMgr.get Settings "notification.active" true) = false ->
  countryCode st = JNull ->
  socket_connected st = false ->
  socket_connecting st = false ->
  prop data "type" = JStr "setCountryCode" ->
  strict_eq (prop data "countryCode") JNull = false ->
  connectWebSocket Settings app_version st = (st, [])
  /\ exists st' q,
      processBroadcastMessage Settings app_version request_variants data st
      = (st', [])
      /\ connectWebSocket Settings app_version st'
         = (set_socket (Some {| connected := false |}) true st', [IoConnect q])
      /\ q !! "countryCode" = Some (prop data "countryCode").
Proof.
  intros Ha Hc Hs Hg Ht Hd. split.
  - unfold connectWebSocket. rewrite Ha, Hs, Hc. reflexivity.
  - assert (E : processBroadcastMessage Settings app_version request_variants
                  data st
                = (set_countryCode (prop data "countryCode") st, [])).
    { unfold processBroadcastMessage. rewrite Ht. reflexivity. }
    destruct (connectWebSocket_ready Settings app_version
                (set_countryCode (prop data "countryCode") st))
      as (q & E' & Hq); try assumption.
    exists (set_countryCode (prop data "countryCode") st), q. auto.
Qed.

Lemma X14_witness :
  exists st' q,
    processBroadcastMessage notifying (JStr "3.5.5") (JBool false)
      {[ "type" := JStr "setCountryCode"; "countryCode" := JStr "ca" ]}
      initial = (st', [])
    /\ connectWebSocket notifying (JStr "3.5.5") st'
       = (set_socket (Some {| connected := false |}) true st', [IoConnect q])
    /\ q !! "countryCode" = Some (JStr "ca").
Proof.
  exact (proj2 (X14_connection_waits_for_the_country notifying (JStr "3.5.5")
                  (JBool false) initial
                  {[ "type" := JStr "setCountryCode";
                     "countryCode" := JStr "ca" ]}
                  eq_refl eq_refl eq_refl eq_refl eq_refl eq_refl)).
Defined.

(* ===================================================================== *)
(** ** Further properties of the reload timer *)
(* ===================================================================== *)

Lemma In_filter_ne (id : nat) (l : list (nat * (Z * Callback))) t :
  In t (filter (fun t => fst t <> id) l) <-> In t l /\ fst t <> id.
Proof. rewrite <- !list_elem_of_In, list_elem_of_filter. tauto. Qed.

Lemma no_timers_left (l : list (nat * (Z * Callback))) :
  (forall t, ~ In t l) -> l = [].
Proof.
  destruct l as [|t r]; [reflexivity|]. intros H. destruct (H t). now left.
Qed.

Lemma timers_cleared_spec st :
  tracked st ->
  timers (timers_cleared st) = []
  /\ displayTimer (timers_cleared st) = None
  /\ reloadTimer (timers_cleared st) = None
  /\ nextTimerId (timers_cleared st) = nextTimerId st
  /\ socket_connected (timers_cleared st) = socket_connected st
  /\ countryCode (timers_cleared st) = countryCode st.
Proof.
  intros Ht. unfold timers_cleared.
  destruct (displayTimer st) as [a|] eqn:Ea;
    destruct (reloadTimer st) as [b|] eqn:Eb; simpl; rewrite ?Eb; simpl;
    (split; [|repeat split; assumption || reflexivity]);
    apply no_timers_left; intros t Hin;
    rewrite ?In_filter_ne in Hin;
    repeat match type of Hin with _ /\ _ => destruct Hin as [Hin ?] end;
    destruct (Ht t Hin) as [E|E]; congruence.
Qed.

Lemma setReloadTimer_from_cleared Settings chrome_windows inRange tab timer st :
  setReloadTimer Settings chrome_windows inRange tab timer st
  = (if negb inRange then resetReloadTimer (1000 * 60 * 15)
     else
       (fun st =>
          when (may_ask Settings chrome_windows st)
            (when tab
               (emit (SocketEmit "reloadRequest"
                        (<["countryCode" := countryCode st]>
                           (identity Settings))))) st) ;;;
       (fun st =>
          let '(st1, id) := setTimeout (DisplayLog timer) 500 st in
          (set_displayTimer (Some id) st1, [])) ;;;
       (fun st =>
          let '(st1, id) := setTimeout NextReload timer st in
          (set_reloadTimer (Some id) st1, [])))
      (timers_cleared st).
Proof.
  unfold setReloadTimer, timers_cleared, may_ask.
  set (C := if negb inRange then _ else _).
  unfold seq.
  destruct (displayTimer st) as [a|];
    match goal with
    | |- context [reloadTimer ?x] => destruct (reloadTimer x)
    end;
    match goal with
    | |- _ = C ?y => destruct (C y) as [s o]
    end; reflexivity.
Qed.

Lemma setReloadTimer_installs Settings chrome_windows inRange tab timer st :
  tracked st ->
  let st' := fst (setReloadTimer Settings chrome_windows inRange tab timer st) in
  timers st' = installed inRange timer (nextTimerId st)
  /\ reloadTimer st'
     = Some (if inRange then S (nextTimerId st) else nextTimerId st)
  /\ displayTimer st' = (if inRange then Some (nextTimerId st) else None)
  /\ nextTimerId st'
     = (if inRange then S (S (nextTimerId st)) else S (nextTimerId st)).
Proof.
  intros Ht. rewrite setReloadTimer_from_cleared.
  destruct (timers_cleared_spec st Ht) as (H1 & H2 & H3 & H4 & _).
  destruct (timers_cleared st) as [f b c so sc dt rt ts nx]. simpl in *.
  subst. destruct inRange; simpl; [|repeat split].
  unfold seq, when.
  destruct (may_ask _ _ _); [destruct tab|]; simpl; repeat split.
Qed.

(** X15.  From a state in which every pending timer is the one that
    [displayTimer] or [reloadTimer] names, [setReloadTimer] leaves exactly
    the timers it installs: the log line and the next reload inside the
    time window, the quarter-hour wait outside it.  [reloadTimer] names the
    timer that will call [setReloadTimer] again, there is exactly one such
    timer, and the state is again one in which every pending timer is
    named. *)
Theorem X15_setReloadTimer_leaves_its_own_timers
    (Settings : SettingsMgr.t) (chrome_windows inRange tab : bool)
    (timer : Z) (st : State) :
  tracked st ->
  let st' := fst (setReloadTimer Settings chrome_windows inRange tab timer st) in
  timers st' = installed inRange timer (nextTimerId st)
  /\ reloadTimer st'
     = Some (if inRange then S (nextTimerId st) else nextTimerId st)
  /\ length (rearming st') = 1%nat
  /\ tracked st'.
Proof.
  intros Ht st'.
  destruct (setReloadTimer_installs Settings chrome_windows inRange tab
              timer st Ht) as (H1 & H2 & H3 & H4).
  fold st' in H1, H2, H3, H4.
  split; [exact H1|]. split; [exact H2|]. split.
  - unfold rearming. rewrite H1. now destruct inRange.
  - intros t Hin. rewrite H1 in Hin. rewrite H2, H3.
    destruct inRange; simpl in Hin.
    + destruct Hin as [<-|[<-|[]]]; simpl; [now left | now right].
    + destruct Hin as [<-|[]]. now right.
Qed.

Lemma X15_witness :
  let st := fst (resetReloadTimer 3600000 initial) in
  timers (fst (setReloadTimer notifying true true false 300000 st))
  = installed true 300000 2.
Proof.
  intros st.
  assert (Ht : tracked st).
  { intros t [<-|[]]. now right. }
  exact (proj1 (X15_setReloadTimer_leaves_its_own_timers notifying true true
                  false 300000 st Ht)).
Defined.

Lemma pending_In id st t : pending id st = Some t -> In (id, t) (timers st).
Proof.
  unfold pending. destruct (find _ (timers st)) as [[i x]|] eqn:E;
    simpl; [|discriminate].
  intros [= <-]. apply find_some in E as [Hin Hid]. simpl in Hid.
  apply Nat.eqb_eq in Hid. now subst.
Qed.

Lemma tracked_clearTimeout id st : tracked st -> tracked (clearTimeout id st).
Proof.
  intros Ht t Hin. apply In_filter_ne in Hin as [Hin _]. exact (Ht t Hin).
Qed.

Lemma tracked_after_cooldown st :
  tracked st ->
  tracked (set_reloadTimer None
             match reloadTimer st with
             | Some r => clearTimeout r st
             | None => st
             end).
Proof.
  intros Ht t Hin. simpl. left.
  destruct (reloadTimer st) as [r|] eqn:E; simpl in *.
  - apply In_filter_ne in Hin as [Hin Hne].
    destruct (Ht t Hin) as [H|H]; [exact H | congruence].
  - destruct (Ht t Hin) as [H|H]; [exact H | congruence].
Qed.

Lemma setReloadTimer_rearms Settings chrome_windows inRange tab timer st :
  tracked st ->
  let st' := fst (setReloadTimer Settings chrome_windows inRange tab timer st) in
  tracked st'
  /\ timers st' = installed inRange timer (nextTimerId st)
  /\ length (rearming st') = 1%nat.
Proof.
  intros Ht st'.
  destruct (setReloadTimer_installs Settings chrome_windows inRange tab
              timer st Ht) as (H1 & H2 & H3 & H4).
  fold st' in H1, H2, H3, H4. split; [|split; [exact H1|]].
  - intros t Hin. rewrite H1 in Hin. rewrite H2, H3.
    destruct inRange; simpl in Hin.
    + destruct Hin as [<-|[<-|[]]]; simpl; [now left | now right].
    + destruct Hin as [<-|[]]. now right.
  - unfold rearming. rewrite H1. now destruct inRange.
Qed.

Lemma cooldown_callback Settings chrome_windows inRange tab timer st :
  ((fun s => match reloadTimer s with
             | Some r => (clearTimeout r s, [])
             | None => (s, [])
             end) ;;;
   update (set_reloadTimer None) ;;;
   setReloadTimer Settings chrome_windows inRange tab timer) st
  = setReloadTimer Settings chrome_windows inRange tab timer
      (set_reloadTimer None
         match reloadTimer st with
         | Some r => clearTimeout r st
         | None => st
         end).
Proof.
  unfold seq, update.
  destruct (reloadTimer st); simpl;
    match goal with
    | |- _ = ?f ?x => destruct (f x) as [s o]
    end; reflexivity.
Qed.

(** X16.  The firing of a pending timer, from a state in which every
    pending timer is named.  The log-line timer just leaves the table.  The
    timer of the next reload and the timer of a cooldown both end in
    [setReloadTimer]: afterwards the pending timers are exactly the ones it
    installs, so one timer, and only one, will call it again. *)
Theorem X16_a_firing_rearms_exactly_once
    (Settings : SettingsMgr.t) (chrome_windows : bool) (id : nat)
    (inRange tab : bool) (timer delay : Z) (cb : Callback) (st : State) :
  tracked st ->
  pending id st = Some (delay, cb) ->
  let st' := fst (fire Settings chrome_windows id inRange tab timer st) in
  tracked st'
  /\ match cb with
     | DisplayLog _ =>
         timers st' = filter (fun t => fst t <> id) (timers st)
     | _ =>
         timers st' = installed inRange timer (nextTimerId st)
         /\ length (rearming st') = 1%nat
     end.
Proof.
  intros Ht Hp st'. unfold st', fire. rewrite Hp.
  pose proof (tracked_clearTimeout id st Ht) as Ht1.
  destruct cb.
  - rewrite cooldown_callback.
    destruct (setReloadTimer_rearms Settings chrome_windows inRange tab timer
                _ (tracked_after_cooldown _ Ht1)) as (H1 & H2 & H3).
    split; [exact H1|]. split; [|exact H3].
    rewrite H2. destruct (reloadTimer (clearTimeout id st)); reflexivity.
  - simpl. split; [exact Ht1 | reflexivity].
  - destruct (setReloadTimer_rearms Settings chrome_windows inRange tab timer _ Ht1)
      as (H1 & H2 & H3).
    simpl in *. auto.
Qed.

Lemma X16_witness :
  let st := fst (setReloadTimer notifying true true false 300000 initial) in
  timers (fst (fire notifying true 2 true false 420000 st))
  = installed true 420000 3.
Proof.
  intros st.
  assert (Ht : tracked st).
  { apply (setReloadTimer_rearms notifying true true false 300000 initial).
    intros t []. }
  exact (proj1 (proj2 (X16_a_firing_rearms_exactly_once notifying true 2 true
                         false 420000 300000 NextReload st Ht eq_refl))).
Defined.

Lemma timers_cleared_may_ask Settings chrome_windows st :
  may_ask Settings chrome_windows (timers_cleared st)
  = may_ask Settings chrome_windows st
  /\ countryCode (timers_cleared st) = countryCode st.
Proof.
  unfold timers_cleared, may_ask, socket_connected.
  destruct (displayTimer st); simpl;
    match goal with
    | |- context [match ?x with Some _ => _ | None => _ end] =>
        match x with
        | reloadTimer _ => destruct x
        end
    end; simpl; split; reflexivity.
Qed.

(** X17.  What [setReloadTimer] sends.  It asks the server for a reload,
    once, exactly when the time is inside the window, the socket is
    connected, the country is known, the device is not a mobile one,
    [chrome.windows] exists and a monitor tab was found; the request carries
    the country and the two identifiers.  In every other case nothing leaves
    the worker. *)
Theorem X17_server_is_asked_only_inside_the_window
    (Settings : SettingsMgr.t) (chrome_windows inRange tab : bool)
    (timer : Z) (st : State) :
  snd (setReloadTimer Settings chrome_windows inRange tab timer st)
  = if inRange && may_ask Settings chrome_windows st && tab
    then [SocketEmit "reloadRequest"
            (<["countryCode" := countryCode st]> (identity Settings))]
    else [].
Proof.
  rewrite setReloadTimer_from_cleared.
  destruct (timers_cleared_may_ask Settings chrome_windows st) as [Hm Hc].
  destruct inRange; simpl; [|reflexivity].
  unfold seq, when. rewrite Hm, Hc.
  destruct (may_ask Settings chrome_windows st); [destruct tab|]; reflexivity.
Qed.

Lemma not_handled_type (v : value) (t : string) :
  match v with
  | JStr t' => t' <> t
  | _ => True
  end ->
  StringToNumber t = NaN ->
  loose_eq v (JStr t) = false.
Proof.
  intros Hv Ht. destruct v as [| |b|n|t'|d]; simpl; try reflexivity.
  - rewrite Ht. now destruct b.
  - rewrite Ht. now destruct n.
  - now apply String.eqb_neq.
Qed.

(** X18.  A message whose type is not one of the types the worker reacts
    to, be it another string, a number, a boolean, null or nothing at all,
    changes nothing and sends nothing. *)
Theorem X18_other_messages_are_ignored
    (Settings : SettingsMgr.t) (app_version request_variants : value)
    (data : gmap string value) (st : State) :
  match prop data "type" with
  | JStr t => ~ In t handled_types
  | _ => True
  end ->
  processBroadcastMessage Settings app_version request_variants data st
  = (st, []).
Proof.
  intros Ht. unfold processBroadcastMessage.
  destruct (loose_eq (prop data "type") JUndefined) eqn:Hu; [reflexivity|].
  assert (H : forall t, In t handled_types -> StringToNumber t = NaN ->
                        loose_eq (prop data "type") (JStr t) = false).
  { intros t Hin Hn. apply not_handled_type; [|exact Hn].
    destruct (prop data "type"); trivial. congruence. }
  rewrite !H by (reflexivity || (simpl; auto 10)).
  reflexivity.
Qed.

Lemma X18_witness :
  processBroadcastMessage notifying (JStr "3.5.5") (JBool false)
    {[ "type" := JStr "pong" ]} buffering = (buffering, []).
Proof.
  apply X18_other_messages_are_ignored.
  change (~ In "pong" handled_types). simpl. intuition discriminate.
Defined.

(* ===================================================================== *)
(** ** Further properties of the snapshot replay *)
(* ===================================================================== *)

Lemma map_fst_imap {A : Type} (k : nat) (l : list A) :
  map fst (imap (fun i x => (k + i, x)) l) = List.seq k (length l).
Proof.
  revert k. induction l as [|x r IH]; intros k; simpl; [reflexivity|].
  rewrite Nat.add_0_r. f_equal. rewrite <- IH.
  f_equal. apply imap_ext. intros i y _. simpl. f_equal. lia.
Qed.

Lemma seq_ascending (k n : nat) : StronglySorted lt (List.seq k n).
Proof.
  revert k. induction n as [|n IH]; intros k; simpl; constructor.
  - apply IH.
  - rewrite List.Forall_forall. intros i Hi. apply in_seq in Hi. lia.
Qed.

Lemma filter_all {A : Type} (g : A -> bool) (l : list A) :
  (forall x, In x l -> g x = true) -> List.filter g l = l.
Proof.
  induction l as [|x r IH]; intros H; simpl; [reflexivity|].
  rewrite (H x) by now left. f_equal. apply IH. intros y Hy. apply H.
  now right.
Qed.

Lemma stream_inputs_app (a b : list Effect) :
  stream_inputs (a ++ b) = stream_inputs a ++ stream_inputs b.
Proof. apply flat_map_app. Qed.

Lemma stream_inputs_map {A : Type} (f : A -> gmap string value) (l : list A) :
  stream_inputs (map (fun x => StreamInput (f x)) l) = map f l.
Proof. induction l as [|x r IH]; simpl; [reflexivity|]. now f_equal. Qed.

(** X19.  The newItem events of a replay carry the place of their product
    in the sorted array as [index]: the indices are below the length of the
    array and strictly decrease along the replay, the closing event has no
    index, and when no product is passed over the indices count down from
    the last place to 0 without a gap. *)
Theorem X19_replay_indices_count_down
    (Settings : SettingsMgr.t) (Date_parse : string -> number)
    (arrProducts : list (gmap string value)) (st : State) :
  exists idx : list nat,
    map (fun e => prop e "index")
        (stream_inputs
           (snd (processLast100Items Settings Date_parse arrProducts st)))
    = map (fun i => num (Z.of_nat i)) idx ++ [JUndefined]
    /\ StronglySorted (fun i j => j < i)%nat idx
    /\ Forall (fun i => i < length arrProducts)%nat idx
    /\ (Forall (fun p => skipped p = false) arrProducts ->
        idx = rev (List.seq 0 (length arrProducts))).
Proof.
  set (sorted := Array_sort (compareProducts Date_parse) arrProducts).
  assert (Hlen : length sorted = length arrProducts).
  { apply Permutation_length, Array_sort_Permutation. }
  assert (Hidx : map fst (rev (imap pair sorted))
                 = rev (List.seq 0 (length arrProducts))).
  { rewrite map_rev, <- Hlen. f_equal. exact (map_fst_imap 0 sorted). }
  exists (map fst (List.filter (fun ip => negb (skipped (snd ip)))
                     (rev (imap pair sorted)))).
  split; [|split; [|split]].
  - unfold processLast100Items. cbn [snd]. fold sorted.
    rewrite flat_map_replayProduct, stream_inputs_app, stream_inputs_map.
    rewrite map_app, !map_map. f_equal.
  - apply StronglySorted_map, StronglySorted_filter.
    assert (Hs : StronglySorted (fun i j => j < i)%nat
                   (map fst (rev (imap pair sorted)))).
    { rewrite Hidx. apply StronglySorted_rev, seq_ascending. }
    revert Hs. generalize (rev (imap pair sorted)).
    induction l as [|x r IH]; simpl; intros Hs; [constructor|].
    apply StronglySorted_inv in Hs as [Hr Hx].
    constructor; [now apply IH|].
    rewrite List.Forall_forall in *. intros y Hy. apply Hx.
    now apply in_map.
  - rewrite List.Forall_forall. intros i Hi.
    apply in_map_iff in Hi as (ip & <- & Hip).
    apply filter_In in Hip as [Hip _].
    apply (in_map fst) in Hip. rewrite Hidx in Hip.
    apply in_rev, in_seq in Hip. lia.
  - intros Hall. rewrite filter_all; [exact Hidx|].
    intros [i p] Hip. simpl.
    rewrite List.Forall_forall in Hall. rewrite Hall; [reflexivity|].
    apply (in_map snd) in Hip. rewrite map_rev in Hip.
    apply in_rev in Hip. rewrite (map_snd_imap (fun i => i)) in Hip.
    now apply Array_sort_In in Hip.
Qed.

Lemma X19_witness :
  exists idx : list nat,
    map (fun e => prop e "index")
        (stream_inputs
           (snd (processLast100Items notifying (fun _ => NaN)
                   [product "B02" "Lamp" "lamp.jpg" 200;
                    product "B01" "" "box.jpg" 100;
                    product "B03" "Desk" "desk.jpg" 300] initial)))
    = map (fun i => num (Z.of_nat i)) idx ++ [JUndefined]
    /\ StronglySorted (fun i j => j < i)%nat idx
    /\ Forall (fun i => i < 3)%nat idx
    /\ (Forall (fun p => skipped p = false)
          [product "B02" "Lamp" "lamp.jpg" 200;
           product "B01" "" "box.jpg" 100;
           product "B03" "Desk" "desk.jpg" 300] ->
        idx = rev (List.seq 0 3)).
Proof.
  exact (X19_replay_indices_count_down notifying (fun _ => NaN)
           [product "B02" "Lamp" "lamp.jpg" 200;
            product "B01" "" "box.jpg" 100;
            product "B03" "Desk" "desk.jpg" 300] initial).
Defined.

(* ===================================================================== *)
(** ** Further properties of the auto-load window *)
(* ===================================================================== *)

Section ClockFacts.
Local Open Scope Z_scope.

Lemma integral_whole q z : (q == inject_Z z)%Q -> integral (Fin q) = Some z.
Proof.
  unfold Qeq, integral. simpl. intros H. f_equal.
  rewrite Z.mul_1_r in H. rewrite H. apply Z.quot_mul. discriminate.
Qed.

Lemma Qltb_whole q z k :
  (q == inject_Z z)%Q -> Qltb q (inject_Z k) = (z <? k).
Proof.
  intros H. apply Bool.eq_iff_eq_true.
  rewrite Qltb_lt, Z.ltb_lt, H, <- Zlt_Qlt. reflexivity.
Qed.

Lemma Qgtb_whole q z k :
  (q == inject_Z z)%Q -> Qltb (inject_Z k) q = (k <? z).
Proof.
  intros H. apply Bool.eq_iff_eq_true.
  rewrite Qltb_lt, Z.ltb_lt, H, <- Zlt_Qlt. reflexivity.
Qed.

(** A value between the two limits is kept by the validity check. *)
Lemma kept q z hi :
  (q == inject_Z z)%Q -> 0 <= z <= hi ->
  less (JNum (Fin q)) (num 0) || greater (JNum (Fin q)) (num hi) = false.
Proof.
  intros H Hz. unfold greater, less, num. simpl.
  rewrite (Qltb_whole q z 0 H), (Qgtb_whole q z hi H).
  apply orb_false_intro; apply Z.ltb_ge; lia.
Qed.

Lemma Date_lt_Some a b : Date_lt (Some a) (Some b) = (a <? b).
Proof.
  unfold Date_lt. simpl. now apply Qltb_whole.
Qed.

(** The test [hours < 8] on two valid dates. *)
Lemma hours_below_8 a b :
  num_lt
    (num_abs (num_div (num_sub (getTime (Some b)) (getTime (Some a)))
                (Fin (inject_Z (1000 * 60 * 60)))))
    (Fin (inject_Z 8))
  = (Z.abs (b - a) <? 8 * msPerHour).
Proof.
  unfold getTime, num_sub, num_div.
  change (Qzero (inject_Z (1000 * 60 * 60))) with false.
  cbv iota. unfold num_abs, num_lt.
  apply Bool.eq_iff_eq_true. rewrite Qltb_lt, Z.ltb_lt.
  change (8 * msPerHour) with 28800000.
  change (1000 * 60 * 60) with 3600000.
  assert (Hd : (inject_Z b - inject_Z a == inject_Z (b - a))%Q).
  { change (b - a) with (b + - a).
    now rewrite inject_Z_plus, inject_Z_opp. }
  rewrite Hd. generalize (b - a). intros d.
  rewrite Qabs_Qlt_condition.
  assert (Hz : Z.abs d < 28800000 <-> - 28800000 < d < 28800000) by lia.
  rewrite Hz, !Zlt_Qlt.
  change (inject_Z 3600000) with 3600000%Q.
  change (inject_Z 8) with 8%Q.
  change (inject_Z 28800000) with 28800000%Q.
  change (inject_Z (- 28800000)) with (- 28800000)%Q.
  generalize (inject_Z d). intros x.
  set (y := (x / 3600000)%Q).
  assert (Hx : (x == y * 3600000)%Q) by (unfold y; field).
  rewrite Hx. clearbody y.
  split; intros [H1 H2]; split; lra.
Qed.

Variable LocalTZA : Z.

Lemma second_of_day_bounds t :
  0 <= second_of_day LocalTZA t < msPerDay.
Proof.
  unfold second_of_day, TimeWithinDay, msPerDay, msPerSecond.
  generalize (LocalTime LocalTZA t). intros l.
  Z.div_mod_to_equations. lia.
Qed.

Lemma now_instant t :
  t = instant LocalTZA t (second_of_day LocalTZA t).
Proof.
  unfold instant, second_of_day, UTC, MakeDate, Day, TimeWithinDay,
    msFromTime, LocalTime, msPerDay, msPerSecond.
  Z.div_mod_to_equations. lia.
Qed.

Lemma instant_lt t a b : (instant LocalTZA t a <? instant LocalTZA t b) = (a <? b).
Proof.
  apply Bool.eq_iff_eq_true. rewrite !Z.ltb_lt.
  unfold instant, UTC, MakeDate. lia.
Qed.

Lemma now_lt_instant t a :
  (t <? instant LocalTZA t a) = (second_of_day LocalTZA t <? a).
Proof. rewrite (now_instant t) at 1. apply instant_lt. Qed.

Lemma instant_lt_now t a :
  (instant LocalTZA t a <? t) = (a <? second_of_day LocalTZA t).
Proof.
  rewrite <- (instant_lt t a (second_of_day LocalTZA t)).
  now rewrite <- now_instant.
Qed.

Lemma instant_le_now t a :
  (instant LocalTZA t a <=? t) = (a <=? second_of_day LocalTZA t).
Proof.
  rewrite !Z.leb_antisym. now rewrite now_lt_instant.
Qed.

Lemma instant_bounds t c :
  ordinary LocalTZA t -> - 2 * msPerDay <= c <= 3 * msPerDay ->
  (Z.abs (instant LocalTZA t c) <=? 8640000000000000) = true.
Proof.
  unfold ordinary, instant, UTC, MakeDate, Day, msFromTime, LocalTime,
    msPerDay, msPerSecond.
  intros [Hz Ht] Hc. apply Z.leb_le.
  Z.div_mod_to_equations. lia.
Qed.

(** The parts of a local time made of a day and a time of the day. *)
Lemma local_parts d h m s ms :
  0 <= h <= 23 -> 0 <= m <= 59 -> 0 <= s <= 59 -> 0 <= ms <= 999 ->
  let x := MakeDate d (MakeTime h m s ms) in
  Day x = d /\ HourFromTime x = h /\ MinFromTime x = m
  /\ SecFromTime x = s /\ msFromTime x = ms.
Proof.
  intros Hh Hm Hs Hms x. subst x.
  unfold MakeDate, MakeTime, Day, HourFromTime, MinFromTime, SecFromTime,
    msFromTime, msPerDay, msPerHour, msPerMinute, msPerSecond.
  repeat split; Z.div_mod_to_equations; lia.
Qed.

Lemma LocalTime_UTC x : LocalTime LocalTZA (UTC LocalTZA x) = x.
Proof. unfold LocalTime, UTC. lia. Qed.

Lemma instant_parts t h m s :
  instant LocalTZA t (MakeTime h m s 0)
  = UTC LocalTZA
      (MakeDate (Day (LocalTime LocalTZA t))
         (MakeTime h m s (msFromTime (LocalTime LocalTZA t)))).
Proof. unfold instant, MakeDate, MakeTime. f_equal. lia. Qed.

Lemma msFromTime_bounds x : 0 <= msFromTime x <= 999.
Proof.
  unfold msFromTime, msPerSecond. Z.div_mod_to_equations. lia.
Qed.

Lemma TimeClipped_instant t h m s :
  ordinary LocalTZA t ->
  0 <= h <= 23 -> 0 <= m <= 59 -> 0 <= s <= 59 ->
  TimeClipped (instant LocalTZA t (MakeTime h m s 0))
  = Some (instant LocalTZA t (MakeTime h m s 0)).
Proof.
  intros Ho Hh Hm Hs. unfold TimeClipped.
  rewrite instant_bounds; [reflexivity|exact Ho|].
  unfold MakeTime, msPerDay, msPerHour, msPerMinute, msPerSecond. lia.
Qed.

(** The instant [t] itself, by its local hour, minute and second. *)
Lemma now_parts t :
  let l := LocalTime LocalTZA t in
  t = instant LocalTZA t
        (MakeTime (HourFromTime l) (MinFromTime l) (SecFromTime l) 0)
  /\ 0 <= HourFromTime l <= 23 /\ 0 <= MinFromTime l <= 59
  /\ 0 <= SecFromTime l <= 59.
Proof.
  intros l. split.
  - rewrite instant_parts. fold l.
    assert (Hl : l = MakeDate (Day l)
                       (MakeTime (HourFromTime l) (MinFromTime l)
                          (SecFromTime l) (msFromTime l))).
    { unfold MakeDate, MakeTime, Day, HourFromTime, MinFromTime,
        SecFromTime, msFromTime, msPerDay, msPerHour, msPerMinute,
        msPerSecond.
      Z.div_mod_to_equations. lia. }
    rewrite <- Hl. unfold l, UTC, LocalTime. lia.
  - unfold HourFromTime, MinFromTime, SecFromTime.
    repeat split; Z.div_mod_to_equations; lia.
Qed.

Section SetParts.
Variables (t h m s : Z).
Hypothesis Ho : ordinary LocalTZA t.
Hypothesis Hh : 0 <= h <= 23.
Hypothesis Hm : 0 <= m <= 59.
Hypothesis Hs : 0 <= s <= 59.

Lemma parts_of_instant :
  let x := LocalTime LocalTZA (instant LocalTZA t (MakeTime h m s 0)) in
  Day x = Day (LocalTime LocalTZA t) /\ HourFromTime x = h
  /\ MinFromTime x = m /\ SecFromTime x = s
  /\ msFromTime x = msFromTime (LocalTime LocalTZA t).
Proof.
  intros x. unfold x. rewrite instant_parts, LocalTime_UTC.
  apply local_parts; try assumption. apply msFromTime_bounds.
Qed.

Lemma setHours_instant v h' :
  integral (ToNumber v) = Some h' -> 0 <= h' <= 23 ->
  setHours LocalTZA v (Some (instant LocalTZA t (MakeTime h m s 0)))
  = Some (instant LocalTZA t (MakeTime h' m s 0)).
Proof.
  intros Hv Hh'. unfold setHours. rewrite Hv.
  destruct parts_of_instant as (-> & _ & -> & -> & ->).
  rewrite <- instant_parts. now apply TimeClipped_instant.
Qed.

Lemma setMinutes_instant v m' :
  integral (ToNumber v) = Some m' -> 0 <= m' <= 59 ->
  setMinutes LocalTZA v (Some (instant LocalTZA t (MakeTime h m s 0)))
  = Some (instant LocalTZA t (MakeTime h m' s 0)).
Proof.
  intros Hv Hm'. unfold setMinutes. rewrite Hv.
  destruct parts_of_instant as (-> & -> & _ & -> & ->).
  rewrite <- instant_parts. now apply TimeClipped_instant.
Qed.

Lemma setSeconds_instant v s' :
  integral (ToNumber v) = Some s' -> 0 <= s' <= 59 ->
  setSeconds LocalTZA v (Some (instant LocalTZA t (MakeTime h m s 0)))
  = Some (instant LocalTZA t (MakeTime h m s' 0)).
Proof.
  intros Hv Hs'. unfold setSeconds. rewrite Hv.
  destruct parts_of_instant as (-> & -> & -> & _ & ->).
  rewrite <- instant_parts. now apply TimeClipped_instant.
Qed.
End SetParts.

(** What the three setters leave of the clock reading [t]. *)
Lemma set_clock t qh qm h m :
  ordinary LocalTZA t ->
  (qh == inject_Z h)%Q -> (qm == inject_Z m)%Q ->
  0 <= h <= 23 -> 0 <= m <= 59 ->
  setSeconds LocalTZA (num 0)
    (setMinutes LocalTZA (JNum (Fin qm))
       (setHours LocalTZA (JNum (Fin qh)) (Some t)))
  = Some (instant LocalTZA t (clock h m)).
Proof.
  intros Ho Hqh Hqm Hh Hm.
  destruct (now_parts t) as (Ht & HH & HM & HS).
  set (l := LocalTime LocalTZA t) in *.
  transitivity
    (setSeconds LocalTZA (num 0)
       (setMinutes LocalTZA (JNum (Fin qm))
          (setHours LocalTZA (JNum (Fin qh))
             (Some (instant LocalTZA t
                      (MakeTime (HourFromTime l) (MinFromTime l)
                         (SecFromTime l) 0)))))).
  { now rewrite <- Ht. }
  rewrite (setHours_instant t _ _ _ Ho HH HM HS _ h);
    [|now apply integral_whole|exact Hh].
  rewrite (setMinutes_instant t _ _ _ Ho Hh HM HS _ m);
    [|now apply integral_whole|exact Hm].
  rewrite (setSeconds_instant t _ _ _ Ho Hh Hm HS _ 0);
    [reflexivity|reflexivity|lia].
Qed.

Lemma setHours_clock t h m :
  ordinary LocalTZA t -> 0 <= h <= 23 -> 0 <= m <= 59 ->
  forall v h', integral (ToNumber v) = Some h' -> 0 <= h' <= 23 ->
  setHours LocalTZA v (Some (instant LocalTZA t (clock h m)))
  = Some (instant LocalTZA t (clock h' m)).
Proof.
  intros Ho Hh Hm v h' Hv Hh'. unfold clock.
  apply setHours_instant; (assumption || lia).
Qed.

Lemma moveDate_instant t c k :
  ordinary LocalTZA t -> - msPerDay <= c + k * msPerDay <= 2 * msPerDay ->
  moveDate LocalTZA k (Some (instant LocalTZA t c))
  = Some (instant LocalTZA t (c + k * msPerDay)).
Proof.
  intros Ho Hc. unfold moveDate.
  set (x := LocalTime LocalTZA (instant LocalTZA t c)).
  assert (Hx : UTC LocalTZA (MakeDate (Day x + k) (TimeWithinDay x))
               = instant LocalTZA t (c + k * msPerDay)).
  { unfold x, instant, UTC, LocalTime, MakeDate, Day, TimeWithinDay,
      msPerDay.
    Z.div_mod_to_equations. lia. }
  rewrite Hx. unfold TimeClipped.
  rewrite instant_bounds; [reflexivity|exact Ho|].
  unfold msPerDay in *. lia.
Qed.

Lemma instant_sub t a b :
  instant LocalTZA t b - instant LocalTZA t a = b - a.
Proof. unfold instant, UTC, MakeDate. lia. Qed.

End ClockFacts.

(** The opening of [isTimeWithinRange] on two readable settings: both
    dates are set to their clock times on the day of the reading. *)
Ltac read_window Hstart Hend Ho :=
  destruct Hstart as (?s & qsh & qsm & Hgs & Hps & Hqsh & Hqsm & Hsh & Hsm);
  destruct Hend as (?e & qeh & qem & Hge & Hpe & Hqeh & Hqem & Heh & Hem);
  unfold within_range, isTimeWithinRange;
  rewrite Hgs, Hge, Hps, Hpe;
  rewrite (kept qsh _ 24 Hqsh), (kept qsm _ 59 Hqsm), (kept qeh _ 24 Hqeh),
    (kept qem _ 59 Hqem) by lia;
  rewrite (set_clock _ _ _ _ _ _ Ho Hqsh Hqsm Hsh Hsm),
    (set_clock _ _ _ _ _ _ Ho Hqeh Hqem Heh Hem);
  rewrite hours_below_8, instant_sub.

(** The comparisons of dates, by the times of the day. *)
Ltac compare_dates :=
  unfold Date_ge;
  rewrite ?Date_lt_Some, ?instant_lt, ?now_lt_instant, ?instant_lt_now,
    ?instant_le_now.

Lemma clock_bounds h m :
  (0 <= h <= 23 -> 0 <= m <= 59 -> 0 <= clock h m < msPerDay)%Z.
Proof.
  unfold clock, MakeTime, msPerHour, msPerMinute, msPerSecond, msPerDay.
  lia.
Qed.

(** X20.  A window of eight hours or more within one day.  When the start
    and end settings read as clock times and the end is at least eight
    hours after the start, [isTimeWithinRange] answers true exactly when
    the local time of day, cut to the second, lies between the two, both
    included. *)
Theorem X20_window_within_one_day
    (Settings : SettingsMgr.t) (LocalTZA t sh sm eh em : Z) :
  ordinary LocalTZA t ->
  reads (SettingsMgr.get Settings "notification.autoload.hourStart" true)
        sh sm ->
  reads (SettingsMgr.get Settings "notification.autoload.hourEnd" true)
        eh em ->
  (clock sh sm + 8 * msPerHour <= clock eh em)%Z ->
  within_range Settings LocalTZA t
  = Return ((clock sh sm <=? second_of_day LocalTZA t)%Z
            && (second_of_day LocalTZA t <=? clock eh em)%Z).
Proof.
  intros Ho Hstart Hend Hlong.
  read_window Hstart Hend Ho.
  rewrite (proj2 (Z.ltb_ge _ _)) by (unfold msPerHour in *; lia).
  cbv iota beta. compare_dates.
  rewrite (proj2 (Z.ltb_ge _ _)) by (unfold msPerHour in *; lia).
  cbv iota beta. compare_dates.
  repeat case Z.ltb_spec; repeat case Z.leb_spec; intros;
    (reflexivity || lia).
Qed.

Lemma X20_witness :
  within_range (autoload_window "03:00" "17:00") 0 noon = Return true.
Proof.
  refine (X20_window_within_one_day
            (autoload_window "03:00" "17:00") 0 noon 3 0 17 0 _ _ _ _).
  - split; vm_compute; discriminate.
  - exists "03:00", 3%Q, 0%Q. vm_compute. intuition discriminate.
  - exists "17:00", 17%Q, 0%Q. vm_compute. intuition discriminate.
  - vm_compute. discriminate.
Defined.

(** X21.  A window shorter than eight hours is not used as it is set: the
    hours are replaced by 3 and 17, and the minutes of the two settings are
    kept.  [isTimeWithinRange] then answers true exactly when the local
    time of day, cut to the second, lies between 3 hours plus the start
    minutes and 17 hours plus the end minutes, both included. *)
Theorem X21_short_window_keeps_its_minutes
    (Settings : SettingsMgr.t) (LocalTZA t sh sm eh em : Z) :
  ordinary LocalTZA t ->
  reads (SettingsMgr.get Settings "notification.autoload.hourStart" true)
        sh sm ->
  reads (SettingsMgr.get Settings "notification.autoload.hourEnd" true)
        eh em ->
  (Z.abs (clock eh em - clock sh sm) < 8 * msPerHour)%Z ->
  within_range Settings LocalTZA t
  = Return ((clock 3 sm <=? second_of_day LocalTZA t)%Z
            && (second_of_day LocalTZA t <=? clock 17 em)%Z).
Proof.
  intros Ho Hstart Hend Hshort.
  read_window Hstart Hend Ho.
  rewrite (proj2 (Z.ltb_lt _ _)) by exact Hshort.
  rewrite (setHours_clock LocalTZA t sh sm Ho Hsh Hsm (num 3) 3 eq_refl)
    by lia.
  rewrite (setHours_clock LocalTZA t eh em Ho Heh Hem (num 17) 17 eq_refl)
    by lia.
  pose proof (clock_bounds 3 sm ltac:(lia) Hsm) as H3.
  pose proof (clock_bounds 17 em ltac:(lia) Hem) as H17.
  assert (Hord : (clock 3 sm <= clock 17 em)%Z).
  { unfold clock, MakeTime, msPerHour, msPerMinute, msPerSecond. lia. }
  cbv iota beta. compare_dates.
  rewrite (proj2 (Z.ltb_ge (clock 17 em) (clock 3 sm)) Hord).
  cbv iota beta. compare_dates.
  repeat case Z.ltb_spec; repeat case Z.leb_spec; intros;
    (reflexivity || lia).
Qed.

Lemma X21_witness :
  within_range (autoload_window "10:30" "12:45") 0 noon = Return true
  /\ within_range (autoload_window "10:30" "12:45") 0
       (noon + 5 * msPerHour + 40 * msPerMinute) = Return true
  /\ within_range (autoload_window "10:30" "12:45") 0
       (noon + 6 * msPerHour) = Return false.
Proof.
  assert (Hs : reads (SettingsMgr.get (autoload_window "10:30" "12:45")
                        "notification.autoload.hourStart" true) 10 30).
  { exists "10:30", 10%Q, 30%Q. vm_compute. intuition discriminate. }
  assert (He : reads (SettingsMgr.get (autoload_window "10:30" "12:45")
                        "notification.autoload.hourEnd" true) 12 45).
  { exists "12:45", 12%Q, 45%Q. vm_compute. intuition discriminate. }
  assert (Hd : (Z.abs (clock 12 45 - clock 10 30) < 8 * msPerHour)%Z).
  { vm_compute. reflexivity. }
  split; [|split].
  - refine (X21_short_window_keeps_its_minutes _ 0 noon 10 30 12 45
              _ Hs He Hd).
    split; vm_compute; discriminate.
  - refine (X21_short_window_keeps_its_minutes _ 0 _ 10 30 12 45
              _ Hs He Hd).
    split; vm_compute; discriminate.
  - refine (X21_short_window_keeps_its_minutes _ 0 _ 10 30 12 45
              _ Hs He Hd).
    split; vm_compute; discriminate.
Defined.

(** X22.  A window that runs over midnight.  When the start setting is at
    least eight hours later in the day than the end setting,
    [isTimeWithinRange] answers true exactly when the local time of day,
    cut to the second, is before the end or not before the start: the
    second of the end time itself is outside. *)
Theorem X22_window_over_midnight
    (Settings : SettingsMgr.t) (LocalTZA t sh sm eh em : Z) :
  ordinary LocalTZA t ->
  reads (SettingsMgr.get Settings "notification.autoload.hourStart" true)
        sh sm ->
  reads (SettingsMgr.get Settings "notification.autoload.hourEnd" true)
        eh em ->
  (clock eh em + 8 * msPerHour <= clock sh sm)%Z ->
  within_range Settings LocalTZA t
  = Return ((second_of_day LocalTZA t <? clock eh em)%Z
            || (clock sh sm <=? second_of_day LocalTZA t)%Z).
Proof.
  intros Ho Hstart Hend Hlong.
  read_window Hstart Hend Ho.
  pose proof (clock_bounds sh sm Hsh Hsm) as Hs.
  pose proof (clock_bounds eh em Heh Hem) as He.
  pose proof (second_of_day_bounds LocalTZA t) as Hn.
  rewrite (proj2 (Z.ltb_ge _ _)) by (unfold msPerHour in *; lia).
  cbv iota beta. compare_dates.
  rewrite (proj2 (Z.ltb_lt _ _)) by (unfold msPerHour in *; lia).
  case Z.ltb_spec; intros Hbefore.
  - rewrite moveDate_instant by (assumption || (unfold msPerDay in *; lia)).
    cbv iota beta. compare_dates.
    repeat case Z.ltb_spec; repeat case Z.leb_spec; intros;
      (reflexivity || (unfold msPerDay in *; lia)).
  - case Z.leb_spec; intros Hafter.
    + rewrite moveDate_instant
        by (assumption || (unfold msPerDay in *; lia)).
      cbv iota beta. compare_dates.
      repeat case Z.ltb_spec; repeat case Z.leb_spec; intros;
        (reflexivity || (unfold msPerDay in *; lia)).
    + cbv iota beta. compare_dates.
      repeat case Z.ltb_spec; repeat case Z.leb_spec; intros;
        (reflexivity || lia).
Qed.

Lemma X22_witness :
  within_range (autoload_window "23:00" "09:00") 0 noon = Return false
  /\ within_range (autoload_window "23:00" "09:00") 0
       (noon - 4 * msPerHour) = Return true
  /\ within_range (autoload_window "23:00" "09:00") 0
       (noon + 11 * msPerHour) = Return true.
Proof.
  assert (Hs : reads (SettingsMgr.get (autoload_window "23:00" "09:00")
                        "notification.autoload.hourStart" true) 23 0).
  { exists "23:00", 23%Q, 0%Q. vm_compute. intuition discriminate. }
  assert (He : reads (SettingsMgr.get (autoload_window "23:00" "09:00")
                        "notification.autoload.hourEnd" true) 9 0).
  { exists "09:00", 9%Q, 0%Q. vm_compute. intuition discriminate. }
  assert (Hd : (clock 9 0 + 8 * msPerHour <= clock 23 0)%Z).
  { vm_compute. discriminate. }
  split; [|split].
  - refine (X22_window_over_midnight _ 0 noon 23 0 9 0 _ Hs He Hd).
    split; vm_compute; discriminate.
  - refine (X22_window_over_midnight _ 0 _ 23 0 9 0 _ Hs He Hd).
    split; vm_compute; discriminate.
  - refine (X22_window_over_midnight _ 0 _ 23 0 9 0 _ Hs He Hd).
    split; vm_compute; discriminate.
Defined.

(** A start time whose hour or minute is not a number leaves an invalid
    date, whatever the date was. *)
Lemma unreadable_start LocalTZA (vh vm : value) (d : Date) :
  ToNumber vh = NaN \/ ToNumber vm = NaN ->
  setSeconds LocalTZA (num 0)
    (setMinutes LocalTZA
       (if less vm (num 0) || greater vm (num 59) then num 0 else vm)
       (setHours LocalTZA
          (if less vh (num 0) || greater vh (num 24) then num 3 else vh)
          d))
  = None.
Proof.
  assert (Hk : forall v hi, ToNumber v = NaN ->
            less v (num 0) || greater v (num hi) = false).
  { intros v hi Hv. unfold greater, less, num.
    destruct v; simpl in *; rewrite ?Hv; try reflexivity;
      try discriminate; destruct b; discriminate. }
  intros [Hv|Hv].
  - rewrite (Hk vh 24%Z Hv). unfold setHours at 1. rewrite Hv.
    destruct d; reflexivity.
  - rewrite (Hk vm 59%Z Hv). unfold setMinutes at 1. rewrite Hv.
    destruct (setHours _ _ d); reflexivity.
Qed.

(** X23.  A start setting whose hour or minute is not a number, as when it
    holds no colon, takes the lower limit away: with a readable end
    setting, [isTimeWithinRange] answers true from midnight until the end
    time, the eight-hour rule playing no part. *)
Theorem X23_unreadable_start_opens_the_morning
    (Settings : SettingsMgr.t) (LocalTZA t eh em : Z) :
  ordinary LocalTZA t ->
  unreadable
    (SettingsMgr.get Settings "notification.autoload.hourStart" true) ->
  reads (SettingsMgr.get Settings "notification.autoload.hourEnd" true)
        eh em ->
  within_range Settings LocalTZA t
  = Return (second_of_day LocalTZA t <=? clock eh em)%Z.
Proof.
  intros Ho (s & Hgs & Hs)
         (e & qeh & qem & Hge & Hpe & Hqeh & Hqem & Heh & Hem).
  unfold within_range, isTimeWithinRange.
  rewrite Hgs, Hge, Hpe.
  destruct (hour_minute s) as [vh vm]. cbv iota beta.
  rewrite (unreadable_start LocalTZA vh vm _ Hs).
  rewrite (kept qeh _ 24 Hqeh), (kept qem _ 59 Hqem) by lia.
  rewrite (set_clock _ _ _ _ _ _ Ho Hqeh Hqem Heh Hem).
  cbn [getTime num_sub num_div num_abs num_lt]. cbv iota beta.
  unfold Date_lt at 1. cbn [getTime num_lt].
  cbv iota beta.
  unfold Date_lt at 1. cbn [getTime num_lt]. cbn [orb].
  compare_dates.
  case Z.ltb_spec; case Z.leb_spec; intros; (reflexivity || lia).
Qed.

Lemma X23_witness :
  within_range (autoload_window "3" "17:00") 0 (noon - 11 * msPerHour)
  = Return true.
Proof.
  refine (X23_unreadable_start_opens_the_morning
            (autoload_window "3" "17:00") 0 _ 17 0 _ _ _).
  - split; vm_compute; discriminate.
  - exists "3". split; [reflexivity|]. right. reflexivity.
  - exists "17:00", 17%Q, 0%Q. vm_compute. intuition discriminate.
Defined.
